(** * ChittyDLVR: certified delivery, signed receipts, service of process

    A shallow embedding of the JavaScript sources of ChittyDLVR
    (core/dlvr.js, core/channels.js, core/receipt.js, core/service.js)
    together with the properties its specification states about them.

    Conventions of the embedding.
    - A JavaScript number is an IEEE-754 binary64 value, [spec_float] at
      precision 53 and maximal exponent 1024.
    - A JavaScript string is a [string], its characters being code units
      below 256; property names are strings.
    - An object is an association list that names each own property
      once. A read [table[key]] on an object literal that finds no own
      property continues on [Object.prototype], as the language does.
    - Option bags are records at the types the JSDoc of the sources gives
      their fields; a field that may be left out is an [option].
    - A function that can throw returns an [outcome]; a method that also
      updates its object takes the object and returns it with the outcome.
    - What a call takes from outside (clock readings, random octets, the
      answer of the network) is an argument of the call; what the host
      and the Web Crypto API compute are the members of the classes [Host]
      and [WebCrypto]. Console output is left out. *)

From Stdlib Require Import ZArith NArith QArith Qround Bool List Lia SpecFloat.
From Stdlib.Strings Require Import String Ascii Byte.
From stdpp Require Import base strings pretty gmap.
Import ListNotations.

Local Close Scope Q_scope.
Local Open Scope string_scope.
Local Open Scope Z_scope.

(** ** The fragment of JavaScript the sources rely on *)

Module JS.

(** *** Numbers *)

Definition number : Type := spec_float.

Definition prec : Z := 53.
Definition emax : Z := 1024.

Definition NaN : number := S754_nan.

(** An integer literal; exact below 2^53. *)
Definition int (z : Z) : number := binary_normalize prec emax z 0 false.

(** A decimal literal [num/den], e.g. [0.3] is [dec 3 10]: the binary64
    value nearest to the quotient (ties to even), which is what a
    correctly rounded division of two exact integers returns. *)
Definition dec (num den : Z) : number := SFdiv prec emax (int num) (int den).

Definition mul (x y : number) : number := SFmul prec emax x y.
Definition add (x y : number) : number := SFadd prec emax x y.

(** [Math.round]: the nearest integral number, a tie going towards
    plus infinity; the sign of a zero result is the sign of the argument. *)
Definition Math_round (x : number) : number :=
  match x with
  | S754_finite s m e =>
      if 0 <=? e then x
      else
        let k := - e in
        let sm := if s then Z.neg m else Z.pos m in
        binary_normalize prec emax ((2 * sm + 2 ^ k) / 2 ^ (k + 1)) 0 s
  | _ => x
  end.

(** [Math.min] on two numbers. *)
Definition Math_min (x y : number) : number :=
  match x, y with
  | S754_nan, _ | _, S754_nan => NaN
  | _, _ => if SFltb y x then y else x
  end.

(** Truthiness of a number: zero and NaN are falsy. *)
Definition truthy_number (x : number) : bool :=
  match x with
  | S754_zero _ | S754_nan => false
  | _ => true
  end.

(** *** Object literals as lookup tables *)

(** The own property names of [Object.prototype]; every object literal
    inherits them. *)
Definition object_prototype : list string :=
  [ "constructor"; "__defineGetter__"; "__defineSetter__"; "hasOwnProperty";
    "__lookupGetter__"; "__lookupSetter__"; "isPrototypeOf";
    "propertyIsEnumerable"; "toString"; "valueOf"; "__proto__";
    "toLocaleString" ].

Definition inherited (key : string) : bool :=
  existsb (String.eqb key) object_prototype.

(** What a read [table[key]] finds. *)
Inductive slot (A : Type) : Type :=
| Own (a : A)               (* an own property of the literal *)
| Inherited (name : string) (* a member of Object.prototype: an object *)
| Absent.                   (* undefined *)
Arguments Own {A} a.
Arguments Inherited {A} name.
Arguments Absent {A}.

Fixpoint own {A} (table : list (string * A)) (key : string) : option A :=
  match table with
  | [] => None
  | (k, a) :: rest => if String.eqb k key then Some a else own rest key
  end.

Definition get {A} (table : list (string * A)) (key : string) : slot A :=
  match own table key with
  | Some a => Own a
  | None => if inherited key then Inherited key else Absent
  end.

(** The result of [table[key] || fallback]: a value of the table, or the
    member of Object.prototype the read found (a function, or for
    [__proto__] the prototype object itself; always truthy). *)
Inductive found (A : Type) : Type :=
| Val (a : A)
| Proto (name : string).
Arguments Val {A} a.
Arguments Proto {A} name.

Definition or_else {A} (truthy : A -> bool) (s : slot A) (fallback : A)
    : found A :=
  match s with
  | Own a => if truthy a then Val a else Val fallback
  | Inherited name => Proto name
  | Absent => Val fallback
  end.

(** A score: a number, or an object where the table read went astray. *)
Definition numeric : Type := found number.

(** [ToNumber]: a function object, or the plain object Object.prototype,
    converts to NaN. *)
Definition ToNumber (v : numeric) : number :=
  match v with
  | Val x => x
  | Proto _ => NaN
  end.

(** [ToNumber (v + k)] for a number [k]. On an object [+] concatenates
    the object's source text and the digits of [k]; that text is no
    numeral, so it converts to NaN. *)
Definition plus (v : numeric) (k : number) : number :=
  match v with
  | Val x => add x k
  | Proto _ => NaN
  end.

(** *** Values that are only passed through *)

#[local] Unset Elimination Schemes.
Inductive value : Type :=
| Undefined
| Null
| Bool (b : bool)
| Number (x : number)
| String (s : string)
| Array (items : list value)
| Object (fields : list (string * value)).
#[local] Set Elimination Schemes.

Definition truthy (v : value) : bool :=
  match v with
  | Undefined | Null => false
  | Bool b => b
  | Number x => truthy_number x
  | String s => negb (String.eqb s "")
  | Array _ | Object _ => true
  end.

(** [v || fallback] *)
Definition or (v fallback : value) : value :=
  if truthy v then v else fallback.

(** An object argument: left out (or [undefined]), [null], or given. *)
Inductive argument (A : Type) : Type :=
| Omitted
| IsNull
| Given (a : A).
Arguments Omitted {A}.
Arguments IsNull {A}.
Arguments Given {A} a.

(** A destructuring default, [{ x = fallback }]: it replaces
    [undefined] only, so [null] stays, here [None]. *)
Definition destructured {A} (fallback : A) (x : argument A) : option A :=
  match x with
  | Omitted => Some fallback
  | IsNull => None
  | Given a => Some a
  end.

(** [typeof v === 'string'] *)
Definition is_string (v : value) : bool :=
  match v with
  | String _ => true
  | _ => false
  end.

(** *** Exceptions *)

Inductive exn : Type :=
| Error (message : string)
| TypeError (message : string)
| SyntaxError (message : string)
| DOMException (name message : string).

Definition message (e : exn) : string :=
  match e with
  | Error m | TypeError m | SyntaxError m | DOMException _ m => m
  end.

Inductive outcome (A : Type) : Type :=
| Return (a : A)
| Throw (e : exn).
Arguments Return {A} a.
Arguments Throw {A} e.

Definition bind {A B} (c : outcome A) (k : A -> outcome B) : outcome B :=
  match c with
  | Return a => k a
  | Throw e => Throw e
  end.

(** [try { body } catch (error) { handler }] *)
Definition try_catch {A} (body : outcome A) (handler : exn -> outcome A)
    : outcome A :=
  match body with
  | Return a => Return a
  | Throw e => handler e
  end.

(** A read [data.key] on a parsed JSON value, for a [key] that none of
    the built-in prototypes defines: reading from [null] or [undefined]
    throws, a primitive or an array has no such member. *)
Definition member (data : value) (key : string) : outcome value :=
  match data with
  | Undefined | Null =>
      Throw (TypeError ("Cannot read properties of null (reading '"
                          ++ key ++ "')"))
  | Object fields =>
      match own fields key with
      | Some v => Return v
      | None => Return Undefined
      end
  | _ => Return Undefined
  end.

(** [{ ...v }] followed by [delete copy.d]: the own enumerable
    properties of [v] without [key]. An array or a string spreads into
    index-named properties, a number, a boolean, [null] and [undefined]
    into none. *)
Fixpoint indexed (i : nat) (items : list value) : list (string * value) :=
  match items with
  | [] => []
  | v :: rest => (pretty i, v) :: indexed (S i) rest
  end.

Fixpoint characters (s : string) : list value :=
  match s with
  | EmptyString => []
  | String.String c rest => String (String.String c "") :: characters rest
  end.

Definition spread (v : value) : list (string * value) :=
  match v with
  | Object fields => fields
  | Array items => indexed 0 items
  | String s => indexed 0 (characters s)
  | _ => []
  end.

Definition delete (key : string) (fields : list (string * value))
    : list (string * value) :=
  List.filter (fun kv => negb (String.eqb (fst kv) key)) fields.

(** *** Printing integers, as the identifier generators do *)

Definition numerals : list ascii :=
  list_ascii_of_string "0123456789abcdefghijklmnopqrstuvwxyz".

Definition numeral (d : N) : string :=
  String.String (nth (N.to_nat d) numerals "0"%char) "".

Fixpoint to_radix (fuel : nat) (radix n : N) : string :=
  match fuel with
  | O => numeral (n mod radix)%N
  | S fuel' =>
      if (n <? radix)%N then numeral n
      else to_radix fuel' radix (n / radix)%N ++ numeral (n mod radix)%N
  end.

(** [n.toString(radix)] for a non-negative integer [n]. *)
Definition toString_radix (radix n : N) : string :=
  to_radix (N.size_nat n) radix n.

(** [b.toString(16).padStart(2, '0')] for an octet [b]. *)
Definition hex_octet (b : byte) : string :=
  numeral (Byte.to_N b / 16)%N ++ numeral (Byte.to_N b mod 16)%N.

(** [Array.from(bytes, b => b.toString(16).padStart(2, '0')).join('')] *)
Definition hex (bytes : list byte) : string :=
  String.concat "" (map hex_octet bytes).

Definition upper (c : ascii) : ascii :=
  let n := N_of_ascii c in
  if ((97 <=? n) && (n <=? 122))%N then ascii_of_N (n - 32) else c.

(** [s.toUpperCase()]; the identifiers it is applied to are made of
    digits, lower-case ASCII letters and hyphens. *)
Fixpoint toUpperCase (s : string) : string :=
  match s with
  | EmptyString => EmptyString
  | String.String c rest => String.String (upper c) (toUpperCase rest)
  end.

End JS.

Notation "'let*' x ':=' c 'in' k" := (JS.bind c (fun x => k))
  (at level 10, x pattern, c at level 100, k at level 200, only parsing).

(** ** [btoa] and [atob]

    The platform's base64 functions, after the "forgiving-base64" encode
    and decode of the WHATWG Infra standard. A binary string is a string
    whose characters are the octets. *)

Module Base64.
Import JS.

Local Open Scope N_scope.
Local Open Scope char_scope.

Definition alphabet : list ascii :=
  list_ascii_of_string
    "ABCDEFGHIJKLMNOPQRSTUVWXYZabcdefghijklmnopqrstuvwxyz0123456789+/".

(** The character that writes a six-bit group. *)
Definition digit (n : N) : ascii := nth (N.to_nat n) alphabet "A".

Fixpoint position (c : ascii) (chars : list ascii) (i : N) : option N :=
  match chars with
  | [] => None
  | d :: rest => if Ascii.eqb c d then Some i else position c rest (i + 1)
  end.

(** The six-bit group a character stands for, if it is in the alphabet. *)
Definition sextet (c : ascii) : option N := position c alphabet 0.

Fixpoint encode (octets : list N) : list ascii :=
  match octets with
  | [] => []
  | [a] => [digit (a / 4); digit (a mod 4 * 16); "="; "="]
  | [a; b] =>
      [digit (a / 4); digit (a mod 4 * 16 + b / 16); digit (b mod 16 * 4);
       "="]
  | a :: b :: c :: rest =>
      digit (a / 4) :: digit (a mod 4 * 16 + b / 16)
        :: digit (b mod 16 * 4 + c / 64) :: digit (c mod 64) :: encode rest
  end.

(** [btoa]: every character of a [string] is below 256, so the
    InvalidCharacterError of [btoa] cannot arise. *)
Definition btoa (binary : string) : string :=
  string_of_list_ascii
    (encode (map N_of_ascii (list_ascii_of_string binary))).

(** ASCII whitespace: TAB, LF, FF, CR and SPACE. *)
Definition is_whitespace (c : ascii) : bool :=
  existsb (N.eqb (N_of_ascii c)) [9; 10; 12; 13; 32].

Definition is_pad (c : ascii) : bool := Ascii.eqb c "=".

(** Removes the one or two [=] a text ends with. *)
Fixpoint strip_padding (chars : list ascii) : list ascii :=
  match chars with
  | [] => []
  | c :: rest =>
      if forallb is_pad chars && (length chars <=? 2)%nat then []
      else c :: strip_padding rest
  end.

Fixpoint sextets (chars : list ascii) : option (list N) :=
  match chars with
  | [] => Some []
  | c :: rest =>
      match sextet c, sextets rest with
      | Some n, Some ns => Some (n :: ns)
      | _, _ => None
      end
  end.

(** Groups of four sextets give three octets; a rest of two gives one
    octet and of three gives two, the bits left over being dropped. *)
Fixpoint decode (groups : list N) : list N :=
  match groups with
  | a :: b :: c :: d :: rest =>
      (a * 4 + b / 16) :: (b mod 16 * 16 + c / 4) :: (c mod 4 * 64 + d)
        :: decode rest
  | [a; b; c] => [a * 4 + b / 16; b mod 16 * 16 + c / 4]
  | [a; b] => [a * 4 + b / 16]
  | _ => []
  end.

Definition InvalidCharacterError : exn :=
  DOMException "InvalidCharacterError"
    "The string to be decoded is not correctly encoded.".

Definition atob (data : string) : outcome string :=
  let chars :=
    List.filter (fun c => negb (is_whitespace c))
      (list_ascii_of_string data) in
  let chars :=
    if (length chars mod 4 =? 0)%nat then strip_padding chars
    else chars in
  if (length chars mod 4 =? 1)%nat then Throw InvalidCharacterError
  else
    match sextets chars with
    | None => Throw InvalidCharacterError
    | Some groups =>
        Return (string_of_list_ascii (map ascii_of_N (decode groups)))
    end.

(** [Uint8Array.from(atob(text), c => c.charCodeAt(0))] *)
Definition bytes_of_base64 (text : string) : outcome (list byte) :=
  let* binary := atob text in
  Return (list_byte_of_string binary).

(** What [atob] goes through on the text [encode] writes: nothing is
    whitespace, the length is a multiple of four, and with the padding
    removed the characters are the digits of groups that decode to the
    octets. *)
Definition decodable (octets : list N) : Prop :=
  let text := encode octets in
  List.filter (fun c => negb (is_whitespace c)) text = text /\
  (List.length text mod 4 = 0)%nat /\
  exists groups,
    strip_padding text = map digit groups /\
    Forall (fun n => n < 64) groups /\
    (List.length groups mod 4 <> 1)%nat /\
    decode groups = octets.

(** A text that [atob] reads as the octets: nothing of it is
    whitespace, its length is a multiple of four, and with the padding
    removed its characters are digits of groups that decode to the
    octets. *)
Definition spells (text : list ascii) (octets : list N) : Prop :=
  List.filter (fun c => negb (is_whitespace c)) text = text /\
  (List.length text mod 4 = 0)%nat /\
  exists groups,
    strip_padding text = map digit groups /\
    Forall (fun n => n < 64) groups /\
    (List.length groups mod 4 <> 1)%nat /\
    decode groups = octets.

End Base64.

(** ** What the host provides

    The clock readings, random octets and network answers a call consumes
    are arguments of the model of that call. The conversions below are
    functions of the host; nothing is assumed about them. *)

Class Host : Type := {
  (* [new Date(ms).toISOString()] for an instant in epoch milliseconds *)
  toISOString : N -> string;
  JSON_stringify : JS.value -> string;
  JSON_parse : string -> JS.outcome JS.value;
  (* [new TextEncoder().encode(text)] *)
  TextEncoder_encode : string -> list byte
}.

(** ** core/channels.js *)

Module DeliveryChannel.
Import JS.

Section Channels.
Context `{host : Host}.

(** The argument [dispatch] hands to a handler. *)
Record options : Type := {
  deliveryId : string;
  address : value;
  mintId : string;
  timestamp : string
}.

Definition sendEmail (now : N) (opts : options) : outcome value :=
  Return (Object
    [ ("channel", String "email");
      ("dispatched", Bool true);
      ("messageId", String ("MSG-" ++ deliveryId opts));
      ("to", address opts);
      ("subject", String ("Document Delivery: " ++ mintId opts));
      ("trackingPixel", Bool true);
      ("readReceiptRequested", Bool true);
      ("links", Object
         [ ("view", String ("https://chitty.cc/view/" ++ deliveryId opts));
           ("receipt",
             String ("https://chitty.cc/receipt/" ++ deliveryId opts));
           ("decline",
             String ("https://chitty.cc/decline/" ++ deliveryId opts)) ]);
      ("timestamp", String (timestamp opts)) ]).

Definition sendSMS (now : N) (opts : options) : outcome value :=
  Return (Object
    [ ("channel", String "sms");
      ("dispatched", Bool true);
      ("messageId", String ("SMS-" ++ deliveryId opts));
      ("to", address opts);
      ("body",
        String ("You have a certified document delivery. View: "
                  ++ "https://chitty.cc/view/" ++ deliveryId opts));
      ("deliveryReport", Bool true);
      ("timestamp", String (timestamp opts)) ]).

Definition sendPortal (now : N) (opts : options) : outcome value :=
  Return (Object
    [ ("channel", String "portal");
      ("dispatched", Bool true);
      ("portalUrl",
        String ("https://portal.chitty.cc/delivery/" ++ deliveryId opts));
      ("requiresAuth", Bool true);
      ("authMethod", String "ChittyID");
      ("expiresAt",
        String (toISOString (now + 30 * 24 * 60 * 60 * 1000)%N));
      ("timestamp", String (timestamp opts)) ]).

Definition sendAPI (now : N) (opts : options) : outcome value :=
  Return (Object
    [ ("channel", String "api");
      ("dispatched", Bool true);
      ("webhookUrl", address opts);
      ("payload", Object
         [ ("event", String "delivery.created");
           ("deliveryId", String (deliveryId opts));
           ("mintId", String (mintId opts));
           ("timestamp", String (timestamp opts)) ]);
      ("retries", Number (int 3));
      ("timestamp", String (timestamp opts)) ]).

Definition sendPhysical (now : N) (opts : options) : outcome value :=
  Return (Object
    [ ("channel", String "physical");
      ("dispatched", Bool true);
      ("carrier", Null);
      ("trackingNumber", Null);
      ("address", address opts);
      ("certified", Bool true);
      ("returnReceiptRequested", Bool true);
      ("timestamp", String (timestamp opts)) ]).

Definition recordInPerson (now : N) (opts : options) : outcome value :=
  Return (Object
    [ ("channel", String "inPerson");
      ("dispatched", Bool true);
      ("witnessRequired", Bool true);
      ("witness", Null);
      ("location", Null);
      ("geoVerified", Bool false);
      ("timestamp", String (timestamp opts)) ]).

Definition initiateLegalService (now : N) (opts : options)
    : outcome value :=
  Return (Object
    [ ("channel", String "legalService");
      ("dispatched", Bool true);
      ("serviceType", Null);
      ("processServer", Null);
      ("jurisdiction", Null);
      ("affidavitRequired", Bool true);
      ("timestamp", String (timestamp opts)) ]).

(** A handler is called with the options object; [now] is what the
    clock reads during the call. *)
Definition handler : Type := N -> options -> outcome value.

Definition handlers : list (string * handler) :=
  [ ("email", sendEmail); ("sms", sendSMS); ("portal", sendPortal);
    ("api", sendAPI); ("physical", sendPhysical);
    ("inPerson", recordInPerson);
    ("legalService", initiateLegalService) ].

(** [handlers[method] || handlers.email] *)
Definition getHandler (method : string) : found handler :=
  or_else (fun _ => true) (get handlers method) sendEmail.

(** The options object as a value. *)
Definition as_object (opts : options) : value :=
  Object
    [ ("deliveryId", String (deliveryId opts)); ("address", address opts);
      ("mintId", String (mintId opts));
      ("timestamp", String (timestamp opts)) ].

(** A member of Object.prototype called as a plain function, with
    [this] undefined, on one object: [Object] returns its argument,
    [toString] names the missing receiver, the value of [__proto__] is
    no function, and every other member first converts the receiver to
    an object, which throws. *)
Definition call_inherited (name : string) (argument : value)
    : outcome value :=
  if String.eqb name "constructor" then Return argument
  else if String.eqb name "toString" then
    Return (String "[object Undefined]")
  else if String.eqb name "__proto__" then
    Throw (TypeError "handler is not a function")
  else Throw (TypeError "Cannot convert undefined or null to object").

Definition call (h : found handler) (now : N) (opts : options)
    : outcome value :=
  match h with
  | Val f => f now opts
  | Proto name => call_inherited name (as_object opts)
  end.

Definition dispatch (now : N) (method : string) (opts : options)
    : outcome value :=
  let handler := getHandler method in
  call handler now opts.

End Channels.
End DeliveryChannel.

(** ** The Web Crypto interface the receipt engine calls

    ECDSA on P-256 with SHA-256 is the platform's. [generateKey] and [sign]
    take the random octets they draw as an argument. *)

Class WebCrypto : Type := {
  PrivateKey : Type;
  PublicKey : Type;
  (* generateKey({ name: 'ECDSA', namedCurve: 'P-256' }, true, [...]) *)
  generateKey : list byte -> JS.outcome (PrivateKey * PublicKey);
  (* importKey('jwk', keyData, ..., true, ['sign']) *)
  importKey_jwk_sign : JS.value -> JS.outcome PrivateKey;
  (* importKey('jwk', keyData, ..., true, ['verify']) *)
  importKey_jwk_verify : JS.value -> JS.outcome PublicKey;
  (* importKey('spki', keyData, ..., false, ['verify']) *)
  importKey_spki : list byte -> JS.outcome PublicKey;
  (* exportKey('spki', key) *)
  exportKey_spki : PublicKey -> JS.outcome (list byte);
  (* sign({ name: 'ECDSA', hash: 'SHA-256' }, key, data) *)
  subtle_sign : PrivateKey -> list byte -> list byte -> JS.outcome (list byte);
  (* verify({ name: 'ECDSA', hash: 'SHA-256' }, key, signature, data) *)
  subtle_verify : PublicKey -> list byte -> list byte -> JS.outcome bool
}.

(** ** core/receipt.js *)

Module Signature.
Record t : Type := {
  signatureId : string;
  algorithm : string;
  value : string;
  publicKey : string;
  signedPayload : string;
  valid : bool;
  timestamp : JS.value
}.
End Signature.

Module Anchor.
(** The [drand] block of a receipt. *)
Record t : Type := {
  round : JS.value;
  randomness : JS.value;
  signature : JS.value;
  beacon : string;
  chainHash : string
}.
End Anchor.

Module Legal.
Record t : Type := {
  admissible : bool;
  standard : string;
  pillar : string;
  score : JS.numeric;
  technical : JS.numeric;
  arguable : JS.numeric
}.
End Legal.

Module Receipt.
(** A receipt as [create] builds it and as [verify] reads it. Receipt
    data that comes from elsewhere may lack the signature block. *)
Record t : Type := {
  receiptId : string;
  deliveryId : JS.value;
  signer : JS.value;
  signerVerified : bool;
  signerMethod : string;
  method : string;
  algorithm : string;
  signature : option Signature.t;
  witnessed : bool;
  witness : string;
  witnessTimestamp : JS.value;
  drand : option Anchor.t;
  status : string;
  legal : Legal.t;
  createdAt : JS.value;
  verifyUrl : string
}.
End Receipt.

Module Verification.
(** The object [verify] resolves to; a member the object does not have
    is [None]. *)
Record t : Type := {
  receiptId : string;
  verified : bool;
  signatureValid : option bool;
  witnessConfirmed : option bool;
  chainAnchored : option bool;
  timestamp : option string;
  verificationError : option bool;
  error : option string
}.
End Verification.

Module Response.
(** What [fetch] resolves to, as far as the engine reads it. [json] is
    the outcome of parsing the body. *)
Record t : Type := {
  ok : bool;
  status : N;
  statusText : string;
  json : JS.outcome JS.value
}.

(** The Fetch standard's ok status: a status from 200 to 299. *)
Definition ok_status (status : N) : bool :=
  ((200 <=? status) && (status <=? 299))%N.

(** A response as the platform makes it: [ok] tells whether the status
    is an ok status. *)
Definition conforming (r : t) : Prop := ok r = ok_status (status r).
End Response.

Module PhysicalReceipt.
(** The return receipt of a physical delivery; it carries no signature. *)
Record t : Type := {
  receiptId : string;
  deliveryId : JS.value;
  type : string;
  carrier : JS.value;
  trackingNumber : JS.value;
  signedBy : JS.value;
  signatureImage : JS.value;
  deliveredAt : JS.value;
  status : string;
  legal : Legal.t;
  createdAt : JS.value;
  verifyUrl : string
}.
End PhysicalReceipt.

Module ReceiptEngine.
Import JS.

Definition DRAND_URL : string := "https://drand.cloudflare.com".
Definition DRAND_CHAIN_HASH : string :=
  "8990e7a9aaed2ffed73dbd7092123d6f289930540d7651336225dc172e51b2ce".

Section Engine.
Context `{host : Host} `{crypto : WebCrypto}.

Record KeyPair : Type := {
  privateKey : PrivateKey;
  publicKey : PublicKey
}.

(** The engine object: the signing key configured on its owner
    ([this.dlvr?.signingKeyJwk]), the cached key pair, and the map of
    the receipts it has created. *)
Record engine : Type := {
  signingKeyJwk : value;
  _keyPair : option KeyPair;
  _receipts : gmap string Receipt.t
}.

(** [new ReceiptEngine(dlvr)] *)
Definition new (signingKeyJwk : value) : engine :=
  {| signingKeyJwk := signingKeyJwk; _keyPair := None; _receipts := ∅ |}.

(** What one call of [create] takes from outside: the clock and the
    random octets of the identifier, the answer of the beacon, and the
    random octets key generation and signing draw. *)
Record env : Type := {
  clock : N;
  random : list byte;
  fetched : outcome Response.t;
  entropy : list byte;
  nonce : list byte
}.

(** A method that reads and updates the engine and may throw. *)
Definition method (A : Type) : Type := engine -> outcome A * engine.

Definition ret {A} (a : A) : method A := fun this => (Return a, this).

Definition lift {A} (c : outcome A) : method A := fun this => (c, this).

Definition and_then {A B} (c : method A) (k : A -> method B) : method B :=
  fun this =>
    match c this with
    | (Return a, this') => k a this'
    | (Throw e, this') => (Throw e, this')
    end.

Notation "'do*' x ':=' c 'in' k" := (and_then c (fun x => k))
  (at level 10, x pattern, c at level 100, k at level 200, only parsing).

(** The round the beacon answered with. *)
Record DrandRound : Type := {
  round : value;
  randomness : value;
  signature : value
}.

(** [fetchDrandRound]; what it writes to the console is left out. *)
Definition fetchDrandRound (fetched : outcome Response.t)
    : outcome (option DrandRound) :=
  try_catch
    (let* response := fetched in
     if negb (Response.ok response) then Return None
     else
       let* data := Response.json response in
       let* round := member data "round" in
       if negb (truthy round) then Return None
       else
         let* randomness := member data "randomness" in
         if negb (truthy randomness) then Return None
         else
           let* signature := member data "signature" in
           if negb (truthy signature) then Return None
           else
             Return (Some {| round := round; randomness := randomness;
                             signature := signature |}))
    (fun error => Return None).

Definition set_keyPair (kp : KeyPair) (this : engine) : engine :=
  {| signingKeyJwk := signingKeyJwk this; _keyPair := Some kp;
     _receipts := _receipts this |}.

Definition import_signing_key (jwk : value) : outcome KeyPair :=
  try_catch
    (let* keyData :=
       match jwk with
       | String text => JSON_parse text
       | _ => Return jwk
       end in
     let* privateKey := importKey_jwk_sign keyData in
     let publicJwk := Object (delete "d" (spread keyData)) in
     let* publicKey := importKey_jwk_verify publicJwk in
     Return {| privateKey := privateKey; publicKey := publicKey |})
    (fun error =>
       Throw (Error ("Signing key import failed: " ++ message error
                       ++ ". Check SIGNING_KEY_JWK configuration."))).

Definition generate_ephemeral_key (entropy : list byte)
    : outcome KeyPair :=
  try_catch
    (let* (sk, pk) := generateKey entropy in
     Return {| privateKey := sk; publicKey := pk |})
    (fun error =>
       Throw (Error ("Cryptographic key generation failed: "
                       ++ message error
                       ++ ". Receipt signing is unavailable."))).

(** [getServiceKeyPair]: the cached pair, else the configured key,
    else an ephemeral one; the pair obtained is cached. *)
Definition getServiceKeyPair (e : env) : method KeyPair :=
  fun this =>
    match _keyPair this with
    | Some kp => (Return kp, this)
    | None =>
        let jwk := signingKeyJwk this in
        let loaded :=
          if truthy jwk then import_signing_key jwk
          else generate_ephemeral_key (entropy e) in
        match loaded with
        | Return kp => (Return kp, set_keyPair kp this)
        | Throw error => (Throw error, this)
        end
    end.

Definition scores_receipt : list (string * number) :=
  [ ("digital", int 85); ("witness", int 90); ("physical", int 75);
    ("notarized", int 95); ("legalService", int 95) ].

Definition calculateReceiptScore (method : string) : numeric :=
  or_else truthy_number (get scores_receipt method) (int 70).

Definition scores_technical : list (string * number) :=
  [ ("digital", int 90); ("witness", int 80); ("physical", int 65);
    ("notarized", int 90); ("legalService", int 85) ].

Definition calculateTechnicalScore (method : string) : numeric :=
  or_else truthy_number (get scores_technical method) (int 60).

Definition scores_arguable : list (string * number) :=
  [ ("digital", int 80); ("witness", int 95); ("physical", int 80);
    ("notarized", int 95); ("legalService", int 95) ].

Definition calculateArguableScore (method : string) : numeric :=
  or_else truthy_number (get scores_arguable method) (int 70).

(** [bufferToBase64]: the loop appends one character per octet. *)
Definition bufferToBase64 (buffer : list byte) : string :=
  let binary :=
    fold_left
      (fun binary b => binary ++ String.String (ascii_of_byte b) "")
      buffer "" in
  Base64.btoa binary.

Definition generateReceiptId (e : env) : string :=
  let random := hex (random e) in
  toUpperCase ("DR-" ++ toString_radix 36 (clock e) ++ "-" ++ random).

Record create_options : Type := {
  deliveryId : value;
  signer : value;
  method_ : option string;
  timestamp : value
}.

Definition store (receipt : Receipt.t) : method unit :=
  fun this =>
    (Return tt,
     {| signingKeyJwk := signingKeyJwk this; _keyPair := _keyPair this;
        _receipts := <[Receipt.receiptId receipt := receipt]>
                       (_receipts this) |}).

Definition create (e : env) (options : create_options)
    : method Receipt.t :=
  let deliveryId := deliveryId options in
  let signer := signer options in
  let method := default "digital" (method_ options) in
  let timestamp := timestamp options in
  let receiptId := generateReceiptId e in
  do* drand := lift (fetchDrandRound (fetched e)) in
  let payload :=
    Object
      [ ("receiptId", String receiptId);
        ("deliveryId", deliveryId);
        ("signer", signer);
        ("method", String method);
        ("timestamp", timestamp);
        ("drandRound",
          match drand with
          | Some d => or (round d) Null
          | None => Null
          end);
        ("drandRandomness",
          match drand with
          | Some d => or (randomness d) Null
          | None => Null
          end) ] in
  let serializedPayload := JSON_stringify payload in
  do* keyPair := getServiceKeyPair e in
  let dataBuffer := TextEncoder_encode serializedPayload in
  do* signatureBuffer :=
    lift (subtle_sign (privateKey keyPair) (nonce e) dataBuffer) in
  do* publicKeyBuffer := lift (exportKey_spki (publicKey keyPair)) in
  let signatureB64 := bufferToBase64 signatureBuffer in
  let publicKeyB64 := bufferToBase64 publicKeyBuffer in
  let receipt :=
    {| Receipt.receiptId := receiptId;
       Receipt.deliveryId := deliveryId;
       Receipt.signer := signer;
       Receipt.signerVerified := true;
       Receipt.signerMethod := "ChittyID";
       Receipt.method := method;
       Receipt.algorithm := "ECDSA-P256-SHA256";
       Receipt.signature :=
         Some {| Signature.signatureId := "SIG-" ++ receiptId;
                 Signature.algorithm := "ECDSA-P256-SHA256";
                 Signature.value := signatureB64;
                 Signature.publicKey := publicKeyB64;
                 Signature.signedPayload := serializedPayload;
                 Signature.valid := true;
                 Signature.timestamp := timestamp |};
       Receipt.witnessed := true;
       Receipt.witness := "ChittyOS";
       Receipt.witnessTimestamp := timestamp;
       Receipt.drand :=
         match drand with
         | Some d =>
             Some {| Anchor.round := round d;
                     Anchor.randomness := randomness d;
                     Anchor.signature := signature d;
                     Anchor.beacon := DRAND_URL;
                     Anchor.chainHash := DRAND_CHAIN_HASH |}
         | None => None
         end;
       Receipt.status := "VALID";
       Receipt.legal :=
         {| Legal.admissible := true;
            Legal.standard := "ChittyProof";
            Legal.pillar := "delivery";
            Legal.score := calculateReceiptScore method;
            Legal.technical := calculateTechnicalScore method;
            Legal.arguable := calculateArguableScore method |};
       Receipt.createdAt := timestamp;
       Receipt.verifyUrl := "https://chitty.cc/receipt/" ++ receiptId |} in
  do* _ := store receipt in
  ret receipt.

(** [getById]: [this._receipts.get(receiptId) || null] *)
Definition getById (receiptId : string) (this : engine)
    : option Receipt.t :=
  _receipts this !! receiptId.

(** [verify(receiptId, receiptData)]; [now] is the clock reading of
    the time stamp. It reads the engine and leaves it as it is. *)
Definition verify (now : N) (receiptId : string)
    (receiptData : option Receipt.t) (this : engine)
    : outcome Verification.t :=
  let receiptData :=
    match receiptData with
    | Some data => Some data
    | None => getById receiptId this
    end in
  match receiptData ≫= Receipt.signature with
  | None =>
      Return
        {| Verification.receiptId := receiptId;
           Verification.verified := false;
           Verification.signatureValid := None;
           Verification.witnessConfirmed := None;
           Verification.chainAnchored := None;
           Verification.timestamp := None;
           Verification.verificationError := None;
           Verification.error :=
             Some "Receipt not found or no signature data" |}
  | Some sg =>
      try_catch
        (let* keyData :=
           Base64.bytes_of_base64 (Signature.publicKey sg) in
         let* importedKey := importKey_spki keyData in
         let dataBuffer :=
           TextEncoder_encode (Signature.signedPayload sg) in
         let* sigBytes := Base64.bytes_of_base64 (Signature.value sg) in
         let* valid := subtle_verify importedKey sigBytes dataBuffer in
         Return
           {| Verification.receiptId := receiptId;
              Verification.verified := valid;
              Verification.signatureValid := Some valid;
              Verification.witnessConfirmed := Some true;
              Verification.chainAnchored := Some true;
              Verification.timestamp := Some (toISOString now);
              Verification.verificationError := None;
              Verification.error := None |})
        (fun error =>
           Return
             {| Verification.receiptId := receiptId;
                Verification.verified := false;
                Verification.signatureValid := None;
                Verification.witnessConfirmed := None;
                Verification.chainAnchored := None;
                Verification.timestamp := None;
                Verification.verificationError := Some true;
                Verification.error :=
                  Some ("Verification system error: " ++ message error) |})
  end.

Record physical_options : Type := {
  p_deliveryId : value;
  p_carrier : value;
  p_trackingNumber : value;
  p_signedBy : value;
  p_timestamp : value
}.

(** [createPhysicalReceipt]: it draws an identifier and does not touch
    the map of receipts. *)
Definition createPhysicalReceipt (e : env) (options : physical_options)
    : method PhysicalReceipt.t :=
  let receiptId := generateReceiptId e in
  ret
    {| PhysicalReceipt.receiptId := receiptId;
       PhysicalReceipt.deliveryId := p_deliveryId options;
       PhysicalReceipt.type := "physical";
       PhysicalReceipt.carrier := p_carrier options;
       PhysicalReceipt.trackingNumber := p_trackingNumber options;
       PhysicalReceipt.signedBy := p_signedBy options;
       PhysicalReceipt.signatureImage := Null;
       PhysicalReceipt.deliveredAt := p_timestamp options;
       PhysicalReceipt.status := "VALID";
       PhysicalReceipt.legal :=
         {| Legal.admissible := true;
            Legal.standard := "ChittyProof";
            Legal.pillar := "delivery";
            Legal.score := Val (int 75);
            Legal.technical := Val (int 70);
            Legal.arguable := Val (int 80) |};
       PhysicalReceipt.createdAt := p_timestamp options;
       PhysicalReceipt.verifyUrl := "https://chitty.cc/receipt/" ++ receiptId |}.

End Engine.
End ReceiptEngine.

(** ** core/service.js *)

Module ServiceCase.
Record t : Type := {
  serviceId : string;
  mintId : JS.value;
  respondent : JS.value;
  serviceType : string;
  address : JS.value;
  jurisdiction : JS.value;
  processServer : JS.value;
  serverAssigned : bool;
  status : string;
  statusHistory : list (string * JS.value * string);
  attempts : list JS.value;
  maxAttempts : JS.numeric;
  requirements : JS.found JS.value;
  proof_pillar : string;
  proof_method : string;
  proof_serviceType : string;
  proof_score : JS.number;
  proof_affidavitFiled : bool;
  createdAt : JS.value;
  servedAt : JS.value;
  affidavitFiledAt : JS.value;
  trackingUrl : string
}.
End ServiceCase.

Module Affidavit.
Record t : Type := {
  affidavitId : string;
  serviceId : JS.value;
  processServer : JS.value;
  serverLicensed : bool;
  serverJurisdiction : JS.value;
  serviceType : string;
  servedTo : JS.value;
  relationship : JS.value;
  location : JS.value;
  sworn : bool;
  notarized : JS.value;
  witnessPresent : JS.value;
  proof_pillar : string;
  proof_method : string;
  proof_score : JS.numeric;
  proof_technical : JS.numeric;
  proof_arguable : JS.numeric;
  status : string;
  servedAt : JS.value;
  filedAt : JS.value;
  createdAt : JS.value;
  verifyUrl : string
}.
End Affidavit.

Module ServiceEngine.
Import JS.

Definition VALID_SERVICE_TYPES : list string :=
  [ "personal"; "substituted"; "constructive"; "publication" ].

(** [VALID_SERVICE_TYPES.includes(serviceType)] *)
Definition includes (types : list string) (serviceType : string) : bool :=
  existsb (String.eqb serviceType) types.

(** What one call takes from outside: the clock and the random octets
    of the identifier. *)
Record env : Type := {
  clock : N;
  random : list byte
}.

Definition generateServiceId (e : env) : string :=
  let random := hex (random e) in
  toUpperCase ("DS-" ++ toString_radix 36 (clock e) ++ "-" ++ random).

Definition generateAffidavitId (e : env) : string :=
  let random := hex (random e) in
  toUpperCase ("DA-" ++ toString_radix 36 (clock e) ++ "-" ++ random).

(** *** Requirements *)

Definition reqs : list (string * value) :=
  [ ("personal", Object
       [ ("inPerson", Bool true); ("identifyRespondent", Bool true);
         ("handDeliver", Bool true); ("affidavitRequired", Bool true);
         ("witnessOptional", Bool true) ]);
    ("substituted", Object
       [ ("atAddress", Bool true); ("competentPerson", Bool true);
         ("mailCopy", Bool true); ("affidavitRequired", Bool true);
         ("courtOrderMayBeRequired", Bool true) ]);
    ("constructive", Object
       [ ("postedOnDoor", Bool true); ("mailCopy", Bool true);
         ("affidavitRequired", Bool true); ("courtOrderRequired", Bool true) ]);
    ("publication", Object
       [ ("newspaperNotice", Bool true); ("courtOrderRequired", Bool true);
         ("durationWeeks", Number (int 4)); ("affidavitRequired", Bool true);
         ("proofOfPublication", Bool true) ]) ].

(** [reqs.personal] *)
Definition reqs_personal : value :=
  match own reqs "personal" with
  | Some r => r
  | None => Undefined
  end.

Definition getRequirements (serviceType : string) : found value :=
  or_else truthy (get reqs serviceType) reqs_personal.

Definition attempts : list (string * number) :=
  [ ("personal", int 3); ("substituted", int 2); ("constructive", int 1);
    ("publication", int 1) ].

Definition getMaxAttempts (serviceType : string) : numeric :=
  or_else truthy_number (get attempts serviceType) (int 3).

(** *** Scoring *)

(** The members of [details] the scoring reads. *)
Record details : Type := {
  jurisdiction : value;
  servedTo : value;
  relationship : value;
  location : value;
  notarized : value;
  witnessPresent : value;
  geoVerified : value;
  servedAt : value
}.

(** [details = {}] *)
Definition no_details : details :=
  {| jurisdiction := Undefined; servedTo := Undefined;
     relationship := Undefined; location := Undefined;
     notarized := Undefined; witnessPresent := Undefined;
     geoVerified := Undefined; servedAt := Undefined |}.

(** [if (flag) score = Math.min(100, score + bonus)] *)
Definition bonus (flag : value) (k : Z) (score : numeric) : numeric :=
  if truthy flag then Val (Math_min (int 100) (plus score (int k)))
  else score.

Definition base_affidavit : list (string * number) :=
  [ ("personal", int 95); ("substituted", int 80); ("constructive", int 70);
    ("publication", int 65) ].

Definition scoreAffidavit (serviceType : string) (d : details) : numeric :=
  let score := or_else truthy_number (get base_affidavit serviceType) (int 70) in
  let score := bonus (notarized d) 5 score in
  let score := bonus (witnessPresent d) 3 score in
  score.

Definition base_technical : list (string * number) :=
  [ ("personal", int 90); ("substituted", int 75); ("constructive", int 65);
    ("publication", int 60) ].

Definition scoreTechnical (serviceType : string) (d : details) : numeric :=
  let score := or_else truthy_number (get base_technical serviceType) (int 65) in
  let score := bonus (geoVerified d) 5 score in
  score.

Definition base_arguable : list (string * number) :=
  [ ("personal", int 95); ("substituted", int 85); ("constructive", int 75);
    ("publication", int 70) ].

Definition scoreArguable (serviceType : string) (d : details) : numeric :=
  let score := or_else truthy_number (get base_arguable serviceType) (int 70) in
  let score := bonus (notarized d) 5 score in
  let score := bonus (witnessPresent d) 5 score in
  score.

(** *** Operations *)

Record initiate_options : Type := {
  mintId : value;
  respondent : value;
  serviceType : option string;
  address : value;
  jurisdiction_ : value;
  timestamp : value
}.

Definition initiate (e : env) (options : initiate_options)
    : outcome ServiceCase.t :=
  let serviceType := default "personal" (serviceType options) in
  let timestamp := timestamp options in
  if negb (includes VALID_SERVICE_TYPES serviceType) then
    Throw (Error ("Invalid service type: " ++ serviceType
                    ++ ". Valid types: "
                    ++ String.concat ", " VALID_SERVICE_TYPES))
  else
    let serviceId := generateServiceId e in
    Return
      {| ServiceCase.serviceId := serviceId;
         ServiceCase.mintId := mintId options;
         ServiceCase.respondent := respondent options;
         ServiceCase.serviceType := serviceType;
         ServiceCase.address := address options;
         ServiceCase.jurisdiction := jurisdiction_ options;
         ServiceCase.processServer := Null;
         ServiceCase.serverAssigned := false;
         ServiceCase.status := "INITIATED";
         ServiceCase.statusHistory := [ ("INITIATED", timestamp, "system") ];
         ServiceCase.attempts := [];
         ServiceCase.maxAttempts := getMaxAttempts serviceType;
         ServiceCase.requirements := getRequirements serviceType;
         ServiceCase.proof_pillar := "delivery";
         ServiceCase.proof_method := "legalService";
         ServiceCase.proof_serviceType := serviceType;
         ServiceCase.proof_score := int 0;
         ServiceCase.proof_affidavitFiled := false;
         ServiceCase.createdAt := timestamp;
         ServiceCase.servedAt := Null;
         ServiceCase.affidavitFiledAt := Null;
         ServiceCase.trackingUrl := "https://chitty.cc/service/" ++ serviceId |}.

Record affidavit_options : Type := {
  serviceId : value;
  processServer : value;
  serviceType_ : option string;
  details_ : argument details;
  timestamp_ : value
}.

(** [recordAffidavit]: the default [details = {}] does not replace
    [null], and the first member read from [details], [jurisdiction],
    then throws. *)
Definition recordAffidavit (e : env) (options : affidavit_options)
    : outcome Affidavit.t :=
  let serviceType := default "personal" (serviceType_ options) in
  let timestamp := timestamp_ options in
  let affidavitId := generateAffidavitId e in
  match destructured no_details (details_ options) with
  | None =>
      Throw (TypeError
               "Cannot read properties of null (reading 'jurisdiction')")
  | Some details =>
      Return
        {| Affidavit.affidavitId := affidavitId;
           Affidavit.serviceId := serviceId options;
           Affidavit.processServer := processServer options;
           Affidavit.serverLicensed := true;
           Affidavit.serverJurisdiction := or (jurisdiction details) Null;
           Affidavit.serviceType := serviceType;
           Affidavit.servedTo := or (servedTo details) Null;
           Affidavit.relationship := or (relationship details) Null;
           Affidavit.location := or (location details) Null;
           Affidavit.sworn := true;
           Affidavit.notarized := or (notarized details) (Bool false);
           Affidavit.witnessPresent := or (witnessPresent details) (Bool false);
           Affidavit.proof_pillar := "delivery";
           Affidavit.proof_method := "legalService";
           Affidavit.proof_score := scoreAffidavit serviceType details;
           Affidavit.proof_technical := scoreTechnical serviceType details;
           Affidavit.proof_arguable := scoreArguable serviceType details;
           Affidavit.status := "FILED";
           Affidavit.servedAt := or (servedAt details) timestamp;
           Affidavit.filedAt := timestamp;
           Affidavit.createdAt := timestamp;
           Affidavit.verifyUrl := "https://chitty.cc/affidavit/" ++ affidavitId |}
  end.

End ServiceEngine.

(** ** core/dlvr.js *)

Module Delivery.
Record t : Type := {
  deliveryId : string;
  mintId : string;
  from : JS.value;
  to : JS.value;
  method : string;
  address : JS.value;
  dispatch : JS.value;
  status : string;
  statusHistory : list (string * string * string);
  proof_pillar : string;
  proof_mintId : string;
  proof_deliveryId : string;
  proof_method : string;
  proof_score : JS.number;
  createdAt : string;
  sentAt : string;
  deliveredAt : JS.value;
  receiptedAt : JS.value;
  trackingUrl : string;
  receiptUrl : string
}.
End Delivery.

Module Failure.
(** The entry [bulkSend] records for a recipient whose [send] threw. *)
Record t : Type := {
  deliveryId : JS.value;
  to : JS.value;
  method : JS.value;
  status : string;
  error : string
}.
End Failure.

Module Batch.
(** An element of [deliveries]: what [send] returned, or the record of
    its failure. *)
Inductive entry : Type :=
| Sent (delivery : Delivery.t)
| Failed (failure : Failure.t).

(** [r.status] *)
Definition status (r : entry) : string :=
  match r with
  | Sent delivery => Delivery.status delivery
  | Failed failure => Failure.status failure
  end.

(** [r.to] *)
Definition to (r : entry) : JS.value :=
  match r with
  | Sent delivery => Delivery.to delivery
  | Failed failure => Failure.to failure
  end.

(** [r.method] *)
Definition method (r : entry) : JS.value :=
  match r with
  | Sent delivery => JS.String (Delivery.method delivery)
  | Failed failure => Failure.method failure
  end.

Record t : Type := {
  bulkId : string;
  mintId : string;
  totalRecipients : nat;
  sent : nat;
  failed : nat;
  deliveries : list entry;
  createdAt : string
}.
End Batch.

Module DeliveryStatus.
(** What [status] resolves to. *)
Record t : Type := {
  deliveryId : string;
  status : string;
  timeline : list JS.value;
  receipt : JS.value;
  proof_pillar : string;
  proof_score : JS.number;
  checkedAt : string
}.
End DeliveryStatus.

Module ChittyDLVR.
Import JS.

(** *** Scoring *)

Definition methodScores : list (string * number) :=
  [ ("legalService", int 95); ("inPerson", int 90); ("portal", int 85);
    ("email", int 70); ("sms", int 60); ("api", int 65);
    ("physical", int 75) ].

Definition statusMultipliers : list (string * number) :=
  [ ("PENDING", int 0); ("SENT", dec 3 10); ("DELIVERED", dec 6 10);
    ("OPENED", dec 75 100); ("ACKNOWLEDGED", dec 85 100);
    ("RECEIPTED", dec 10 10); ("FAILED", int 0); ("BOUNCED", int 0);
    ("REFUSED", dec 5 10) ].

Definition calculateDeliveryScore (method status : string) : number :=
  let baseScore := or_else truthy_number (get methodScores method) (int 50) in
  let multiplier :=
    or_else truthy_number (get statusMultipliers status) (int 0) in
  Math_round (mul (ToNumber baseScore) (ToNumber multiplier)).

Section Orchestrator.
Context `{host : Host}.

(** The members of the orchestrator its methods read. *)
Record dlvr : Type := {
  chittyId : value
}.

(** What one call of [send] takes from outside: the random octets of
    the identifier and the clock readings, in the order the call
    makes them. *)
Record send_env : Type := {
  random : list byte;
  clock_id : N;
  clock_created : N;
  clock_dispatch : N;
  clock_history : N;
  clock_sent : N
}.

Definition generateDeliveryId (e : send_env) : string :=
  let random := hex (random e) in
  toUpperCase ("DD-" ++ toString_radix 36 (clock_id e) ++ "-" ++ random).

Record send_options : Type := {
  mintId : value;
  to : value;
  method : option string;
  address : value
}.

Definition mintId_required : exn :=
  Error "mintId is required and must be a string".

Definition send (this : dlvr) (e : send_env) (options : send_options)
    : outcome Delivery.t :=
  let method := default "email" (method options) in
  match mintId options with
  | String mintId =>
      if negb (truthy (String mintId)) then Throw mintId_required
      else
        let deliveryId := generateDeliveryId e in
        let timestamp := toISOString (clock_created e) in
        let* dispatch :=
          DeliveryChannel.dispatch (clock_dispatch e) method
            {| DeliveryChannel.deliveryId := deliveryId;
               DeliveryChannel.address := address options;
               DeliveryChannel.mintId := mintId;
               DeliveryChannel.timestamp := timestamp |} in
        Return
          {| Delivery.deliveryId := deliveryId;
             Delivery.mintId := mintId;
             Delivery.from := or (chittyId this) (String "anonymous");
             Delivery.to := to options;
             Delivery.method := method;
             Delivery.address := address options;
             Delivery.dispatch := dispatch;
             Delivery.status := "SENT";
             Delivery.statusHistory :=
               [ ("PENDING", timestamp, "system");
                 ("SENT", toISOString (clock_history e), "system") ];
             Delivery.proof_pillar := "delivery";
             Delivery.proof_mintId := mintId;
             Delivery.proof_deliveryId := deliveryId;
             Delivery.proof_method := method;
             Delivery.proof_score := calculateDeliveryScore method "SENT";
             Delivery.createdAt := timestamp;
             Delivery.sentAt := toISOString (clock_sent e);
             Delivery.deliveredAt := Null;
             Delivery.receiptedAt := Null;
             Delivery.trackingUrl := "https://chitty.cc/track/" ++ deliveryId;
             Delivery.receiptUrl :=
               "https://chitty.cc/receipt/" ++ deliveryId |}
  | _ => Throw mintId_required
  end.

(** *** Bulk send *)

(** A recipient; the spread [{ mintId, ...recipient }] lets an own
    [mintId] of the recipient replace the one of the batch. *)
Record recipient : Type := {
  r_mintId : option value;
  r_to : value;
  r_method : option string;
  r_address : value
}.

Record bulk_env : Type := {
  sends : nat -> send_env;
  bulk_random : list byte;
  bulk_clock_id : N;
  bulk_clock_created : N
}.

Definition generateBulkId (e : bulk_env) : string :=
  let random := hex (bulk_random e) in
  toUpperCase
    ("DB-" ++ toString_radix 36 (bulk_clock_id e) ++ "-" ++ random).

(** [undefined] for a member that is left out. *)
Definition optional (s : option string) : value :=
  match s with
  | Some text => String text
  | None => Undefined
  end.

(** The body of the [for] loop for the [i]-th recipient. *)
Definition attempt (this : dlvr) (e : bulk_env) (mintId : string)
    (i : nat) (recipient : recipient) (results : list Batch.entry)
    : outcome (list Batch.entry) :=
  try_catch
    (let* result :=
       send this (sends e i)
         {| mintId := default (String mintId) (r_mintId recipient);
            to := r_to recipient;
            method := r_method recipient;
            address := r_address recipient |} in
     Return (results ++ [Batch.Sent result])%list)
    (fun error =>
       Return
         (results ++
            [Batch.Failed
               {| Failure.deliveryId := Null;
                  Failure.to := r_to recipient;
                  Failure.method := optional (r_method recipient);
                  Failure.status := "FAILED";
                  Failure.error := message error |}])%list).

Fixpoint for_of (this : dlvr) (e : bulk_env) (mintId : string) (i : nat)
    (recipients : list recipient) (results : list Batch.entry)
    : outcome (list Batch.entry) :=
  match recipients with
  | [] => Return results
  | recipient :: rest =>
      let* results := attempt this e mintId i recipient results in
      for_of this e mintId (S i) rest results
  end.

(** [results.filter(r => r.status === wanted).length] *)
Definition count (wanted : string) (results : list Batch.entry) : nat :=
  length
    (List.filter (fun r => String.eqb (Batch.status r) wanted) results).

(** [recipients] is [None] when what was passed is not an array. *)
Definition bulkSend (this : dlvr) (e : bulk_env) (mintId : value)
    (recipients : option (list recipient)) : outcome Batch.t :=
  match mintId with
  | String mintId =>
      if negb (truthy (String mintId)) then Throw mintId_required
      else
        match recipients with
        | None | Some [] =>
            Throw (Error "recipients must be a non-empty array")
        | Some recipients =>
            let* results := for_of this e mintId 0 recipients [] in
            Return
              {| Batch.bulkId := generateBulkId e;
                 Batch.mintId := mintId;
                 Batch.totalRecipients := length recipients;
                 Batch.sent := count "SENT" results;
                 Batch.failed := count "FAILED" results;
                 Batch.deliveries := results;
                 Batch.createdAt := toISOString (bulk_clock_created e) |}
        end
  | _ => Throw mintId_required
  end.

(** *** Legal service *)

(** The options of [serve]; the spread [{ mintId, ...options,
    timestamp }] lets an own [mintId] of the options replace the
    argument. *)
Record serve_options : Type := {
  s_mintId : option value;
  s_respondent : value;
  s_serviceType : option string;
  s_address : value;
  s_jurisdiction : value
}.

Definition serve (e : ServiceEngine.env) (now : N) (mintId : value)
    (options : serve_options) : outcome ServiceCase.t :=
  ServiceEngine.initiate e
    {| ServiceEngine.mintId := default mintId (s_mintId options);
       ServiceEngine.respondent := s_respondent options;
       ServiceEngine.serviceType := s_serviceType options;
       ServiceEngine.address := s_address options;
       ServiceEngine.jurisdiction_ := s_jurisdiction options;
       ServiceEngine.timestamp := String (toISOString now) |}.

Record service_affidavit : Type := {
  a_serviceId : option value;
  a_processServer : value;
  a_serviceType : option string;
  a_details : argument ServiceEngine.details
}.

Definition recordService (e : ServiceEngine.env) (now : N)
    (serviceId : value) (affidavit : service_affidavit)
    : outcome Affidavit.t :=
  ServiceEngine.recordAffidavit e
    {| ServiceEngine.serviceId := default serviceId (a_serviceId affidavit);
       ServiceEngine.processServer := a_processServer affidavit;
       ServiceEngine.serviceType_ := a_serviceType affidavit;
       ServiceEngine.details_ := a_details affidavit;
       ServiceEngine.timestamp_ := String (toISOString now) |}.

(** *** Receipts *)

Context `{crypto : WebCrypto}.

Record receipt_options : Type := {
  signer : value;
  receipt_method : option string
}.

(** [receipt(deliveryId, options)]: [options.method || 'digital'] *)
Definition receipt (e : ReceiptEngine.env) (now : N) (deliveryId : value)
    (options : receipt_options) : ReceiptEngine.method Receipt.t :=
  ReceiptEngine.create e
    {| ReceiptEngine.deliveryId := deliveryId;
       ReceiptEngine.signer := signer options;
       ReceiptEngine.method_ :=
         match receipt_method options with
         | Some m => if String.eqb m "" then Some "digital" else Some m
         | None => Some "digital"
         end;
       ReceiptEngine.timestamp := String (toISOString now) |}.

(** *** Status *)

(** [status(deliveryId)]; [now] is the clock reading. *)
Definition status (now : N) (deliveryId : string) : outcome DeliveryStatus.t :=
  Return
    {| DeliveryStatus.deliveryId := deliveryId;
       DeliveryStatus.status := "PENDING";
       DeliveryStatus.timeline := [];
       DeliveryStatus.receipt := Null;
       DeliveryStatus.proof_pillar := "delivery";
       DeliveryStatus.proof_score := int 0;
       DeliveryStatus.checkedAt := toISOString now |}.

(** *** Initialization *)

(** The members [initialize] reads and writes; the constructor sets
    [apiKey] to [config.apiKey || null] and [initialized] to false. *)
Record instance : Type := {
  apiKey : value;
  initialized : bool
}.

Definition constructed (config_apiKey : value) : instance :=
  {| apiKey := or config_apiKey Null; initialized := false |}.

Definition validateApiKey (this : instance) : outcome bool :=
  if negb (truthy (apiKey this)) then Return false
  else
    match apiKey this with
    | String key =>
        if (String.length key <? 16)%nat then
          Throw (Error "Invalid API key format")
        else Return true
    | _ => Throw (Error "Invalid API key format")
    end.

(** [initialize] resolves to the orchestrator itself, here the object
    as the call leaves it; a call that throws leaves it as it was. *)
Definition initialize (this : instance) : outcome instance :=
  if initialized this then Return this
  else
    let* _ :=
      if truthy (apiKey this) then validateApiKey this else Return true in
    Return {| apiKey := apiKey this; initialized := true |}.

End Orchestrator.
End ChittyDLVR.

(** ** The contract of the platform's ECDSA

    A key pair works when what its private key signs verifies under its
    public key after that key went through [exportKey] and [importKey], as
    it does between [create] and [verify]. Pairs from [generateKey] work,
    and so does a private JSON Web Key with the public key that is the same
    JWK without its member [d]. *)

Section Contract.
Context `{crypto : WebCrypto}.
Import JS.

Definition working_pair (sk : PrivateKey) (pk : PublicKey) : Prop :=
  forall nonce data, exists sig spki pk',
    subtle_sign sk nonce data = Return sig /\
    exportKey_spki pk = Return spki /\
    importKey_spki spki = Return pk' /\
    subtle_verify pk' sig data = Return true.

Class WebCryptoLaws : Prop := {
  generateKey_works : forall entropy sk pk,
    generateKey entropy = Return (sk, pk) -> working_pair sk pk;
  importKey_works : forall keyData sk pk,
    importKey_jwk_sign keyData = Return sk ->
    importKey_jwk_verify (Object (delete "d" (spread keyData))) = Return pk ->
    working_pair sk pk
}.

(** What a signature says of the bytes it was made for, with the hash
    taken as free of collisions: under one key no signature passes for two
    byte strings, and what passes under the public key of a working pair is
    what its private key signs, for some randomness. *)
Class SignatureLaws : Prop := {
  verify_binds : forall key sig data data',
    subtle_verify key sig data = Return true ->
    subtle_verify key sig data' = Return true -> data = data';
  verify_sound : forall sk pk spki pk' sig data,
    working_pair sk pk ->
    exportKey_spki pk = Return spki ->
    importKey_spki spki = Return pk' ->
    subtle_verify pk' sig data = Return true ->
    exists nonce, subtle_sign sk nonce data = Return sig
}.
End Contract.

(** ** The engine states that can arise *)

Module Reach.
Import JS ReceiptEngine.

Section Reach.
Context `{host : Host} `{crypto : WebCrypto}.

(** An engine evolves by calls of [create] and [getServiceKeyPair]
    made one after the other, whether they return or throw; [verify]
    leaves it as it is. Calls that overlap at their awaits are the runs of
    [Overlap]. *)
Inductive evolves (start : engine) : engine -> Prop :=
| evolves_refl : evolves start start
| evolves_create this e options result this' :
    evolves start this ->
    create e options this = (result, this') ->
    evolves start this'
| evolves_key this e result this' :
    evolves start this ->
    getServiceKeyPair e this = (result, this') ->
    evolves start this'.

(** The engines that arise from the constructor. *)
Definition reachable (this : engine) : Prop :=
  exists jwk, evolves (new jwk) this.

(** A receipt whose embedded key, signature and payload pass the
    platform's check. *)
Definition authentic (r : Receipt.t) : Prop :=
  exists sg keyData key sigBytes,
    Receipt.signature r = Some sg /\
    Base64.bytes_of_base64 (Signature.publicKey sg) = Return keyData /\
    importKey_spki keyData = Return key /\
    Base64.bytes_of_base64 (Signature.value sg) = Return sigBytes /\
    subtle_verify key sigBytes
      (TextEncoder_encode (Signature.signedPayload sg)) = Return true.

Definition consistent (this : engine) : Prop :=
  (forall kp, _keyPair this = Some kp ->
              working_pair (privateKey kp) (publicKey kp)) /\
  (forall id r, _receipts this !! id = Some r ->
                Receipt.receiptId r = id /\ authentic r).

(** Every stored receipt embeds the exported public key of the engine's
    key pair. *)
Definition embeds_key (this : engine) : Prop :=
  forall id r, _receipts this !! id = Some r ->
    exists sg kp spki,
      _keyPair this = Some kp /\
      exportKey_spki (publicKey kp) = Return spki /\
      Receipt.signature r = Some sg /\
      Signature.publicKey sg = bufferToBase64 spki.

(** The platform's verdict on the bytes a signature block embeds. *)
Definition verdict (sg : Signature.t) : outcome bool :=
  let* keyData := Base64.bytes_of_base64 (Signature.publicKey sg) in
  let* key := importKey_spki keyData in
  let* sigBytes := Base64.bytes_of_base64 (Signature.value sg) in
  subtle_verify key sigBytes
    (TextEncoder_encode (Signature.signedPayload sg)).

(** The embedded key or the signature is not base64, or the key does not
    import. *)
Definition undecodable (sg : Signature.t) : Prop :=
  (exists error,
      Base64.bytes_of_base64 (Signature.publicKey sg) = Throw error) \/
  (exists keyData error,
      Base64.bytes_of_base64 (Signature.publicKey sg) = Return keyData /\
      importKey_spki keyData = Throw error) \/
  (exists error, Base64.bytes_of_base64 (Signature.value sg) = Throw error).

(** The key and the signature decode, and the platform's check of the
    signature throws. *)
Definition check_fails (sg : Signature.t) : Prop :=
  exists keyData key sigBytes error,
    Base64.bytes_of_base64 (Signature.publicKey sg) = Return keyData /\
    importKey_spki keyData = Return key /\
    Base64.bytes_of_base64 (Signature.value sg) = Return sigBytes /\
    subtle_verify key sigBytes
      (TextEncoder_encode (Signature.signedPayload sg)) = Throw error.

(** The beacon gave no usable round: the request failed, the answer was
    not a success, the body did not parse, or the payload has no (truthy)
    [round], [randomness] or [signature]. *)
Definition lacks (data : value) (key : string) : Prop :=
  forall v, member data key = Return v -> truthy v = false.

Definition unavailable (fetched : outcome Response.t) : Prop :=
  (exists error, fetched = Throw error) \/
  (exists response,
      fetched = Return response /\
      (Response.ok response = false \/
       (exists error, Response.json response = Throw error) \/
       (exists data,
           Response.json response = Return data /\
           (lacks data "round" \/ lacks data "randomness"
            \/ lacks data "signature")))).
End Reach.
End Reach.

(** ** Calls of [create] that overlap *)

Module Overlap.
Import JS ReceiptEngine.

Section Overlap.
Context `{host : Host} `{crypto : WebCrypto}.

Notation "'do*' x ':=' c 'in' k" := (and_then c (fun x => k))
  (at level 10, x pattern, c at level 100, k at level 200, only parsing).

(** A call that waits at one of its awaits. Between two awaits a call
    runs alone; while it waits, any other call may run. *)
Inductive call : Type :=
| Fetching (e : env) (options : create_options)
    (* [create] at [await this.fetchDrandRound()] *)
| Loading (e : env) (options : create_options)
    (drand : option DrandRound) (loaded : outcome KeyPair)
    (* [create] in [getServiceKeyPair], past the test of [_keyPair], at
       the await of [importKey] or [generateKey], which settles as
       [loaded] *)
| Holding (e : env) (options : create_options)
    (drand : option DrandRound) (keyPair : KeyPair)
    (* [create] with the pair [getServiceKeyPair] returned, at the awaits
       of [sign] and [exportKey] *)
| KeyLoading (loaded : outcome KeyPair).
    (* [getServiceKeyPair], called by itself, past the test of [_keyPair] *)

(** What [getServiceKeyPair] starts to load when no pair is cached. *)
Definition load (e : env) (this : engine) : outcome KeyPair :=
  let jwk := signingKeyJwk this in
  if truthy jwk then import_signing_key jwk
  else generate_ephemeral_key (entropy e).

(** [create] after [await this.getServiceKeyPair()], with the round
    and the pair it holds: it signs the payload, which it built from the
    round before that await, and stores the receipt. *)
Definition finish (e : env) (options : create_options)
    (drand : option DrandRound) (keyPair : KeyPair) : method Receipt.t :=
  let deliveryId := deliveryId options in
  let signer := signer options in
  let method := default "digital" (method_ options) in
  let timestamp := timestamp options in
  let receiptId := generateReceiptId e in
  let payload :=
    Object
      [ ("receiptId", String receiptId);
        ("deliveryId", deliveryId);
        ("signer", signer);
        ("method", String method);
        ("timestamp", timestamp);
        ("drandRound",
          match drand with
          | Some d => or (round d) Null
          | None => Null
          end);
        ("drandRandomness",
          match drand with
          | Some d => or (randomness d) Null
          | None => Null
          end) ] in
  let serializedPayload := JSON_stringify payload in
  let dataBuffer := TextEncoder_encode serializedPayload in
  do* signatureBuffer :=
    lift (subtle_sign (privateKey keyPair) (nonce e) dataBuffer) in
  do* publicKeyBuffer := lift (exportKey_spki (publicKey keyPair)) in
  let signatureB64 := bufferToBase64 signatureBuffer in
  let publicKeyB64 := bufferToBase64 publicKeyBuffer in
  let receipt :=
    {| Receipt.receiptId := receiptId;
       Receipt.deliveryId := deliveryId;
       Receipt.signer := signer;
       Receipt.signerVerified := true;
       Receipt.signerMethod := "ChittyID";
       Receipt.method := method;
       Receipt.algorithm := "ECDSA-P256-SHA256";
       Receipt.signature :=
         Some {| Signature.signatureId := "SIG-" ++ receiptId;
                 Signature.algorithm := "ECDSA-P256-SHA256";
                 Signature.value := signatureB64;
                 Signature.publicKey := publicKeyB64;
                 Signature.signedPayload := serializedPayload;
                 Signature.valid := true;
                 Signature.timestamp := timestamp |};
       Receipt.witnessed := true;
       Receipt.witness := "ChittyOS";
       Receipt.witnessTimestamp := timestamp;
       Receipt.drand :=
         match drand with
         | Some d =>
             Some {| Anchor.round := round d;
                     Anchor.randomness := randomness d;
                     Anchor.signature := signature d;
                     Anchor.beacon := DRAND_URL;
                     Anchor.chainHash := DRAND_CHAIN_HASH |}
         | None => None
         end;
       Receipt.status := "VALID";
       Receipt.legal :=
         {| Legal.admissible := true;
            Legal.standard := "ChittyProof";
            Legal.pillar := "delivery";
            Legal.score := calculateReceiptScore method;
            Legal.technical := calculateTechnicalScore method;
            Legal.arguable := calculateArguableScore method |};
       Receipt.createdAt := timestamp;
       Receipt.verifyUrl := "https://chitty.cc/receipt/" ++ receiptId |} in
  do* _ := store receipt in
  ret receipt.

(** The call runs up to its next await, or to its end ([None]). *)
Definition resume (c : call) (this : engine) : option call * engine :=
  match c with
  | Fetching e options =>
      match fetchDrandRound (fetched e) with
      | Throw error => (None, this)
      | Return drand =>
          match _keyPair this with
          | Some keyPair => (Some (Holding e options drand keyPair), this)
          | None => (Some (Loading e options drand (load e this)), this)
          end
      end
  | Loading e options drand loaded =>
      match loaded with
      | Return keyPair =>
          (Some (Holding e options drand keyPair), set_keyPair keyPair this)
      | Throw error => (None, this)
      end
  | Holding e options drand keyPair =>
      (None, snd (finish e options drand keyPair this))
  | KeyLoading loaded =>
      match loaded with
      | Return keyPair => (None, set_keyPair keyPair this)
      | Throw error => (None, this)
      end
  end.

(** The engine and the calls that wait. *)
Definition state : Type := engine * list call.

Inductive step : state -> state -> Prop :=
| step_create this calls e options :
    step (this, calls) (this, Fetching e options :: calls)
| step_key this calls e :
    _keyPair this = None ->
    step (this, calls) (this, KeyLoading (load e this) :: calls)
| step_resume this before c after next this' :
    resume c this = (Some next, this') ->
    step (this, before ++ c :: after)%list (this', before ++ next :: after)%list
| step_settle this before c after this' :
    resume c this = (None, this') ->
    step (this, before ++ c :: after)%list (this', before ++ after)%list.

Inductive runs (start : state) : state -> Prop :=
| runs_refl : runs start start
| runs_step middle final :
    runs start middle -> step middle final -> runs start final.

(** A call that holds no other pair than [keyPair] and loads none. *)
Definition keeps (keyPair : KeyPair) (c : call) : Prop :=
  match c with
  | Fetching _ _ => True
  | Holding _ _ _ held => held = keyPair
  | Loading _ _ _ _ | KeyLoading _ => False
  end.

(** The engine has cached [keyPair], its receipts embed the key of that
    pair, and no call that waits holds or loads another pair. *)
Definition settled (keyPair : KeyPair) (s : state) : Prop :=
  _keyPair (fst s) = Some keyPair /\
  Reach.embeds_key (fst s) /\
  Forall (keeps keyPair) (snd s).

(** A call on an engine with the signing key [jwk] configured loads
    and holds what the import of that key gives. *)
Definition imports (jwk : value) (c : call) : Prop :=
  match c with
  | Fetching _ _ => True
  | Loading _ _ _ loaded | KeyLoading loaded =>
      loaded = import_signing_key jwk
  | Holding _ _ _ held => import_signing_key jwk = Return held
  end.

Definition configured (jwk : value) (s : state) : Prop :=
  signingKeyJwk (fst s) = jwk /\
  (forall keyPair,
      _keyPair (fst s) = Some keyPair ->
      import_signing_key jwk = Return keyPair) /\
  Forall (imports jwk) (snd s) /\
  forall id r,
    _receipts (fst s) !! id = Some r ->
    exists sg keyPair spki,
      import_signing_key jwk = Return keyPair /\
      exportKey_spki (publicKey keyPair) = Return spki /\
      Receipt.signature r = Some sg /\
      Signature.publicKey sg = bufferToBase64 spki.

End Overlap.
End Overlap.

(** ** Receipt records that were tampered with *)

Module Tamper.

Definition with_value (text : string) (sg : Signature.t) : Signature.t :=
  {| Signature.signatureId := Signature.signatureId sg;
     Signature.algorithm := Signature.algorithm sg;
     Signature.value := text;
     Signature.publicKey := Signature.publicKey sg;
     Signature.signedPayload := Signature.signedPayload sg;
     Signature.valid := Signature.valid sg;
     Signature.timestamp := Signature.timestamp sg |}.

Definition with_payload (text : string) (sg : Signature.t) : Signature.t :=
  {| Signature.signatureId := Signature.signatureId sg;
     Signature.algorithm := Signature.algorithm sg;
     Signature.value := Signature.value sg;
     Signature.publicKey := Signature.publicKey sg;
     Signature.signedPayload := text;
     Signature.valid := Signature.valid sg;
     Signature.timestamp := Signature.timestamp sg |}.

(** The record with its signature block changed. *)
Definition signature (change : Signature.t -> Signature.t) (r : Receipt.t)
    : Receipt.t :=
  {| Receipt.receiptId := Receipt.receiptId r;
     Receipt.deliveryId := Receipt.deliveryId r;
     Receipt.signer := Receipt.signer r;
     Receipt.signerVerified := Receipt.signerVerified r;
     Receipt.signerMethod := Receipt.signerMethod r;
     Receipt.method := Receipt.method r;
     Receipt.algorithm := Receipt.algorithm r;
     Receipt.signature := option_map change (Receipt.signature r);
     Receipt.witnessed := Receipt.witnessed r;
     Receipt.witness := Receipt.witness r;
     Receipt.witnessTimestamp := Receipt.witnessTimestamp r;
     Receipt.drand := Receipt.drand r;
     Receipt.status := Receipt.status r;
     Receipt.legal := Receipt.legal r;
     Receipt.createdAt := Receipt.createdAt r;
     Receipt.verifyUrl := Receipt.verifyUrl r |}.

(** The record with another text as [signature.value]. *)
Definition value (text : string) : Receipt.t -> Receipt.t :=
  signature (with_value text).

(** The record with another text as [signature.signedPayload]. *)
Definition payload (text : string) : Receipt.t -> Receipt.t :=
  signature (with_payload text).

(** The digit after a digit of the base64 alphabet. *)
Definition next (d : ascii) : ascii :=
  match Base64.sextet d with
  | Some n => Base64.digit (n + 1)
  | None => d
  end.

(** A text that ends in a digit and two [=], with that digit replaced by
    the next one: one character is changed, in place. *)
Fixpoint respell_chars (chars : list ascii) : list ascii :=
  match chars with
  | [] => []
  | d :: rest =>
      match rest with
      | [ p; q ] =>
          if Base64.is_pad p && Base64.is_pad q then [ next d; p; q ]
          else d :: respell_chars rest
      | _ => d :: respell_chars rest
      end
  end.

Definition respell (text : string) : string :=
  string_of_list_ascii (respell_chars (list_ascii_of_string text)).

End Tamper.

(** ** A small platform to run the model on

    A host whose conversions are simple printers, and in place of ECDSA a
    scheme in which the public key is the private key and the signature
    of [data] is the key followed by [data]. *)

Module Sample.
Import JS.

Definition quote : string := String.String (ascii_of_nat 34) "".

Fixpoint print (v : value) : string :=
  match v with
  | Undefined => "undefined"
  | Null => "null"
  | Bool true => "true"
  | Bool false => "false"
  | Number _ => "0"
  | String s => quote ++ s ++ quote
  | Array items => "[" ++ String.concat "," (map print items) ++ "]"
  | Object fields =>
      "{" ++ String.concat ","
               (map (fun kv => let (k, x) := kv : string * value in
                               quote ++ k ++ quote ++ ":" ++ print x) fields)
          ++ "}"
  end.

#[export] Instance host : Host := {
  toISOString := fun ms => toString_radix 10 ms;
  JSON_stringify := print;
  JSON_parse := fun text => Return (Object [("d", String text); ("x", String text)]);
  TextEncoder_encode := list_byte_of_string
}.

Definition DataError : exn := DOMException "DataError" "Invalid key data".

Definition key_of (v : value) : outcome (list byte) :=
  match v with
  | String (String.String c rest) =>
      Return (list_byte_of_string (String.String c rest))
  | _ => Throw DataError
  end.

Definition jwk_member (keyData : value) (name : string) : value :=
  match keyData with
  | Object fields => default Undefined (own fields name)
  | _ => Undefined
  end.

Definition list_byte_eqb (x y : list byte) : bool :=
  String.eqb (string_of_list_byte x) (string_of_list_byte y).

#[export] Instance crypto : WebCrypto := {
  PrivateKey := list byte;
  PublicKey := list byte;
  generateKey := fun entropy =>
    match entropy with
    | [] => Throw (DOMException "OperationError" "no entropy")
    | _ => Return (entropy, entropy)
    end;
  importKey_jwk_sign := fun keyData =>
    let* d := key_of (jwk_member keyData "d") in
    let* x := key_of (jwk_member keyData "x") in
    if list_byte_eqb d x then Return d else Throw DataError;
  importKey_jwk_verify := fun keyData => key_of (jwk_member keyData "x");
  importKey_spki := fun keyData =>
    match keyData with
    | [] => Throw DataError
    | _ => Return keyData
    end;
  exportKey_spki := fun key => Return key;
  subtle_sign := fun key nonce data =>
    match key with
    | [] => Throw (DOMException "InvalidAccessError" "no key")
    | _ => Return (key ++ data)%list
    end;
  subtle_verify := fun key signature data =>
    Return (list_byte_eqb signature (key ++ data)%list)
}.

Definition bytes (s : string) : list byte := list_byte_of_string s.

(** The beacon is unreachable. *)
Definition offline : ReceiptEngine.env :=
  {| ReceiptEngine.clock := 1700000000000%N;
     ReceiptEngine.random := bytes "abcdef";
     ReceiptEngine.fetched := Throw (TypeError "fetch failed");
     ReceiptEngine.entropy := bytes "k";
     ReceiptEngine.nonce := bytes "n" |}.

Definition options : ReceiptEngine.create_options :=
  {| ReceiptEngine.deliveryId := String "DD-TEST-123";
     ReceiptEngine.signer := String "recipient-chitty-id";
     ReceiptEngine.method_ := Some "digital";
     ReceiptEngine.timestamp := String "2026-01-01T00:00:00.000Z" |}.

Definition fresh : ReceiptEngine.engine := ReceiptEngine.new Null.

Definition created : outcome Receipt.t * ReceiptEngine.engine :=
  ReceiptEngine.create offline options fresh.

(** A second call on the same engine, a millisecond later. *)
Definition afterwards : ReceiptEngine.env :=
  {| ReceiptEngine.clock := 1700000000001%N;
     ReceiptEngine.random := bytes "ghijkl";
     ReceiptEngine.fetched := Throw (TypeError "fetch failed");
     ReceiptEngine.entropy := bytes "z";
     ReceiptEngine.nonce := bytes "m" |}.

Definition created_again : outcome Receipt.t * ReceiptEngine.engine :=
  ReceiptEngine.create afterwards options (snd created).

(** A call whose signature, the key and the payload, has 3 n + 1
    octets, and so a base64 text that ends in two [=]. *)
Definition padded_options : ReceiptEngine.create_options :=
  {| ReceiptEngine.deliveryId := String "DD-TEST-1234";
     ReceiptEngine.signer := String "recipient-chitty-id";
     ReceiptEngine.method_ := Some "digital";
     ReceiptEngine.timestamp := String "2026-01-01T00:00:00.000Z" |}.

Definition created_padded : outcome Receipt.t * ReceiptEngine.engine :=
  ReceiptEngine.create offline padded_options fresh.

(** The beacon answers 201 Created with a complete round. *)
Definition answer_201 : Response.t :=
  {| Response.ok := true;
     Response.status := 201%N;
     Response.statusText := "Created";
     Response.json :=
       Return (Object [ ("round", Number (int 7));
                        ("randomness", String "ab");
                        ("signature", String "cd") ]) |}.

Definition answered_201 : ReceiptEngine.env :=
  {| ReceiptEngine.clock := 1700000000000%N;
     ReceiptEngine.random := bytes "abcdef";
     ReceiptEngine.fetched := Return answer_201;
     ReceiptEngine.entropy := bytes "k";
     ReceiptEngine.nonce := bytes "n" |}.

(** A receipt record signed with the key "k" on the payload "p": the
    signature is the two octets "kp", in base64 [a3A=]. *)
Definition record (value : string) : Receipt.t :=
  {| Receipt.receiptId := "DR-SAMPLE";
     Receipt.deliveryId := String "DD-SAMPLE";
     Receipt.signer := String "recipient";
     Receipt.signerVerified := true;
     Receipt.signerMethod := "ChittyID";
     Receipt.method := "digital";
     Receipt.algorithm := "ECDSA-P256-SHA256";
     Receipt.signature :=
       Some {| Signature.signatureId := "SIG-DR-SAMPLE";
               Signature.algorithm := "ECDSA-P256-SHA256";
               Signature.value := value;
               Signature.publicKey := "aw==";
               Signature.signedPayload := "p";
               Signature.valid := true;
               Signature.timestamp := String "2026-01-01T00:00:00.000Z" |};
     Receipt.witnessed := true;
     Receipt.witness := "ChittyOS";
     Receipt.witnessTimestamp := String "2026-01-01T00:00:00.000Z";
     Receipt.drand := None;
     Receipt.status := "VALID";
     Receipt.legal :=
       {| Legal.admissible := true; Legal.standard := "ChittyProof";
          Legal.pillar := "delivery"; Legal.score := Val (int 85);
          Legal.technical := Val (int 90); Legal.arguable := Val (int 80) |};
     Receipt.createdAt := String "2026-01-01T00:00:00.000Z";
     Receipt.verifyUrl := "https://chitty.cc/receipt/DR-SAMPLE" |}.

(** The record as signed. *)
Definition genuine : Receipt.t := record "a3A=".

End Sample.

(** ** The scoring model as the specification words it

    Exact arithmetic on the tables of the specification; the code computes
    on binary64 numbers and is compared with these. *)

Module Spec.
Import JS.

Definition methodBase : list (string * Z) :=
  [ ("legalService", 95); ("inPerson", 90); ("portal", 85);
    ("physical", 75); ("email", 70); ("api", 65); ("sms", 60) ].

Definition statusMultiplier : list (string * Q) :=
  [ ("PENDING", 0); ("SENT", 3 # 10); ("DELIVERED", 6 # 10);
    ("OPENED", 75 # 100); ("ACKNOWLEDGED", 85 # 100); ("RECEIPTED", 1);
    ("FAILED", 0); ("BOUNCED", 0); ("REFUSED", 5 # 10) ]%Q.

(** The nearest integer, a half going up. *)
Definition round (x : Q) : Z := Qfloor (x + (1 # 2))%Q.

Definition base (method : string) : Z :=
  default 50 (own methodBase method).

Definition multiplier (status : string) : Q :=
  default 0%Q (own statusMultiplier status).

Definition score (method status : string) : Z :=
  round (inject_Z (base method) * multiplier status)%Q.

(** Affidavit scores: base per service type, bonuses, cap. *)
Definition admissibility : list (string * Z) :=
  [ ("personal", 95); ("substituted", 80); ("constructive", 70);
    ("publication", 65) ].

Definition technical : list (string * Z) :=
  [ ("personal", 90); ("substituted", 75); ("constructive", 65);
    ("publication", 60) ].

Definition persuasive : list (string * Z) :=
  [ ("personal", 95); ("substituted", 85); ("constructive", 75);
    ("publication", 70) ].

Definition bonus (flag : value) (k : Z) : Z :=
  if truthy flag then k else 0.

Definition capped (table : list (string * Z)) (serviceType : string)
    (bonuses : Z) : Z :=
  Z.min 100 (default 0 (own table serviceType) + bonuses).

End Spec.

(** ** Inputs of the test suite *)

Module Tests.
Import JS ChittyDLVR.

Definition pigeon : send_options :=
  {| mintId := String "DM-TEST"; to := String "recipient";
     method := Some "pigeon"; address := String "nest" |}.

Definition recipients : list recipient :=
  [ {| r_mintId := None; r_to := String "alice"; r_method := Some "email";
       r_address := String "alice@example.com" |};
    {| r_mintId := None; r_to := String "bob";
       r_method := Some "invalid_method"; r_address := String "x" |};
    {| r_mintId := None; r_to := String "charlie";
       r_method := Some "portal"; r_address := Undefined |} ].

Definition test_dlvr : dlvr := {| chittyId := String "test-chitty-id" |}.

Definition at_noon : send_env :=
  {| random := Sample.bytes "01234567"; clock_id := 1700000000000%N;
     clock_created := 1700000000000%N; clock_dispatch := 1700000000001%N;
     clock_history := 1700000000001%N; clock_sent := 1700000000002%N |}.

Definition bulk_at_noon : bulk_env :=
  {| sends := fun _ => at_noon; bulk_random := Sample.bytes "0123";
     bulk_clock_id := 1700000000000%N;
     bulk_clock_created := 1700000000003%N |}.

Definition service_at_noon : ServiceEngine.env :=
  {| ServiceEngine.clock := 1700000000000%N;
     ServiceEngine.random := Sample.bytes "012345" |}.

Definition telekinesis : serve_options :=
  {| s_mintId := None; s_respondent := String "Jane Doe";
     s_serviceType := Some "telekinesis"; s_address := Undefined;
     s_jurisdiction := Undefined |}.

Definition witnessed_service : ServiceEngine.details :=
  {| ServiceEngine.jurisdiction := Undefined;
     ServiceEngine.servedTo := String "John Doe";
     ServiceEngine.relationship := Undefined;
     ServiceEngine.location := Undefined;
     ServiceEngine.notarized := Bool false;
     ServiceEngine.witnessPresent := Bool true;
     ServiceEngine.geoVerified := Bool true;
     ServiceEngine.servedAt := Undefined |}.

Definition telekinetic_affidavit : ServiceEngine.affidavit_options :=
  {| ServiceEngine.serviceId := String "DS-TEST-123";
     ServiceEngine.processServer := String "SERVER-001";
     ServiceEngine.serviceType_ := Some "telekinesis";
     ServiceEngine.details_ := Given witnessed_service;
     ServiceEngine.timestamp_ := String "2026-01-01T00:00:00.000Z" |}.

(** An affidavit whose [details] is [null]. *)
Definition affidavit_without_details : ServiceEngine.affidavit_options :=
  {| ServiceEngine.serviceId := String "DS-TEST-123";
     ServiceEngine.processServer := String "SERVER-001";
     ServiceEngine.serviceType_ := Some "personal";
     ServiceEngine.details_ := IsNull;
     ServiceEngine.timestamp_ := String "2026-01-01T00:00:00.000Z" |}.

Definition substituted_service : ServiceEngine.initiate_options :=
  {| ServiceEngine.mintId := String "DM-TEST";
     ServiceEngine.respondent := String "Jane Doe";
     ServiceEngine.serviceType := Some "substituted";
     ServiceEngine.address := Undefined;
     ServiceEngine.jurisdiction_ := Undefined;
     ServiceEngine.timestamp := String "2026-01-01T00:00:00.000Z" |}.

Definition sms_options : DeliveryChannel.options :=
  {| DeliveryChannel.deliveryId := "DD-1";
     DeliveryChannel.address := String "+1234567890";
     DeliveryChannel.mintId := "DM-1";
     DeliveryChannel.timestamp := "2026-01-01T00:00:00.000Z" |}.

Definition no_mintId : send_options :=
  {| mintId := String ""; to := String "recipient";
     method := Some "valueOf"; address := Undefined |}.

End Tests.

(** ** What a batch holds for each recipient *)

Module Expected.
Import JS ChittyDLVR.

Section Expected.
Context `{host : Host}.

(** The options [bulkSend] passes to [send] for a recipient. *)
Definition options_for (mintId : string) (r : recipient) : send_options :=
  {| mintId := default (String mintId) (r_mintId r); to := r_to r;
     method := r_method r; address := r_address r |}.

(** The entry of the [i]-th recipient. *)
Definition entry_for (this : dlvr) (e : bulk_env) (mintId : string)
    (i : nat) (r : recipient) : Batch.entry :=
  match send this (sends e i) (options_for mintId r) with
  | Return delivery => Batch.Sent delivery
  | Throw error =>
      Batch.Failed
        {| Failure.deliveryId := Null; Failure.to := r_to r;
           Failure.method := optional (r_method r);
           Failure.status := "FAILED";
           Failure.error := message error |}
  end.

Fixpoint entries_from (this : dlvr) (e : bulk_env) (mintId : string)
    (i : nat) (recipients : list recipient) : list Batch.entry :=
  match recipients with
  | [] => []
  | r :: rest =>
      entry_for this e mintId i r :: entries_from this e mintId (S i) rest
  end.
End Expected.
End Expected.

(** ** worker.js: origins, authentication and the public routes *)

(** [crypto.subtle.digest('SHA-256', data)] *)
Class Digest : Type := {
  SHA256 : list byte -> list byte
}.

Module Http.
(** What a public route answers with: the verification, the status of a
    delivery, or [{ error }]. *)
Inductive body : Type :=
| Verified (v : Verification.t)
| Tracked (s : DeliveryStatus.t)
| Failed (error : string).

(** A response of [jsonResponse]: the status, the data that is
    serialized into the body, and the origin it allows. *)
Record t : Type := {
  status : N;
  data : body;
  allowOrigin : string
}.
End Http.

Module Worker.
Import JS.

Definition ALLOWED_ORIGINS : list string :=
  [ "https://dlvr.chitty.cc"; "https://api.chitty.cc";
    "https://portal.chitty.cc"; "https://chitty.cc" ].

(** [getCorsOrigin]; [origin] is [request?.headers?.get('Origin')],
    [None] when there is no request or no such header. *)
Definition getCorsOrigin (origin : option string) : string :=
  match origin with
  | Some o =>
      if truthy (String o) && existsb (String.eqb o) ALLOWED_ORIGINS then o
      else nth 0 ALLOWED_ORIGINS ""
  | None => nth 0 ALLOWED_ORIGINS ""
  end.

Definition jsonResponse (data : Http.body) (status : N)
    (origin : option string) : Http.t :=
  {| Http.status := status; Http.data := data;
     Http.allowOrigin := getCorsOrigin origin |}.

(** [hash[i]] as an operand of [^]: an index past the end reads
    [undefined], which counts as 0. *)
Definition octet_at (hash : list byte) (i : nat) : N :=
  match nth_error hash i with
  | Some b => Byte.to_N b
  | None => 0%N
  end.

(** The loop [mismatch |= tokenHash[i] ^ keyHash[i]] over the indices of
    [tokenHash]. *)
Definition mismatch_of (tokenHash keyHash : list byte) : N :=
  fold_left
    (fun mismatch i =>
       N.lor mismatch (N.lxor (octet_at tokenHash i) (octet_at keyHash i)))
    (seq 0 (length tokenHash)) 0%N.

(** [s.substring(n)] *)
Fixpoint substring_from (n : nat) (s : string) : string :=
  match n, s with
  | O, _ => s
  | S n', EmptyString => EmptyString
  | S n', String.String _ rest => substring_from n' rest
  end.

Record authentication : Type := {
  valid : bool;
  chittyId : option string
}.

Definition rejected : authentication :=
  {| valid := false; chittyId := None |}.

Section Authenticate.
Context `{host : Host} `{digest : Digest}.

(** [authenticate]; [authHeader] is the Authorization header, and the
    two other arguments are the members of [env] it reads. *)
Definition authenticate (authHeader : option string)
    (CHITTY_AUTH_SERVICE_TOKEN CHITTY_ID : option string) : authentication :=
  match authHeader with
  | None => rejected
  | Some authHeader =>
      if negb (String.prefix "Bearer " authHeader) then rejected
      else
        let token := substring_from 7 authHeader in
        if String.eqb token "" then rejected
        else
          match CHITTY_AUTH_SERVICE_TOKEN with
          | None | Some EmptyString => rejected
          | Some validKey =>
              let tokenHash := SHA256 (TextEncoder_encode token) in
              let keyHash := SHA256 (TextEncoder_encode validKey) in
              let mismatch := mismatch_of tokenHash keyHash in
              if negb (N.eqb mismatch 0) then rejected
              else
                {| valid := true;
                   chittyId :=
                     Some match CHITTY_ID with
                          | Some (String.String c id) => String.String c id
                          | _ => "authenticated"
                          end |}
          end
  end.
End Authenticate.

(** [s.split('/')] *)
Fixpoint split (s : string) : list string :=
  match s with
  | EmptyString => [ EmptyString ]
  | String.String c rest =>
      if Ascii.eqb c "/" then EmptyString :: split rest
      else
        match split rest with
        | first :: others => String.String c first :: others
        | [] => [ String.String c EmptyString ]
        end
  end.

(** [path.split('/').pop()] *)
Definition last_segment (path : string) : string :=
  List.last (split path) EmptyString.

Section Routes.
Context `{host : Host} `{crypto : WebCrypto}.

(** [handlePublicRoute(path, request, dlvr)]: [origin] is the Origin
    header of the request, [receipts] the receipt engine of [dlvr], [now]
    the clock reading. *)
Definition handlePublicRoute (now : N) (path : string)
    (origin : option string) (receipts : ReceiptEngine.engine)
    : outcome Http.t :=
  try_catch
    (if String.prefix "/verify/receipt/" path then
       let receiptId := last_segment path in
       if negb (String.prefix "DR-" receiptId) then
         Return
           (jsonResponse (Http.Failed "Invalid receipt ID format") 400 origin)
       else
         let receiptData := ReceiptEngine.getById receiptId receipts in
         let* result :=
           ReceiptEngine.verify now receiptId receiptData receipts in
         Return (jsonResponse (Http.Verified result) 200 origin)
     else if String.prefix "/track/" path then
       let deliveryId := last_segment path in
       if negb (String.prefix "DD-" deliveryId) then
         Return
           (jsonResponse (Http.Failed "Invalid delivery ID format") 400 origin)
       else
         let* result := ChittyDLVR.status now deliveryId in
         Return (jsonResponse (Http.Tracked result) 200 origin)
     else Return (jsonResponse (Http.Failed "Not found") 404 origin))
    (fun error =>
       Return (jsonResponse (Http.Failed "Internal server error") 500 origin)).
End Routes.

End Worker.

Module SampleDigest.
(** A stand-in for SHA-256 with its 32 octets of output: the message,
    cut or padded with zeros. *)
#[export] Instance digest : Digest := {
  SHA256 := fun message => firstn 32 (message ++ repeat "000"%byte 32)%list
}.
End SampleDigest.

(** ** verify/public.js: the embeddable badge *)

(** [encodeURIComponent] *)
Class Uri : Type := {
  encodeURIComponent : string -> string
}.

Module PublicReceipt.
Import JS.

(** [s.replace(/c/g, by)] for a character [c] and a replacement text
    without [$]. *)
Fixpoint replace_all (c : ascii) (by_ : string) (s : string) : string :=
  match s with
  | EmptyString => EmptyString
  | String.String d rest =>
      if Ascii.eqb d c then by_ ++ replace_all c by_ rest
      else String.String d (replace_all c by_ rest)
  end.

Definition dq : ascii := ascii_of_nat 34.

Definition escapeHtml (s : string) : string :=
  replace_all "'" "&#39;"
    (replace_all dq "&quot;"
       (replace_all ">" "&gt;"
          (replace_all "<" "&lt;" (replace_all "&" "&amp;" s)))).

Definition quoted (s : string) : string :=
  String.String dq (s ++ String.String dq EmptyString).

Record badge_options : Type := {
  size : option string;
  theme : option string
}.

Record badge : Type := {
  html : string;
  script : string;
  imageUrl : string;
  verifyUrl : string
}.

Section Badge.
Context `{uri : Uri}.

Definition getBadge (receiptId : string) (options : badge_options) : badge :=
  let size := default "medium" (size options) in
  let theme := default "light" (theme options) in
  let safeId := escapeHtml receiptId in
  let safeSize := escapeHtml size in
  let safeTheme := escapeHtml theme in
  let encodedId := encodeURIComponent receiptId in
  {| html :=
       "<div class=" ++ quoted "chitty-receipt-badge"
         ++ " data-receipt=" ++ quoted safeId
         ++ " data-size=" ++ quoted safeSize
         ++ " data-theme=" ++ quoted safeTheme ++ "></div>";
     script :=
       "<script src=" ++ quoted "https://cdn.chitty.cc/dlvr/badge.js"
         ++ "></script>";
     imageUrl :=
       "https://cdn.chitty.cc/dlvr/badge/" ++ encodedId ++ ".svg?size="
         ++ encodeURIComponent size ++ "&theme=" ++ encodeURIComponent theme;
     verifyUrl := "https://chitty.cc/receipt/" ++ encodedId |}.
End Badge.

(** The number of times a character occurs. *)
Fixpoint occurrences (c : ascii) (s : string) : nat :=
  match s with
  | EmptyString => O
  | String.String d rest =>
      if Ascii.eqb d c then S (occurrences c rest) else occurrences c rest
  end.

(** The entity [escapeHtml] writes for a character, or the character. *)
Definition entity (c : ascii) : string :=
  escapeHtml (String.String c EmptyString).

End PublicReceipt.

(** ** Conditions under which the code throws *)

Module Edge.
Import JS.

(** A valid [mintId]: a string that is not empty. *)
Definition valid_mintId (v : value) : Prop :=
  exists s, v = String s /\ s <> "".

(** A method name whose handler throws when called: a member of
    Object.prototype other than [constructor] and [toString]. *)
Definition throwing (method : string) : bool :=
  inherited method
  && negb (String.eqb method "constructor")
  && negb (String.eqb method "toString").

(** A recipient whose [send] throws: its own [mintId] is not valid, or
    its method is a throwing one. *)
Definition unsendable (r : ChittyDLVR.recipient) : Prop :=
  (exists v, ChittyDLVR.r_mintId r = Some v /\ ~ valid_mintId v) \/
  throwing (default "email" (ChittyDLVR.r_method r)) = true.

End Edge.

(** ** The shape of generated identifiers *)

Module Ident.

Fixpoint all_chars (p : ascii -> bool) (s : string) : bool :=
  match s with
  | EmptyString => true
  | String.String c rest => p c && all_chars p rest
  end.

(** A digit, an upper-case letter or a hyphen. *)
Definition id_char (c : ascii) : bool :=
  let n := N_of_ascii c in
  ((48 <=? n) && (n <=? 57) || (65 <=? n) && (n <=? 90) || (n =? 45))%N.

Definition well_formed (prefix id : string) : Prop :=
  String.prefix prefix id = true /\ all_chars id_char id = true.

End Ident.

(** * Properties *)

(** ** The delivery score *)

Section DeliveryScore.
Import JS ChittyDLVR.

Lemma own_cases {A} (table : list (string * A)) key :
  own table key = None \/
  exists a, In (key, a) table /\ own table key = Some a.
Proof.
  induction table as [ | [k a] rest IH ]; cbn [own]; [ now left | ].
  destruct (String.eqb_spec k key) as [ -> | ne ].
  - right. exists a. split; [ now left | reflexivity ].
  - destruct IH as [ -> | (b & inb & ->) ]; [ now left | ].
    right. exists b. split; [ now right | reflexivity ].
Qed.

(** The score on every pair of names neither of which is a member of
    Object.prototype: own entries of the tables and the defaults. *)
Lemma calculateDeliveryScore_spec method status :
  inherited method = false -> inherited status = false ->
  calculateDeliveryScore method status = int (Spec.score method status).
Proof.
  intros im ist.
  unfold calculateDeliveryScore, Spec.score, Spec.base, Spec.multiplier, get.
  rewrite im, ist. clear im ist.
  unfold methodScores, statusMultipliers, Spec.methodBase,
    Spec.statusMultiplier.
  cbn [own].
  repeat match goal with
         | |- context [String.eqb ?k ?name] =>
             is_var name;
             destruct (String.eqb_spec k name); [ subst name | ]
         end.
  all: vm_compute; reflexivity.
Qed.
End DeliveryScore.

(** C1. For every delivery method and status of the tables,
    [calculateDeliveryScore] is the product of the method's base and the
    status's multiplier, rounded to the nearest integer (a half going up);
    a name outside a table counts 50 as a method and 0 as a status.
    (email, SENT) scores 21, (legalService, RECEIPTED) 95, (email, PENDING)
    0 and (email, REFUSED) 35. *)
Theorem delivery_score_table :
  (forall method status b m,
      In (method, b) Spec.methodBase ->
      In (status, m) Spec.statusMultiplier ->
      ChittyDLVR.calculateDeliveryScore method status
      = JS.int (Spec.round (inject_Z b * m))) /\
  (forall method status,
      JS.inherited method = false -> JS.inherited status = false ->
      ChittyDLVR.calculateDeliveryScore method status
      = JS.int (Spec.round (inject_Z (Spec.base method)
                              * Spec.multiplier status))) /\
  (forall method, ~ In method (map fst Spec.methodBase) ->
                  Spec.base method = 50) /\
  (forall status, ~ In status (map fst Spec.statusMultiplier) ->
                  Spec.multiplier status = 0%Q) /\
  ChittyDLVR.calculateDeliveryScore "email" "SENT" = JS.int 21 /\
  ChittyDLVR.calculateDeliveryScore "legalService" "RECEIPTED" = JS.int 95 /\
  ChittyDLVR.calculateDeliveryScore "email" "PENDING" = JS.int 0 /\
  ChittyDLVR.calculateDeliveryScore "email" "REFUSED" = JS.int 35.
Proof.
  split; [ | split; [ | split; [ | split ] ] ].
  - intros method status b m inb inm.
    unfold Spec.methodBase, Spec.statusMultiplier in inb, inm.
    cbn [In] in inb, inm.
    repeat match goal with
           | H : _ \/ _ |- _ => destruct H
           | H : (_, _) = (_, _) |- _ => inversion H; clear H; subst
           | H : False |- _ => destruct H
           end.
    all: vm_compute; reflexivity.
  - exact calculateDeliveryScore_spec.
  - intros method notin. unfold Spec.base.
    destruct (own_cases Spec.methodBase method) as [ -> | (b & inb & _) ];
      [ reflexivity | ].
    destruct notin. apply in_map_iff. now exists (method, b).
  - intros status notin. unfold Spec.multiplier.
    destruct (own_cases Spec.statusMultiplier status) as [ -> | (b & inb & _) ];
      [ reflexivity | ].
    destruct notin. apply in_map_iff. now exists (status, b).
  - repeat split; vm_compute; reflexivity.
Qed.

Lemma delivery_score_table_witness :
  In ("email", 70) Spec.methodBase /\
  In ("SENT", (3 # 10)%Q) Spec.statusMultiplier /\
  ChittyDLVR.calculateDeliveryScore "email" "SENT"
  = JS.int (Spec.round (inject_Z 70 * (3 # 10))).
Proof.
  assert (inb : In ("email", 70) Spec.methodBase) by (cbn; tauto).
  assert (inm : In ("SENT", (3 # 10)%Q) Spec.statusMultiplier) by (cbn; tauto).
  split; [ exact inb | split; [ exact inm | ] ].
  exact (proj1 delivery_score_table "email" "SENT" 70 (3 # 10)%Q inb inm).
Defined.

(** ** Service of process *)

Section Service.
Import JS ServiceEngine.

Lemma includes_In types serviceType :
  includes types serviceType = true <-> In serviceType types.
Proof.
  unfold includes. rewrite existsb_exists. split.
  - intros (x & inx & e). apply String.eqb_eq in e. now subst.
  - intros i. exists serviceType. split; [ exact i | apply String.eqb_refl ].
Qed.

Lemma includes_false types serviceType :
  ~ In serviceType types -> includes types serviceType = false.
Proof.
  intros n. destruct (includes types serviceType) eqn:e; [ | reflexivity ].
  apply includes_In in e. contradiction.
Qed.

Lemma initiate_invalid e options s :
  serviceType options = Some s -> ~ In s VALID_SERVICE_TYPES ->
  initiate e options
  = Throw (Error ("Invalid service type: " ++ s ++ ". Valid types: "
                    ++ "personal, substituted, constructive, publication")).
Proof.
  intros es n. unfold initiate. rewrite es.
  change (default "personal" (Some s)) with s.
  rewrite (includes_false _ _ n). reflexivity.
Qed.
End Service.

(** C7. [serve] with a service type that is none of personal,
    substituted, constructive and publication fails in [initiate] with the
    error "Invalid service type"; with publication the case it returns
    requires a court order and allows one attempt. *)
Theorem serve_service_type `{host : Host} e now mintId options :
  (forall s, ChittyDLVR.s_serviceType options = Some s ->
             ~ In s ServiceEngine.VALID_SERVICE_TYPES ->
             ChittyDLVR.serve e now mintId options
             = JS.Throw
                 (JS.Error
                    ("Invalid service type: " ++ s ++ ". Valid types: "
                       ++ "personal, substituted, constructive, publication")))
  /\
  (ChittyDLVR.s_serviceType options = Some "publication" ->
   exists c r,
     ChittyDLVR.serve e now mintId options = JS.Return c /\
     ServiceCase.serviceType c = "publication" /\
     ServiceCase.requirements c = JS.Val r /\
     JS.member r "courtOrderRequired" = JS.Return (JS.Bool true) /\
     ServiceCase.maxAttempts c = JS.Val (JS.int 1)).
Proof.
  split.
  - intros s es n. unfold ChittyDLVR.serve.
    now apply initiate_invalid.
  - intros es. unfold ChittyDLVR.serve, ServiceEngine.initiate.
    cbn [ServiceEngine.serviceType]. rewrite es.
    eexists. eexists. split; [ reflexivity | ].
    repeat split.
Qed.

Lemma serve_service_type_witness :
  ~ In "telekinesis" ServiceEngine.VALID_SERVICE_TYPES /\
  ChittyDLVR.serve (host := Sample.host) Tests.service_at_noon 0%N
    (JS.String "DM-TEST") Tests.telekinesis
  = JS.Throw
      (JS.Error
         ("Invalid service type: telekinesis. Valid types: "
            ++ "personal, substituted, constructive, publication")).
Proof.
  assert (n : ~ In "telekinesis" ServiceEngine.VALID_SERVICE_TYPES).
  { cbn. intros [ e | [ e | [ e | [ e | [] ] ] ] ]; discriminate e. }
  split; [ exact n | ].
  exact (proj1 (serve_service_type (host := Sample.host) Tests.service_at_noon
                  0%N (JS.String "DM-TEST") Tests.telekinesis)
           "telekinesis" eq_refl n).
Defined.

(** C8. The three scores of an affidavit are the base of the service
    type on each axis plus the bonuses, capped at 100: 5 on admissibility
    and on persuasiveness when notarized, 3 on admissibility and 5 on
    persuasiveness when a witness was present, 5 on the technical axis when
    the location was verified. [recordAffidavit] files these scores for
    every details object, given or left out; for [details: null] it
    throws and files none. *)
Theorem affidavit_scores :
  (forall e options,
      let serviceType :=
        default "personal" (ServiceEngine.serviceType_ options) in
      match JS.destructured ServiceEngine.no_details
              (ServiceEngine.details_ options) with
      | Some details =>
          exists a,
            ServiceEngine.recordAffidavit e options = JS.Return a /\
            Affidavit.status a = "FILED" /\
            Affidavit.proof_score a
            = ServiceEngine.scoreAffidavit serviceType details /\
            Affidavit.proof_technical a
            = ServiceEngine.scoreTechnical serviceType details /\
            Affidavit.proof_arguable a
            = ServiceEngine.scoreArguable serviceType details
      | None =>
          exists error, ServiceEngine.recordAffidavit e options = JS.Throw error
      end) /\
  (forall serviceType d,
      In serviceType ServiceEngine.VALID_SERVICE_TYPES ->
      ServiceEngine.scoreAffidavit serviceType d
      = JS.Val (JS.int (Spec.capped Spec.admissibility serviceType
                          (Spec.bonus (ServiceEngine.notarized d) 5
                           + Spec.bonus (ServiceEngine.witnessPresent d) 3)))
      /\
      ServiceEngine.scoreTechnical serviceType d
      = JS.Val (JS.int (Spec.capped Spec.technical serviceType
                          (Spec.bonus (ServiceEngine.geoVerified d) 5)))
      /\
      ServiceEngine.scoreArguable serviceType d
      = JS.Val (JS.int (Spec.capped Spec.persuasive serviceType
                          (Spec.bonus (ServiceEngine.notarized d) 5
                           + Spec.bonus (ServiceEngine.witnessPresent d) 5)))).
Proof.
  split.
  - intros e options serviceType. unfold ServiceEngine.recordAffidavit.
    destruct (JS.destructured _ _) as [ details | ]; eexists;
      [ split; [ reflexivity | ]; repeat split | reflexivity ].
  - intros serviceType d i.
    unfold ServiceEngine.scoreAffidavit, ServiceEngine.scoreTechnical,
      ServiceEngine.scoreArguable, ServiceEngine.bonus, Spec.bonus.
    destruct (JS.truthy (ServiceEngine.notarized d)),
      (JS.truthy (ServiceEngine.witnessPresent d)),
      (JS.truthy (ServiceEngine.geoVerified d)).
    all: cbn [In ServiceEngine.VALID_SERVICE_TYPES] in i.
    all: destruct i as [ <- | [ <- | [ <- | [ <- | [] ] ] ] ].
    all: repeat split; vm_compute; reflexivity.
Qed.

Lemma affidavit_scores_witness :
  In "personal" ServiceEngine.VALID_SERVICE_TYPES /\
  ServiceEngine.scoreAffidavit "personal" Tests.witnessed_service
  = JS.Val (JS.int 98).
Proof.
  assert (i : In "personal" ServiceEngine.VALID_SERVICE_TYPES)
    by (cbn; tauto).
  split; [ exact i | ].
  exact (proj1 (proj2 affidavit_scores "personal" Tests.witnessed_service i)).
Defined.

(** ** Dispatch, send and bulk send *)

Section Dispatch.
Context `{host : Host}.
Import JS ChittyDLVR.

(** A method name that is no own key of [handlers] and no member of
    Object.prototype is dispatched by [sendEmail]. *)
Lemma dispatch_falls_back now method opts :
  own DeliveryChannel.handlers method = None ->
  inherited method = false ->
  DeliveryChannel.dispatch now method opts
  = DeliveryChannel.sendEmail now opts.
Proof.
  intros eo ei.
  unfold DeliveryChannel.dispatch, DeliveryChannel.getHandler, get.
  rewrite eo, ei. reflexivity.
Qed.

Lemma send_returns this e options d :
  send this e options = Return d ->
  Delivery.status d = "SENT" /\
  Delivery.to d = to options /\
  Delivery.method d = default "email" (method options).
Proof.
  unfold send.
  destruct (mintId options); try discriminate.
  destruct (negb (truthy (String s))); [ discriminate | ].
  destruct (DeliveryChannel.dispatch _ _ _); [ | discriminate ].
  cbn [bind]. intros [= <-]. repeat split.
Qed.

Lemma attempt_entry this e mintId i r results :
  attempt this e mintId i r results
  = Return (results ++ [Expected.entry_for this e mintId i r])%list.
Proof.
  unfold attempt, Expected.entry_for, Expected.options_for.
  destruct (send this (sends e i) _); reflexivity.
Qed.

Lemma for_of_entries this e mintId recipients : forall i results,
  for_of this e mintId i recipients results
  = Return (results ++ Expected.entries_from this e mintId i recipients)%list.
Proof.
  induction recipients as [ | r rest IH ]; intros i results; cbn.
  - now rewrite app_nil_r.
  - rewrite attempt_entry. cbn [bind]. rewrite IH, <- app_assoc.
    reflexivity.
Qed.

Lemma entry_for_status this e mintId i r :
  let entry := Expected.entry_for this e mintId i r in
  (Batch.status entry = "SENT" \/ Batch.status entry = "FAILED") /\
  Batch.to entry = r_to r /\
  match entry with
  | Batch.Sent d => Delivery.method d = default "email" (r_method r)
  | Batch.Failed f => Failure.method f = optional (r_method r)
  end.
Proof.
  unfold Expected.entry_for.
  destruct (send this (sends e i) _) as [ d | err ] eqn:es.
  - destruct (send_returns _ _ _ _ es) as (st & t & m).
    cbn. rewrite st. repeat split; [ now left | exact t | exact m ].
  - cbn. repeat split. now right.
Qed.

Lemma entries_from_length this e mintId recipients : forall i,
  length (Expected.entries_from this e mintId i recipients)
  = length recipients.
Proof.
  induction recipients as [ | r rest IH ]; intros i; cbn;
    [ reflexivity | now rewrite IH ].
Qed.

Lemma entries_from_nth this e mintId recipients : forall i j r,
  nth_error recipients j = Some r ->
  nth_error (Expected.entries_from this e mintId i recipients) j
  = Some (Expected.entry_for this e mintId (i + j) r).
Proof.
  induction recipients as [ | r0 rest IH ]; intros i j r.
  - destruct j; discriminate.
  - destruct j as [ | j ]; cbn.
    + intros [= ->]. now rewrite Nat.add_0_r.
    + intros e'. rewrite (IH (S i) j r e'). do 2 f_equal. lia.
Qed.

Lemma count_sent_failed (results : list Batch.entry) :
  Forall (fun r => Batch.status r = "SENT" \/ Batch.status r = "FAILED")
    results ->
  (count "SENT" results + count "FAILED" results = length results)%nat.
Proof.
  unfold count. induction 1 as [ | r rest [ st | st ] _ IH ]; cbn;
    [ reflexivity | | ]; rewrite st; cbn; lia.
Qed.
End Dispatch.

(** C5. The specification and the test suite have [dispatch], and so
    [send], fail on a method name that is none of the seven channels. The
    code at the method name "pigeon" of the test suite: [getHandler] falls
    back to the e-mail handler and [send] returns a delivery that was sent
    by e-mail. *)
Theorem send_unsupported_method_by_email `{host : Host} this e :
  exists d,
    ChittyDLVR.send this e Tests.pigeon = JS.Return d /\
    Delivery.status d = "SENT" /\
    Delivery.method d = "pigeon" /\
    JS.member (Delivery.dispatch d) "channel"
    = JS.Return (JS.String "email").
Proof.
  eexists. split; [ reflexivity | ]. repeat split.
Qed.

(** C9. The specification and the test suite have two of three
    recipients sent and one failed when one of them has an invalid method.
    The code at the recipients of the test suite: all three are sent, the
    one with the invalid method by e-mail, and none has failed. *)
Theorem bulkSend_invalid_method_is_sent `{host : Host} e :
  exists batch alice bob charlie,
    ChittyDLVR.bulkSend Tests.test_dlvr e (JS.String "DM-BULK-TEST")
      (Some Tests.recipients) = JS.Return batch /\
    Batch.totalRecipients batch = 3%nat /\
    Batch.sent batch = 3%nat /\
    Batch.failed batch = 0%nat /\
    Batch.deliveries batch
    = [ Batch.Sent alice; Batch.Sent bob; Batch.Sent charlie ] /\
    Delivery.method bob = "invalid_method" /\
    JS.member (Delivery.dispatch bob) "channel"
    = JS.Return (JS.String "email").
Proof.
  do 4 eexists. split; [ reflexivity | ]. repeat split.
Qed.

(** C10. A batch that [bulkSend] accepts (a non-empty string as mintId,
    a non-empty list of recipients) is returned, not thrown; it counts the
    recipients, holds one entry for each of them in their order, every
    entry has status SENT or FAILED, and the two counts add up to the
    total. *)
Theorem bulkSend_batch `{host : Host} this e mintId recipients :
  mintId <> "" -> recipients <> [] ->
  exists batch,
    ChittyDLVR.bulkSend this e (JS.String mintId) (Some recipients)
    = JS.Return batch /\
    Batch.totalRecipients batch = length recipients /\
    length (Batch.deliveries batch) = length recipients /\
    (Batch.sent batch + Batch.failed batch = Batch.totalRecipients batch)%nat
    /\
    Forall (fun r => Batch.status r = "SENT" \/ Batch.status r = "FAILED")
      (Batch.deliveries batch) /\
    forall i r,
      nth_error recipients i = Some r ->
      exists entry,
        nth_error (Batch.deliveries batch) i = Some entry /\
        entry = Expected.entry_for this e mintId i r /\
        Batch.to entry = ChittyDLVR.r_to r /\
        match entry with
        | Batch.Sent d =>
            Delivery.method d = default "email" (ChittyDLVR.r_method r)
        | Batch.Failed f =>
            Failure.method f = ChittyDLVR.optional (ChittyDLVR.r_method r)
        end.
Proof.
  intros nonempty some.
  assert (statuses : forall i l,
             Forall (fun r => Batch.status r = "SENT"
                              \/ Batch.status r = "FAILED")
               (Expected.entries_from this e mintId i l)).
  { intros i l. revert i.
    induction l as [ | r rest IH ]; intros i; cbn; constructor.
    - apply entry_for_status.
    - apply IH. }
  unfold ChittyDLVR.bulkSend.
  assert (t : JS.truthy (JS.String mintId) = true).
  { cbn. destruct (String.eqb_spec mintId ""); [ contradiction | reflexivity ]. }
  rewrite t. cbn [negb].
  destruct recipients as [ | r0 rest ]; [ contradiction | ].
  rewrite for_of_entries. cbn [JS.bind app].
  eexists. split; [ reflexivity | ].
  cbn [Batch.totalRecipients Batch.deliveries Batch.sent Batch.failed].
  split; [ reflexivity | ].
  split; [ apply entries_from_length | ].
  split.
  { rewrite count_sent_failed by apply statuses.
    apply entries_from_length. }
  split; [ apply statuses | ].
  intros i r ei. eexists.
  split; [ apply (entries_from_nth this e mintId (r0 :: rest) 0 i r ei) | ].
  cbn [Nat.add].
  split; [ reflexivity | ].
  destruct (entry_for_status this e mintId i r) as (_ & t' & m).
  split; [ exact t' | exact m ].
Qed.

Lemma bulkSend_batch_witness :
  "DM-BULK-TEST" <> "" /\ Tests.recipients <> [] /\
  exists batch,
    ChittyDLVR.bulkSend (host := Sample.host) Tests.test_dlvr Tests.bulk_at_noon
      (JS.String "DM-BULK-TEST") (Some Tests.recipients) = JS.Return batch /\
    Batch.totalRecipients batch = 3%nat /\
    (Batch.sent batch + Batch.failed batch = 3)%nat.
Proof.
  assert (n : "DM-BULK-TEST" <> "") by discriminate.
  assert (r : Tests.recipients <> []) by discriminate.
  split; [ exact n | split; [ exact r | ] ].
  destruct (bulkSend_batch (host := Sample.host) Tests.test_dlvr
              Tests.bulk_at_noon "DM-BULK-TEST" Tests.recipients n r)
    as (batch & eq & total & _ & sum & _).
  exists batch. split; [ exact eq | ]. split; [ exact total | ].
  rewrite sum. exact total.
Defined.

(** ** Base64 *)

Section Base64Facts.
Import JS Base64.
Local Open Scope N_scope.

Lemma list_ind3 {A} (P : list A -> Prop) :
  P [] -> (forall a, P [a]) -> (forall a b, P [a; b]) ->
  (forall a b c l, P l -> P (a :: b :: c :: l)) ->
  forall l, P l.
Proof.
  intros p0 p1 p2 step l.
  enough (all : P l /\ (forall a, P (a :: l)) /\ (forall a b, P (a :: b :: l)))
    by apply all.
  induction l as [ | x l (h0 & h1 & h2) ].
  - auto.
  - repeat split; auto.
Qed.

Ltac euclid := zify; Z.to_euclidean_division_equations; lia.

(** A property of the sixty-four digits, checked on each of them. *)
Lemma below_64 (ok : N -> bool) :
  forallb ok (map N.of_nat (seq 0 64)) = true ->
  forall n, n < 64 -> ok n = true.
Proof.
  intros all n small.
  rewrite forallb_forall in all. apply all.
  rewrite <- (N2Nat.id n). apply in_map, in_seq. lia.
Qed.

Lemma sextet_digit n : n < 64 -> sextet (digit n) = Some n.
Proof.
  intros small.
  pose proof (below_64
                (fun n => match sextet (digit n) with
                          | Some m => m =? n
                          | None => false
                          end) eq_refl n small) as ok.
  cbv beta in ok. destruct (sextet (digit n)); [ | discriminate ].
  apply N.eqb_eq in ok. now subst.
Qed.

Lemma digit_plain n :
  n < 64 -> is_whitespace (digit n) = false /\ is_pad (digit n) = false.
Proof.
  intros small.
  pose proof (below_64
                (fun n => negb (is_whitespace (digit n))
                          && negb (is_pad (digit n)))%bool
                eq_refl n small) as ok.
  cbv beta in ok. apply andb_prop in ok.
  destruct ok as (w & p). apply negb_true_iff in w, p. now split.
Qed.

Lemma strip_padding_digit c rest :
  is_pad c = false -> strip_padding (c :: rest) = c :: strip_padding rest.
Proof.
  intros plain. cbn [strip_padding forallb]. now rewrite plain.
Qed.

Lemma sextets_digits groups :
  Forall (fun n => n < 64) groups -> sextets (map digit groups) = Some groups.
Proof.
  induction 1 as [ | n rest small _ IH ]; cbn [map sextets]; [ reflexivity | ].
  now rewrite (sextet_digit n small), IH.
Qed.

Lemma encode_decodable octets :
  Forall (fun n => n < 256) octets -> decodable octets.
Proof.
  induction octets as [ | a | a b | a b c rest IH ] using list_ind3;
    intros bounded.
  - repeat split. exists []. repeat split; [ constructor | discriminate ].
  - inversion_clear bounded as [ | ? ? ha _ ].
    assert (s1 : a / 4 < 64) by euclid.
    assert (s2 : a mod 4 * 16 < 64) by euclid.
    destruct (digit_plain _ s1) as (w1 & p1), (digit_plain _ s2) as (w2 & p2).
    unfold decodable. cbn [encode List.filter List.length].
    rewrite w1, w2. repeat split.
    exists [a / 4; a mod 4 * 16].
    rewrite !strip_padding_digit by assumption.
    repeat split.
    + repeat constructor; assumption.
    + discriminate.
    + cbn [decode]. f_equal. euclid.
  - inversion_clear bounded as [ | ? ? ha bounded' ].
    inversion_clear bounded' as [ | ? ? hb _ ].
    assert (s1 : a / 4 < 64) by euclid.
    assert (s2 : a mod 4 * 16 + b / 16 < 64) by euclid.
    assert (s3 : b mod 16 * 4 < 64) by euclid.
    destruct (digit_plain _ s1) as (w1 & p1), (digit_plain _ s2) as (w2 & p2),
      (digit_plain _ s3) as (w3 & p3).
    unfold decodable. cbn [encode List.filter List.length].
    rewrite w1, w2, w3. repeat split.
    exists [a / 4; a mod 4 * 16 + b / 16; b mod 16 * 4].
    rewrite !strip_padding_digit by assumption.
    repeat split.
    + repeat constructor; assumption.
    + discriminate.
    + cbn [decode]. f_equal; [ euclid | f_equal; euclid ].
  - inversion_clear bounded as [ | ? ? ha bounded' ].
    inversion_clear bounded' as [ | ? ? hb bounded ].
    inversion_clear bounded as [ | ? ? hc bounded' ].
    destruct (IH bounded') as (nows & len & groups & strip & small & rest1 & dec).
    assert (s1 : a / 4 < 64) by euclid.
    assert (s2 : a mod 4 * 16 + b / 16 < 64) by euclid.
    assert (s3 : b mod 16 * 4 + c / 64 < 64) by euclid.
    assert (s4 : c mod 64 < 64) by euclid.
    destruct (digit_plain _ s1) as (w1 & p1), (digit_plain _ s2) as (w2 & p2),
      (digit_plain _ s3) as (w3 & p3), (digit_plain _ s4) as (w4 & p4).
    unfold decodable. cbn [encode List.filter List.length].
    rewrite w1, w2, w3, w4. cbn [negb]. rewrite nows.
    split; [ reflexivity | ].
    split.
    { change (S (S (S (S (List.length (encode rest))))))
        with (4 + List.length (encode rest))%nat.
      rewrite Nat.add_comm.
      change 4%nat with (1 * 4)%nat at 1.
      now rewrite Nat.Div0.mod_add. }
    exists (a / 4 :: a mod 4 * 16 + b / 16 :: b mod 16 * 4 + c / 64
              :: c mod 64 :: groups).
    rewrite !strip_padding_digit by assumption. rewrite strip.
    repeat split.
    + repeat constructor; assumption.
    + cbn [List.length].
      change (S (S (S (S (List.length groups))))) with (4 + List.length groups)%nat.
      rewrite Nat.add_comm.
      change 4%nat with (1 * 4)%nat at 1.
      now rewrite Nat.Div0.mod_add.
    + cbn [decode]. rewrite dec. f_equal; [ euclid | ].
      f_equal; [ euclid | ]. f_equal. euclid.
Qed.

Lemma codes_bounded chars :
  Forall (fun n => n < 256) (map N_of_ascii chars).
Proof.
  induction chars; cbn; constructor; [ apply N_ascii_bounded | assumption ].
Qed.

Lemma characters_of_codes chars :
  map ascii_of_N (map N_of_ascii chars) = chars.
Proof.
  induction chars as [ | c rest IH ]; cbn; [ reflexivity | ].
  now rewrite ascii_N_embedding, IH.
Qed.

(** [atob] undoes [btoa]. *)
Lemma atob_btoa binary : atob (btoa binary) = Return binary.
Proof.
  unfold atob, btoa.
  rewrite list_ascii_of_string_of_list_ascii.
  destruct (encode_decodable _ (codes_bounded (list_ascii_of_string binary)))
    as (nows & len & groups & strip & small & rest & dec).
  rewrite nows, len. cbn [Nat.eqb]. rewrite strip, length_map.
  destruct (Nat.eqb_spec (List.length groups mod 4) 1); [ contradiction | ].
  rewrite (sextets_digits _ small), dec, characters_of_codes.
  now rewrite string_of_list_ascii_of_string.
Qed.

Lemma append_empty (s : string) : (s ++ "")%string = s.
Proof.
  induction s as [ | a s IH ]; [ reflexivity | ].
  change (String.String a (s ++ "") = String.String a s). now f_equal.
Qed.

Lemma append_cons (s : string) c rest :
  ((s ++ String.String c "") ++ rest)%string
  = (s ++ String.String c rest)%string.
Proof.
  induction s as [ | a s IH ]; [ reflexivity | ].
  change (String.String a ((s ++ String.String c "") ++ rest)
          = String.String a (s ++ String.String c rest)).
  now f_equal.
Qed.

Lemma binary_of_buffer buffer : forall prefix,
  fold_left (fun binary b => binary ++ String.String (ascii_of_byte b) "")%string
    buffer prefix
  = (prefix ++ string_of_list_byte buffer)%string.
Proof.
  induction buffer as [ | b rest IH ]; intros prefix; cbn [fold_left].
  - now rewrite append_empty.
  - rewrite IH. apply append_cons.
Qed.

(** Decoding what [bufferToBase64] wrote gives the buffer back. *)
Lemma bytes_of_bufferToBase64 `{host : Host} `{crypto : WebCrypto} buffer :
  bytes_of_base64 (ReceiptEngine.bufferToBase64 buffer) = Return buffer.
Proof.
  unfold bytes_of_base64, ReceiptEngine.bufferToBase64.
  rewrite binary_of_buffer.
  change (("" ++ string_of_list_byte buffer)%string)
    with (string_of_list_byte buffer).
  rewrite atob_btoa. cbn [bind].
  now rewrite list_byte_of_string_of_list_byte.
Qed.

End Base64Facts.

(** ** The receipt engine *)

Section Receipts.
Context `{host : Host} `{crypto : WebCrypto}.
Import JS ReceiptEngine Reach.

Lemma fetchDrandRound_returns fetched :
  exists drand, fetchDrandRound fetched = Return drand.
Proof.
  unfold fetchDrandRound.
  match goal with
  | |- exists _, try_catch ?body _ = _ => destruct body as [ drand | error ]
  end; cbn [try_catch]; eauto.
Qed.

Lemma fetchDrandRound_unavailable fetched :
  unavailable fetched -> fetchDrandRound fetched = Return None.
Proof.
  unfold fetchDrandRound.
  intros [ (error & ->) | (response & -> & [ no | [ (error & ej) | (data & ej & l) ] ]) ];
    cbn [bind try_catch].
  - reflexivity.
  - now rewrite no.
  - destruct (Response.ok response); cbn [negb]; [ | reflexivity ].
    now rewrite ej.
  - destruct (Response.ok response); cbn [negb]; [ | reflexivity ].
    rewrite ej. cbn [bind]. unfold lacks in l.
    destruct (member data "round") as [ round | ] eqn:er;
      cbn [bind try_catch]; [ | reflexivity ].
    destruct (truthy round) eqn:tr; cbn [negb]; [ | reflexivity ].
    destruct (member data "randomness") as [ randomness | ] eqn:en;
      cbn [bind try_catch]; [ | reflexivity ].
    destruct (truthy randomness) eqn:tn; cbn [negb]; [ | reflexivity ].
    destruct (member data "signature") as [ signature | ] eqn:eg;
      cbn [bind try_catch]; [ | reflexivity ].
    destruct (truthy signature) eqn:tg; cbn [negb]; [ | reflexivity ].
    destruct l as [ l | [ l | l ] ].
    + rewrite (l _ eq_refl) in tr. discriminate.
    + rewrite (l _ eq_refl) in tn. discriminate.
    + rewrite (l _ eq_refl) in tg. discriminate.
Qed.

Context `{laws : !WebCryptoLaws}.

Lemma import_signing_key_works jwk kp :
  import_signing_key jwk = Return kp ->
  working_pair (privateKey kp) (publicKey kp).
Proof.
  unfold import_signing_key.
  set (keyData := match jwk with String text => JSON_parse text | _ => Return jwk end).
  destruct keyData as [ keyData | ]; cbn [bind try_catch]; [ | discriminate ].
  destruct (importKey_jwk_sign keyData) as [ sk | ] eqn:es;
    cbn [bind try_catch]; [ | discriminate ].
  destruct (importKey_jwk_verify _) as [ pk | ] eqn:ev;
    cbn [bind try_catch]; [ | discriminate ].
  intros [= <-]. exact (importKey_works keyData sk pk es ev).
Qed.

Lemma generate_ephemeral_key_works entropy kp :
  generate_ephemeral_key entropy = Return kp ->
  working_pair (privateKey kp) (publicKey kp).
Proof.
  unfold generate_ephemeral_key.
  destruct (generateKey entropy) as [ [sk pk] | ] eqn:eg;
    cbn [bind try_catch]; [ | discriminate ].
  intros [= <-]. exact (generateKey_works entropy sk pk eg).
Qed.

Lemma getServiceKeyPair_consistent e this result this' :
  consistent this ->
  getServiceKeyPair e this = (result, this') ->
  consistent this' /\
  _receipts this' = _receipts this /\
  forall kp, result = Return kp ->
             _keyPair this' = Some kp /\
             working_pair (privateKey kp) (publicKey kp).
Proof.
  intros cons. pose proof cons as (keys & receipts).
  unfold getServiceKeyPair.
  destruct (_keyPair this) as [ kp | ] eqn:ek.
  - intros [= <- <-].
    split; [ exact cons | ]. split; [ reflexivity | ].
    intros kp' [= <-]. split; [ exact ek | now apply keys ].
  - set (loaded := if truthy (signingKeyJwk this) then _ else _).
    assert (works : forall kp, loaded = Return kp ->
                               working_pair (privateKey kp) (publicKey kp)).
    { intros kp. unfold loaded. destruct (truthy (signingKeyJwk this)).
      - apply import_signing_key_works.
      - apply generate_ephemeral_key_works. }
    destruct loaded as [ kp | error ].
    + intros [= <- <-].
      split; [ split | ].
      * intros kp' [= <-]. now apply works.
      * exact receipts.
      * split; [ reflexivity | ].
        intros kp' [= <-]. split; [ reflexivity | now apply works ].
    + intros [= <- <-].
      split; [ exact cons | ]. split; [ reflexivity | ].
      intros kp e'. discriminate.
Qed.

(** A receipt that passes the platform's check verifies. *)
Lemma verify_authentic now receiptId r this :
  authentic r ->
  exists v, verify now receiptId (Some r) this = Return v /\
            Verification.verified v = true /\
            Verification.signatureValid v = Some true /\
            Verification.verificationError v = None.
Proof.
  intros (sg & keyData & key & sigBytes & es & ek & ei & eb & ev).
  unfold verify.
  change (Some r ≫= Receipt.signature) with (Receipt.signature r).
  rewrite es.
  rewrite ek. cbn [bind]. rewrite ei. cbn [bind]. rewrite eb. cbn [bind].
  rewrite ev. cbn [bind try_catch].
  eexists. split; [ reflexivity | ]. repeat split.
Qed.


Lemma create_consistent e options this result this' :
  consistent this ->
  create e options this = (result, this') ->
  consistent this' /\
  forall r, result = Return r ->
    getById (Receipt.receiptId r) this' = Some r /\
    authentic r /\
    Receipt.status r = "VALID" /\
    (fetchDrandRound (fetched e) = Return None -> Receipt.drand r = None) /\
    exists sg kp signatureBuffer,
      Receipt.signature r = Some sg /\
      _keyPair this' = Some kp /\
      subtle_sign (privateKey kp) (nonce e)
        (TextEncoder_encode (Signature.signedPayload sg))
      = Return signatureBuffer /\
      Signature.value sg = bufferToBase64 signatureBuffer.
Proof.
  intros cons. unfold create, and_then, lift, store, ret.
  destruct (fetchDrandRound_returns (fetched e)) as (drand & ->).
  destruct (getServiceKeyPair e this) as [ [ kp | error ] this1 ] eqn:eg;
    destruct (getServiceKeyPair_consistent _ _ _ _ cons eg)
      as (cons1 & same & got).
  2:{ intros [= <- <-]. split; [ exact cons1 | discriminate ]. }
  destruct (got kp eq_refl) as (cached & works).
  match goal with
  | |- context [subtle_sign _ _ ?data] =>
      destruct (works (nonce e) data)
        as (sig & spki & pk' & esig & espki & ei & ev)
  end.
  rewrite esig, espki.
  intros [= <- <-].
  match type of ev with
  | context [TextEncoder_encode ?p] => set (payload := p) in *
  end.
  assert (auth : forall r sg,
             Receipt.signature r = Some sg ->
             Signature.publicKey sg = bufferToBase64 spki ->
             Signature.value sg = bufferToBase64 sig ->
             Signature.signedPayload sg = payload ->
             authentic r).
  { intros r sg es ep evl epl. exists sg, spki, pk', sig.
    rewrite ep, evl, epl, !bytes_of_bufferToBase64. now repeat split. }
  split.
  - destruct cons1 as (keys & receipts). split.
    + exact keys.
    + intros id r. cbn [_receipts Receipt.receiptId].
      destruct (decide (generateReceiptId e = id)) as [ <- | ne ].
      * rewrite lookup_insert_eq. intros [= <-].
        split; [ reflexivity | ]. eapply auth; reflexivity.
      * rewrite lookup_insert_ne by exact ne. apply receipts.
  - intros r [= <-]. unfold getById. cbn [_receipts Receipt.receiptId].
    split; [ apply lookup_insert_eq | ].
    split; [ eapply auth; reflexivity | ].
    split; [ reflexivity | ].
    split; [ now intros [= ->] | ].
    eexists. exists kp, sig.
    split; [ reflexivity | ].
    split; [ exact cached | ].
    split; [ exact esig | reflexivity ].
Qed.


Lemma create_returns e options this kp this1 :
  consistent this ->
  getServiceKeyPair e this = (Return kp, this1) ->
  exists r this', create e options this = (Return r, this').
Proof.
  intros cons eg. unfold create, and_then, lift, store, ret.
  destruct (fetchDrandRound_returns (fetched e)) as (drand & ->).
  rewrite eg.
  destruct (getServiceKeyPair_consistent _ _ _ _ cons eg) as (_ & _ & got).
  destruct (got kp eq_refl) as (_ & works).
  match goal with
  | |- context [subtle_sign _ _ ?data] =>
      destruct (works (nonce e) data) as (sig & spki & pk' & -> & -> & _)
  end.
  eauto.
Qed.

Lemma new_consistent jwk : consistent (new jwk).
Proof.
  split.
  - intros kp. discriminate.
  - intros id r. cbn [_receipts new]. now rewrite lookup_empty.
Qed.

(** What was consistent stays so, and a stored identifier stays stored. *)
Lemma evolves_consistent start this :
  evolves start this -> consistent start ->
  consistent this /\
  forall id, is_Some (getById id start) -> is_Some (getById id this).
Proof.
  induction 1 as [ | this e options result this' _ IH step
                   | this e result this' _ IH step ]; intros cons.
  - now split.
  - destruct (IH cons) as (cons' & kept).
    split; [ exact (proj1 (create_consistent _ _ _ _ _ cons' step)) | ].
    intros id stored. specialize (kept id stored).
    revert step. unfold create, and_then, lift, store, ret.
    destruct (fetchDrandRound_returns (fetched e)) as (drand & ->).
    destruct (getServiceKeyPair e this) as [ [ kp | error ] this1 ] eqn:eg;
      destruct (getServiceKeyPair_consistent _ _ _ _ cons' eg)
        as (_ & same & _).
    2:{ intros [= <- <-]. unfold getById in *. rewrite same. exact kept. }
    destruct (subtle_sign _ _ _);
      [ | intros [= <- <-]; unfold getById in *; rewrite same; exact kept ].
    destruct (exportKey_spki _);
      [ | intros [= <- <-]; unfold getById in *; rewrite same; exact kept ].
    intros [= <- <-]. unfold getById in *. cbn [_receipts].
    rewrite lookup_insert_is_Some', same. right. exact kept.
  - destruct (IH cons) as (cons' & kept).
    destruct (getServiceKeyPair_consistent _ _ _ _ cons' step)
      as (cons'' & same & _).
    split; [ exact cons'' | ].
    intros id stored. unfold getById in *. rewrite same. apply kept, stored.
Qed.

Lemma reachable_consistent this : reachable this -> consistent this.
Proof.
  intros (jwk & steps).
  exact (proj1 (evolves_consistent _ _ steps (new_consistent jwk))).
Qed.

(** Without receipt data [verify] takes the stored receipt. *)
Lemma verify_stored now id r this :
  getById id this = Some r ->
  verify now id None this = verify now id (Some r) this.
Proof. intros stored. unfold verify. now rewrite stored. Qed.

End Receipts.

(** ** The sample platform keeps the contract *)

Section SampleLaws.
Import JS Sample.

Lemma list_byte_eqb_refl x : list_byte_eqb x x = true.
Proof. apply String.eqb_refl. Qed.

Lemma list_byte_eqb_eq x y : list_byte_eqb x y = true -> x = y.
Proof.
  unfold list_byte_eqb. intros e. apply String.eqb_eq in e.
  rewrite <- (list_byte_of_string_of_list_byte x),
    <- (list_byte_of_string_of_list_byte y).
  now rewrite e.
Qed.

Lemma key_of_nonempty v key : key_of v = Return key -> key <> [].
Proof.
  destruct v as [ | | | | [ | c rest ] | | ]; try discriminate.
  intros [= <-]. discriminate.
Qed.

Lemma own_delete (fields : list (string * value)) removed name :
  removed <> name -> own (delete removed fields) name = own fields name.
Proof.
  intros different. unfold delete.
  induction fields as [ | [ k v ] rest IH ]; [ reflexivity | ].
  cbn [List.filter own fst].
  destruct (String.eqb_spec k removed) as [ -> | keep ]; cbn [negb own].
  - destruct (String.eqb_spec removed name); [ contradiction | exact IH ].
  - destruct (String.eqb k name); [ reflexivity | exact IH ].
Qed.

Lemma sample_pair_works (key : list byte) :
  key <> [] -> working_pair (crypto := crypto) key key.
Proof.
  intros nonempty nonce data.
  exists (key ++ data)%list, key, key.
  destruct key as [ | b rest ]; [ contradiction | ].
  repeat split.
  change (Return (list_byte_eqb ((b :: rest) ++ data) ((b :: rest) ++ data))
          = Return true).
  now rewrite list_byte_eqb_refl.
Qed.

Lemma sample_laws : WebCryptoLaws (crypto := crypto).
Proof.
  split.
  - intros entropy sk pk. cbn.
    destruct entropy as [ | b rest ]; [ discriminate | ].
    intros [= <- <-]. now apply sample_pair_works.
  - intros keyData sk pk. cbn.
    destruct (key_of (jwk_member keyData "d")) as [ d | ] eqn:ed;
      cbn [bind]; [ | discriminate ].
    destruct (key_of (jwk_member keyData "x")) as [ x | ] eqn:ex;
      cbn [bind]; [ | discriminate ].
    destruct (list_byte_eqb d x) eqn:same; [ | discriminate ].
    apply list_byte_eqb_eq in same. subst x.
    intros [= <-].
    destruct keyData as [ | | | | | | fields ]; try discriminate ed.
    cbn [spread jwk_member] in *.
    rewrite own_delete by discriminate. rewrite ex.
    intros [= <-]. apply sample_pair_works.
    exact (key_of_nonempty _ _ ed).
Qed.
End SampleLaws.

(** ** Receipts: creation, verification, tampering, anchoring *)

Section Stored.
Context `{host : Host} `{crypto : WebCrypto} `{laws : !WebCryptoLaws}.
Import JS ReceiptEngine Reach.

(** A receipt [create] returned verifies by its identifier as long as
    the engine lives. *)
Lemma created_receipt_verifies this e options r this' later now :
  consistent this ->
  create e options this = (Return r, this') ->
  evolves this' later ->
  exists v,
    verify now (Receipt.receiptId r) None later = Return v /\
    Verification.verified v = true /\
    Verification.signatureValid v = Some true.
Proof.
  intros cons created steps.
  destruct (create_consistent _ _ _ _ _ cons created) as (cons' & facts).
  destruct (facts r eq_refl) as (stored & _).
  destruct (evolves_consistent _ _ steps cons') as (cons'' & kept).
  destruct (kept (Receipt.receiptId r)) as (r' & stored').
  { rewrite stored. eauto. }
  rewrite (verify_stored _ _ _ _ stored').
  destruct cons'' as (_ & receipts).
  destruct (receipts _ _ stored') as (_ & auth).
  destruct (verify_authentic now (Receipt.receiptId r) r' later auth)
    as (v & ev & t & sv & _).
  exists v. now repeat split.
Qed.
End Stored.

(** C2. A receipt that [create] returned is stored under its
    identifier, the payload it stores is the text whose bytes were signed,
    and [verify] of its identifier without receipt data, then and after
    whatever the engine does later, returns a result with [verified]
    true. *)
Theorem create_then_verify `{host : Host} `{crypto : WebCrypto} `{laws : !WebCryptoLaws}
    this e options r this' :
  Reach.reachable this ->
  ReceiptEngine.create e options this = (JS.Return r, this') ->
  (exists sg kp signatureBuffer,
      Receipt.signature r = Some sg /\
      ReceiptEngine._keyPair this' = Some kp /\
      subtle_sign (ReceiptEngine.privateKey kp) (ReceiptEngine.nonce e)
        (TextEncoder_encode (Signature.signedPayload sg))
      = JS.Return signatureBuffer /\
      Signature.value sg = ReceiptEngine.bufferToBase64 signatureBuffer) /\
  ReceiptEngine.getById (Receipt.receiptId r) this' = Some r /\
  forall later now,
    Reach.evolves this' later ->
    exists v,
      ReceiptEngine.verify now (Receipt.receiptId r) None later
      = JS.Return v /\
      Verification.verified v = true /\
      Verification.signatureValid v = Some true.
Proof.
  intros reach created.
  pose proof (reachable_consistent _ reach) as cons.
  destruct (create_consistent _ _ _ _ _ cons created) as (cons' & facts).
  destruct (facts r eq_refl) as (stored & _ & _ & _ & signed).
  split; [ exact signed | ]. split; [ exact stored | ].
  intros later now steps.
  exact (created_receipt_verifies _ _ _ _ _ later now cons created steps).
Qed.

Lemma create_then_verify_witness :
  Reach.reachable (host := Sample.host) (crypto := Sample.crypto) Sample.fresh /\
  match Sample.created with
  | (JS.Return r, this') =>
      exists v,
        ReceiptEngine.verify (host := Sample.host) (crypto := Sample.crypto) 0%N
          (Receipt.receiptId r) None this'
        = JS.Return v /\
        Verification.verified v = true
  | (JS.Throw _, _) => False
  end.
Proof.
  assert (reach : Reach.reachable (host := Sample.host) (crypto := Sample.crypto)
                    Sample.fresh)
    by (exists JS.Null; constructor).
  split; [ exact reach | ].
  destruct Sample.created as [ [ r | error ] this' ] eqn:created.
  - destruct (create_then_verify (laws := sample_laws)
                Sample.fresh Sample.offline Sample.options r this'
                reach created) as (_ & _ & later).
    destruct (later this' 0%N (Reach.evolves_refl _)) as (v & ev & t & _).
    exists v. split; [ exact ev | exact t ].
  - vm_compute in created. discriminate created.
Defined.

(** C3. What [verify] returns for receipt data is the same on every
    engine, whatever key pair or receipts it holds, and is the same for
    receipt data that embed the same public key, signature and signed
    payload. *)
Theorem verify_self_contained `{host : Host} `{crypto : WebCrypto} now receiptId :
  (forall data this this',
      ReceiptEngine.verify now receiptId (Some data) this
      = ReceiptEngine.verify now receiptId (Some data) this') /\
  (forall data data' sg sg' this this',
      Receipt.signature data = Some sg ->
      Receipt.signature data' = Some sg' ->
      Signature.publicKey sg = Signature.publicKey sg' ->
      Signature.value sg = Signature.value sg' ->
      Signature.signedPayload sg = Signature.signedPayload sg' ->
      ReceiptEngine.verify now receiptId (Some data) this
      = ReceiptEngine.verify now receiptId (Some data') this').
Proof.
  split; [ reflexivity | ].
  intros data data' sg sg' this this' es es' ek ev ep.
  unfold ReceiptEngine.verify.
  change (Some data ≫= Receipt.signature) with (Receipt.signature data).
  change (Some data' ≫= Receipt.signature) with (Receipt.signature data').
  now rewrite es, es', ek, ev, ep.
Qed.

Lemma verify_self_contained_witness :
  ReceiptEngine.verify (host := Sample.host) (crypto := Sample.crypto) 0%N
    "DR-SAMPLE" (Some Sample.genuine) Sample.fresh
  = ReceiptEngine.verify (host := Sample.host) (crypto := Sample.crypto) 0%N
      "DR-SAMPLE" (Some Sample.genuine) (snd Sample.created).
Proof.
  exact (proj2 (verify_self_contained (host := Sample.host)
                  (crypto := Sample.crypto) 0%N "DR-SAMPLE")
           Sample.genuine Sample.genuine _ _ Sample.fresh
           (snd Sample.created) eq_refl eq_refl eq_refl eq_refl eq_refl).
Defined.

Section EngineSteps.
Context `{host : Host} `{crypto : WebCrypto}.
Import JS ReceiptEngine Reach.

(** What a call of [getServiceKeyPair] leaves of the engine. *)
Lemma getServiceKeyPair_step e this result this' :
  getServiceKeyPair e this = (result, this') ->
  _receipts this' = _receipts this /\
  signingKeyJwk this' = signingKeyJwk this /\
  (forall kp, _keyPair this = Some kp -> result = Return kp /\ this' = this) /\
  (forall kp, result = Return kp -> _keyPair this' = Some kp) /\
  (forall error, result = Throw error -> this' = this).
Proof.
  unfold getServiceKeyPair.
  destruct (_keyPair this) as [ kp | ] eqn:ek.
  - intros [= <- <-].
    split; [ reflexivity | ]. split; [ reflexivity | ].
    split; [ intros kp' [= <-]; now split | ].
    split; [ intros kp' [= <-]; exact ek | discriminate ].
  - match goal with
    | |- context [if ?c then ?a else ?b] => destruct (if c then a else b)
    end; intros [= <- <-].
    + split; [ reflexivity | ]. split; [ reflexivity | ].
      split; [ intros kp' ek'; discriminate ek' | ].
      split; [ now intros kp' [= <-] | discriminate ].
    + split; [ reflexivity | ]. split; [ reflexivity | ].
      split; [ intros kp' ek'; discriminate ek' | ].
      split; [ discriminate | reflexivity ].
Qed.

(** What a call of [create] leaves of the engine and puts into the
    receipt. *)
Lemma create_step e options this result this' :
  create e options this = (result, this') ->
  signingKeyJwk this' = signingKeyJwk this /\
  (forall kp, _keyPair this = Some kp -> _keyPair this' = Some kp) /\
  (forall error, result = Throw error ->
                 _receipts this' = _receipts this) /\
  (forall r, result = Return r ->
     Receipt.receiptId r = generateReceiptId e /\
     _receipts this' = <[Receipt.receiptId r := r]> (_receipts this) /\
     Receipt.deliveryId r = deliveryId options /\
     Receipt.signer r = signer options /\
     Receipt.method r = default "digital" (method_ options) /\
     Receipt.createdAt r = timestamp options /\
     exists sg kp spki,
       Receipt.signature r = Some sg /\
       _keyPair this' = Some kp /\
       exportKey_spki (publicKey kp) = Return spki /\
       Signature.publicKey sg = bufferToBase64 spki).
Proof.
  unfold create, and_then, lift, store, ret.
  destruct (fetchDrandRound_returns (fetched e)) as (drand & ->).
  destruct (getServiceKeyPair e this) as [ [ kp | error ] this1 ] eqn:eg;
    destruct (getServiceKeyPair_step _ _ _ _ eg)
      as (same & jwk & cached & got & failed).
  2:{ intros [= <- <-]. rewrite (failed error eq_refl).
      split; [ reflexivity | ]. split; [ auto | ].
      split; [ reflexivity | discriminate ]. }
  assert (keeps : forall kp0, _keyPair this = Some kp0 ->
                              _keyPair this1 = Some kp0).
  { intros kp0 ek. destruct (cached kp0 ek) as (_ & ->). exact ek. }
  destruct (subtle_sign _ _ _) as [ sig | error ].
  2:{ intros [= <- <-]. split; [ exact jwk | ]. split; [ exact keeps | ].
      split; [ intros _ _; exact same | discriminate ]. }
  destruct (exportKey_spki (publicKey kp)) as [ spki | error ] eqn:ex.
  2:{ intros [= <- <-]. split; [ exact jwk | ]. split; [ exact keeps | ].
      split; [ intros _ _; exact same | discriminate ]. }
  intros [= <- <-]. cbn [signingKeyJwk _keyPair _receipts].
  split; [ exact jwk | ]. split; [ exact keeps | ].
  split; [ discriminate | ].
  intros r [= <-]. cbn [Receipt.receiptId Receipt.deliveryId Receipt.signer
                          Receipt.method Receipt.createdAt Receipt.signature].
  split; [ reflexivity | ]. split; [ now rewrite same | ].
  do 4 (split; [ reflexivity | ]).
  eexists. exists kp, spki.
  split; [ reflexivity | ]. split; [ exact (got kp eq_refl) | ].
  split; [ exact ex | reflexivity ].
Qed.

(** A cached key pair stays cached. *)
Lemma evolves_keeps_key start later kp :
  _keyPair start = Some kp -> evolves start later -> _keyPair later = Some kp.
Proof.
  intros ek. induction 1 as [ | this e options result this' _ IH step
                              | this e result this' _ IH step ].
  - exact ek.
  - exact (proj1 (proj2 (create_step _ _ _ _ _ step)) kp IH).
  - destruct (getServiceKeyPair_step _ _ _ _ step) as (_ & _ & cached & _).
    destruct (cached kp IH) as (_ & ->). exact IH.
Qed.
End EngineSteps.

Section Tampering.
Context `{host : Host} `{crypto : WebCrypto}.
Import JS ReceiptEngine Reach.

(** [verify] on a signature block: the verdict of the platform, or the
    flagged result when getting to it failed. *)
Lemma verify_verdict now receiptId data sg this :
  Receipt.signature data = Some sg ->
  verify now receiptId (Some data) this
  = match verdict sg with
    | Return valid =>
        Return
          {| Verification.receiptId := receiptId;
             Verification.verified := valid;
             Verification.signatureValid := Some valid;
             Verification.witnessConfirmed := Some true;
             Verification.chainAnchored := Some true;
             Verification.timestamp := Some (toISOString now);
             Verification.verificationError := None;
             Verification.error := None |}
    | Throw error =>
        Return
          {| Verification.receiptId := receiptId;
             Verification.verified := false;
             Verification.signatureValid := None;
             Verification.witnessConfirmed := None;
             Verification.chainAnchored := None;
             Verification.timestamp := None;
             Verification.verificationError := Some true;
             Verification.error :=
               Some ("Verification system error: " ++ message error) |}
    end.
Proof.
  intros es. unfold verify, verdict.
  change (Some data ≫= Receipt.signature) with (Receipt.signature data).
  rewrite es.
  destruct (Base64.bytes_of_base64 (Signature.publicKey sg)); cbn [bind];
    [ | reflexivity ].
  destruct (importKey_spki _); cbn [bind]; [ | reflexivity ].
  destruct (Base64.bytes_of_base64 (Signature.value sg)); cbn [bind];
    [ | reflexivity ].
  destruct (subtle_verify _ _ _); reflexivity.
Qed.
End Tampering.

(** ** Texts that decode to the same octets *)

Section Respelling.
Import JS Base64.
Local Open Scope N_scope.

Ltac euclid := zify; Z.to_euclidean_division_equations; lia.

(** [atob] reads a text as the octets it spells. *)
Lemma atob_spells text octets :
  spells text octets ->
  atob (string_of_list_ascii text)
  = Return (string_of_list_ascii (map ascii_of_N octets)).
Proof.
  intros (nows & len & groups & strip & small & rest & dec).
  unfold atob. rewrite list_ascii_of_string_of_list_ascii.
  rewrite nows, len. cbn [Nat.eqb]. rewrite strip, length_map.
  destruct (Nat.eqb_spec (List.length groups mod 4) 1); [ contradiction | ].
  now rewrite (sextets_digits _ small), dec.
Qed.

(** Whitespace after a text is not read. *)
Lemma atob_spaced text : atob (text ++ " ") = atob text.
Proof.
  unfold atob.
  assert (same : List.filter (fun c => negb (is_whitespace c))
                   (list_ascii_of_string (text ++ " "))
                 = List.filter (fun c => negb (is_whitespace c))
                     (list_ascii_of_string text)).
  { induction text as [ | c text IH ]; [ reflexivity | ].
    change (String.String c text ++ " ")%string
      with (String.String c (text ++ " ")).
    cbn [list_ascii_of_string List.filter]. now rewrite IH. }
  now rewrite same.
Qed.

Lemma spaced_differs (text : string) : (text ++ " ")%string <> text.
Proof.
  intros same. apply (f_equal String.length) in same.
  revert same. induction text as [ | c text IH ]; [ discriminate | ].
  change (String.String c text ++ " ")%string
    with (String.String c (text ++ " ")).
  cbn [String.length]. intros same. apply IH. now injection same.
Qed.

Lemma next_digit n : n < 64 -> Tamper.next (digit n) = digit (n + 1).
Proof. intros small. unfold Tamper.next. now rewrite sextet_digit. Qed.

Lemma digit_injective n m : n < 64 -> m < 64 -> digit n = digit m -> n = m.
Proof.
  intros sn sm same. apply (f_equal sextet) in same.
  rewrite !sextet_digit in same by assumption. now injection same.
Qed.

(** What [encode] writes for octets that are not none begins with four
    characters. *)
Lemma encode_four octets :
  octets <> [] ->
  exists w x y z rest, encode octets = w :: x :: y :: z :: rest.
Proof.
  destruct octets as [ | a [ | b [ | c rest ] ] ]; [ contradiction | | | ];
    intros _; cbn [encode]; eauto 6.
Qed.

(** The respelled text of 3 n + 1 octets spells the same octets, and is
    another text of the same length. *)
Lemma respell_spells octets :
  Forall (fun n => n < 256) octets ->
  (List.length octets mod 3 = 1)%nat ->
  spells (Tamper.respell_chars (encode octets)) octets /\
  Tamper.respell_chars (encode octets) <> encode octets /\
  List.length (Tamper.respell_chars (encode octets))
  = List.length (encode octets).
Proof.
  induction octets as [ | a | a b | a b c rest IH ] using list_ind3;
    intros bounded len; try discriminate len.
  - inversion_clear bounded as [ | ? ? ha _ ].
    assert (s1 : a / 4 < 64) by euclid.
    assert (s2 : a mod 4 * 16 < 64) by euclid.
    assert (s2' : a mod 4 * 16 + 1 < 64) by euclid.
    destruct (digit_plain _ s1) as (w1 & p1),
      (digit_plain _ s2') as (w2 & p2).
    cbn [encode Tamper.respell_chars is_pad Ascii.eqb Bool.eqb andb].
    rewrite (next_digit _ s2).
    split; [ | split; [ | reflexivity ] ].
    + unfold spells. cbn [List.filter List.length].
      rewrite w1, w2. repeat split.
      exists [a / 4; a mod 4 * 16 + 1].
      rewrite !strip_padding_digit by assumption.
      repeat split.
      * repeat constructor; assumption.
      * discriminate.
      * cbn [decode]. f_equal. euclid.
    + intros same. injection same as same.
      apply digit_injective in same; [ lia | assumption | assumption ].
  - inversion_clear bounded as [ | ? ? ha bounded' ].
    inversion_clear bounded' as [ | ? ? hb bounded ].
    inversion_clear bounded as [ | ? ? hc bounded' ].
    assert (more : rest <> []) by (intros ->; discriminate len).
    destruct (encode_four rest more) as (w & x & y & z & tail & four).
    assert (len' : (List.length rest mod 3 = 1)%nat).
    { cbn [List.length] in len.
      change (S (S (S (List.length rest)))) with (3 + List.length rest)%nat
        in len.
      rewrite Nat.add_comm in len. change 3%nat with (1 * 3)%nat in len at 1.
      now rewrite Nat.Div0.mod_add in len. }
    destruct (IH bounded' len')
      as ((nows & len4 & groups & strip & small & rest1 & dec) & differs
          & same_length).
    assert (unfolded :
              Tamper.respell_chars (encode (a :: b :: c :: rest))
              = digit (a / 4) :: digit (a mod 4 * 16 + b / 16)
                  :: digit (b mod 16 * 4 + c / 64) :: digit (c mod 64)
                  :: Tamper.respell_chars (encode rest)).
    { cbn [encode]. rewrite four. reflexivity. }
    rewrite unfolded. clear unfolded.
    assert (s1 : a / 4 < 64) by euclid.
    assert (s2 : a mod 4 * 16 + b / 16 < 64) by euclid.
    assert (s3 : b mod 16 * 4 + c / 64 < 64) by euclid.
    assert (s4 : c mod 64 < 64) by euclid.
    destruct (digit_plain _ s1) as (w1 & p1), (digit_plain _ s2) as (w2 & p2),
      (digit_plain _ s3) as (w3 & p3), (digit_plain _ s4) as (w4 & p4).
    split; [ | split ].
    + unfold spells. cbn [List.filter List.length].
      rewrite w1, w2, w3, w4. cbn [negb]. rewrite nows.
      split; [ reflexivity | ].
      split.
      { change (S (S (S (S (List.length
                              (Tamper.respell_chars (encode rest)))))))
          with (4 + List.length (Tamper.respell_chars (encode rest)))%nat.
        rewrite Nat.add_comm.
        change 4%nat with (1 * 4)%nat at 1.
        now rewrite Nat.Div0.mod_add. }
      exists (a / 4 :: a mod 4 * 16 + b / 16 :: b mod 16 * 4 + c / 64
                :: c mod 64 :: groups).
      rewrite !strip_padding_digit by assumption. rewrite strip.
      repeat split.
      * repeat constructor; assumption.
      * cbn [List.length].
        change (S (S (S (S (List.length groups)))))
          with (4 + List.length groups)%nat.
        rewrite Nat.add_comm.
        change 4%nat with (1 * 4)%nat at 1.
        now rewrite Nat.Div0.mod_add.
      * cbn [decode]. rewrite dec. f_equal; [ euclid | ].
        f_equal; [ euclid | ]. f_equal. euclid.
    + cbn [encode]. intros same. apply differs. now injection same.
    + cbn [encode List.length]. now rewrite same_length.
Qed.

End Respelling.

Section RespelledBuffer.
Import JS Base64.

Lemma length_of_buffer (buffer : list byte) :
  List.length (list_ascii_of_string (string_of_list_byte buffer))
  = List.length buffer.
Proof.
  induction buffer as [ | b rest IH ]; [ reflexivity | ].
  cbn [string_of_list_byte list_ascii_of_string List.length map].
  now rewrite <- IH.
Qed.

(** The text [bufferToBase64] writes for 3 n + 1 octets, respelled: another
    text of the same length that decodes to the same octets. *)
Lemma respelled_buffer buffer :
  (List.length buffer mod 3 = 1)%nat ->
  Tamper.respell (ReceiptEngine.bufferToBase64 buffer)
  <> ReceiptEngine.bufferToBase64 buffer /\
  String.length (Tamper.respell (ReceiptEngine.bufferToBase64 buffer))
  = String.length (ReceiptEngine.bufferToBase64 buffer) /\
  bytes_of_base64 (Tamper.respell (ReceiptEngine.bufferToBase64 buffer))
  = Return buffer.
Proof.
  intros len.
  unfold ReceiptEngine.bufferToBase64, Tamper.respell, btoa.
  rewrite binary_of_buffer.
  change (("" ++ string_of_list_byte buffer)%string)
    with (string_of_list_byte buffer).
  rewrite list_ascii_of_string_of_list_ascii.
  set (octets := map N_of_ascii
                   (list_ascii_of_string (string_of_list_byte buffer))).
  assert (len' : (List.length octets mod 3 = 1)%nat)
    by (unfold octets; now rewrite length_map, length_of_buffer).
  destruct (respell_spells octets (codes_bounded _) len')
    as (spelled & differs & same_length).
  split; [ | split ].
  - intros same. apply differs.
    apply (f_equal list_ascii_of_string) in same.
    now rewrite !list_ascii_of_string_of_list_ascii in same.
  - assert (length_of : forall chars,
               String.length (string_of_list_ascii chars) = List.length chars).
    { induction chars as [ | c chars IH ]; [ reflexivity | ].
      cbn [string_of_list_ascii String.length List.length]. now rewrite IH. }
    now rewrite !length_of.
  - unfold bytes_of_base64. rewrite (atob_spells _ _ spelled). cbn [bind].
    unfold octets. rewrite characters_of_codes.
    now rewrite string_of_list_ascii_of_string,
      list_byte_of_string_of_list_byte.
Qed.

Lemma spaced_decodes text :
  bytes_of_base64 (text ++ " ") = bytes_of_base64 text.
Proof. unfold bytes_of_base64. now rewrite atob_spaced. Qed.

End RespelledBuffer.

Section Verdicts.
Context `{host : Host} `{crypto : WebCrypto}.
Import JS ReceiptEngine Reach.

(** [verify] never throws. *)
Lemma verify_always_returns now receiptId receiptData this :
  exists v, verify now receiptId receiptData this = Return v.
Proof.
  unfold verify.
  destruct (_ ≫= Receipt.signature) as [ sg | ]; [ | eauto ].
  destruct (Base64.bytes_of_base64 (Signature.publicKey sg));
    cbn [bind try_catch]; [ | eauto ].
  destruct (importKey_spki _); cbn [bind try_catch]; [ | eauto ].
  destruct (Base64.bytes_of_base64 (Signature.value sg));
    cbn [bind try_catch]; [ | eauto ].
  destruct (subtle_verify _ _ _); cbn [bind try_catch]; eauto.
Qed.

(** The verdict throws exactly when decoding fails or the check throws. *)
Lemma verdict_throws sg :
  (exists error, verdict sg = Throw error) <-> undecodable sg \/ check_fails sg.
Proof.
  unfold verdict, undecodable, check_fails.
  destruct (Base64.bytes_of_base64 (Signature.publicKey sg))
    as [ keyData | e1 ]; cbn [bind].
  2:{ split; [ intros _; left; left; eauto | eauto ]. }
  destruct (importKey_spki keyData) as [ key | e2 ] eqn:ei; cbn [bind].
  2:{ split; [ intros _; left; right; left; eauto | eauto ]. }
  destruct (Base64.bytes_of_base64 (Signature.value sg))
    as [ sigBytes | e3 ]; cbn [bind].
  2:{ split; [ intros _; left; right; right; eauto | eauto ]. }
  split.
  - intros (error & thrown). right. exists keyData, key, sigBytes, error.
    now repeat split.
  - intros [ [ (error & bad) | [ (keyData' & error & [= <-] & bad)
                               | (error & bad) ] ]
           | (keyData' & key' & sigBytes' & error & [= <-] & ei' & [= <-]
              & thrown) ];
      try discriminate bad.
    + rewrite ei in bad. discriminate bad.
    + rewrite ei in ei'. injection ei' as <-. eauto.
Qed.

(** A verdict of true is what makes a record authentic. *)
Lemma verdict_authentic data sg :
  Receipt.signature data = Some sg ->
  verdict sg = Return true <-> authentic data.
Proof.
  intros es. unfold verdict, authentic. split.
  - destruct (Base64.bytes_of_base64 (Signature.publicKey sg))
      as [ keyData | ] eqn:ek; cbn [bind]; [ | discriminate ].
    destruct (importKey_spki keyData) as [ key | ] eqn:ei; cbn [bind];
      [ | discriminate ].
    destruct (Base64.bytes_of_base64 (Signature.value sg))
      as [ sigBytes | ] eqn:eb; cbn [bind]; [ | discriminate ].
    intros passed. exists sg, keyData, key, sigBytes. now repeat split.
  - intros (sg' & keyData & key & sigBytes & es' & ek & ei & eb & passed).
    rewrite es in es'. injection es' as <-.
    rewrite ek. cbn [bind]. rewrite ei. cbn [bind]. rewrite eb. exact passed.
Qed.

(** What [verify] returns for a record that has a signature block. *)
Lemma verify_result now receiptId data sg this :
  Receipt.signature data = Some sg ->
  exists v,
    verify now receiptId (Some data) this = Return v /\
    (Verification.verified v = true <-> authentic data) /\
    (Verification.verificationError v = Some true <->
     undecodable sg \/ check_fails sg) /\
    (Verification.verificationError v = Some true ->
     Verification.verified v = false /\
     Verification.signatureValid v = None) /\
    (Verification.verificationError v <> Some true ->
     Verification.verificationError v = None /\
     Verification.signatureValid v = Some (Verification.verified v)).
Proof.
  intros es. rewrite (verify_verdict now receiptId data sg this es).
  pose proof (verdict_authentic data sg es) as passes.
  pose proof (verdict_throws sg) as throws.
  destruct (verdict sg) as [ valid | error ]; eexists;
    (split; [ reflexivity | ]);
    cbn [Verification.verified Verification.verificationError
         Verification.signatureValid].
  - split.
    { rewrite <- passes. split; [ now intros -> | now intros [= ->] ]. }
    split.
    { rewrite <- throws.
      split; [ discriminate | intros (e & bad); discriminate bad ]. }
    split; [ discriminate | now intros _ ].
  - split; [ rewrite <- passes; split; discriminate | ].
    split; [ rewrite <- throws; split; eauto | ].
    split; [ now intros _ | intros flagged; now destruct flagged ].
Qed.

(** Records that embed the same key and payload and signature texts
    that decode alike get the same result. *)
Lemma verify_same_bytes now receiptId data sg data' sg' this this' :
  Receipt.signature data = Some sg ->
  Receipt.signature data' = Some sg' ->
  Signature.publicKey sg' = Signature.publicKey sg ->
  Signature.signedPayload sg' = Signature.signedPayload sg ->
  Base64.bytes_of_base64 (Signature.value sg')
  = Base64.bytes_of_base64 (Signature.value sg) ->
  verify now receiptId (Some data') this'
  = verify now receiptId (Some data) this.
Proof.
  intros es es' ek ep eb.
  rewrite (verify_verdict now receiptId data sg this es),
    (verify_verdict now receiptId data' sg' this' es').
  unfold verdict. now rewrite ek, ep, eb.
Qed.

Lemma tampered_signature change r sg :
  Receipt.signature r = Some sg ->
  Receipt.signature (Tamper.signature change r) = Some (change sg).
Proof. intros es. cbn [Tamper.signature Receipt.signature]. now rewrite es. Qed.

Section Binding.
Context `{binding : !SignatureLaws}.

(** Under one key and signature only one payload passes. *)
Lemma changed_payload_fails data sg data' sg' :
  authentic data ->
  Receipt.signature data = Some sg ->
  Receipt.signature data' = Some sg' ->
  Signature.publicKey sg' = Signature.publicKey sg ->
  Base64.bytes_of_base64 (Signature.value sg')
  = Base64.bytes_of_base64 (Signature.value sg) ->
  TextEncoder_encode (Signature.signedPayload sg')
  <> TextEncoder_encode (Signature.signedPayload sg) ->
  ~ authentic data'.
Proof.
  intros (sg0 & keyData & key & sigBytes & es0 & ek & ei & eb & passed)
    es es' same_key same_value changed
    (sg1 & keyData' & key' & sigBytes' & es1 & ek' & ei' & eb' & passed').
  rewrite es in es0. injection es0 as <-.
  rewrite es' in es1. injection es1 as <-.
  rewrite same_key, ek in ek'. injection ek' as <-.
  rewrite ei in ei'. injection ei' as <-.
  rewrite same_value, eb in eb'. injection eb' as <-.
  apply changed. exact (verify_binds _ _ _ _ passed' passed).
Qed.

Context `{laws : !WebCryptoLaws}.

(** A record that passes under the key of a receipt of [create] carries
    a signature that the engine's private key gives for its payload. *)
Lemma passes_only_signed this e options r this' sg :
  reachable this ->
  create e options this = (Return r, this') ->
  Receipt.signature r = Some sg ->
  authentic r /\
  exists kp,
    _keyPair this' = Some kp /\
    forall data' sg',
      Receipt.signature data' = Some sg' ->
      Signature.publicKey sg' = Signature.publicKey sg ->
      authentic data' ->
      exists sigBytes nonce,
        Base64.bytes_of_base64 (Signature.value sg') = Return sigBytes /\
        subtle_sign (privateKey kp) nonce
          (TextEncoder_encode (Signature.signedPayload sg'))
        = Return sigBytes.
Proof.
  intros reach created es.
  pose proof (reachable_consistent _ reach) as cons.
  destruct (create_consistent _ _ _ _ _ cons created) as (cons' & facts).
  destruct (facts r eq_refl) as (_ & auth & _).
  split; [ exact auth | ].
  destruct (create_step _ _ _ _ _ created) as (_ & _ & _ & made).
  destruct (made r eq_refl)
    as (_ & _ & _ & _ & _ & _ & sg0 & kp & spki & es0 & ek & ex & ep).
  rewrite es in es0. injection es0 as <-.
  exists kp. split; [ exact ek | ].
  intros data' sg' es' same_key
    (sg1 & keyData & key & sigBytes & es1 & ekd & ei & eb & passed).
  rewrite es' in es1. injection es1 as <-.
  rewrite same_key, ep, bytes_of_bufferToBase64 in ekd. injection ekd as <-.
  destruct cons' as (pairs & _).
  destruct (verify_sound _ _ _ _ _ _ (pairs kp ek) ex ei passed)
    as (nonce & signed).
  exists sigBytes, nonce. now split.
Qed.

End Binding.
End Verdicts.

Section SampleSignatures.
Import JS Sample.

Lemma sample_signature_laws : SignatureLaws (crypto := crypto).
Proof.
  split.
  - intros key sig data data'. cbn.
    intros [= passed] [= passed'].
    apply list_byte_eqb_eq in passed, passed'.
    rewrite passed in passed'. exact (app_inv_head _ _ _ passed').
  - intros sk pk spki pk' sig data works. cbn.
    destruct (works [] []) as (sig0 & spki0 & pk0 & signed & ex & im & ok).
    cbn in signed, ex, im, ok.
    injection ex as <-.
    destruct pk as [ | b pk ]; [ discriminate im | ]. injection im as <-.
    destruct sk as [ | a sk ]; [ discriminate signed | ].
    injection signed as <-. injection ok as ok.
    apply list_byte_eqb_eq in ok. rewrite !app_nil_r in ok.
    intros [= <-] [= <-] [= passed]. apply list_byte_eqb_eq in passed.
    exists []. now rewrite ok, passed.
Qed.

(** On the sample platform one signature passes for a key and its
    bytes. *)
Lemma sample_signatures_unique (key sig sig' data : list byte) :
  subtle_verify (WebCrypto := crypto) key sig data = Return true ->
  subtle_verify (WebCrypto := crypto) key sig' data = Return true ->
  sig' = sig.
Proof.
  cbn. intros [= passed] [= passed'].
  apply list_byte_eqb_eq in passed, passed'. now rewrite passed, passed'.
Qed.

End SampleSignatures.

(** C4, as the code has it. [verify] never throws on a receipt record.
    When the embedded key or the signature is not base64, the key does not
    import, or the platform's check throws, the result has [verified]
    false and is flagged with [verificationError]; the result of a plain
    mismatch is not flagged and has [signatureValid] false. For a record
    that verifies, a change of [signedPayload] that changes the bytes it
    encodes to yields [verified] false, the signature binding the bytes
    that were signed. A change of [signature.value] that is no base64
    yields the flagged result; one that decodes to the same octets leaves
    the result as it was; and whatever is changed in a record that keeps
    the key of a receipt of [create], it verifies only if its signature
    octets are what the engine's private key gives for its payload. Where
    no second signature passes for a key and its bytes, every change of
    [signature.value] that changes the octets it decodes to yields
    [verified] false. *)
Theorem verify_reports_tampering `{host : Host} `{crypto : WebCrypto}
    `{laws : !WebCryptoLaws} `{binding : !SignatureLaws} now receiptId :
  (forall data this,
      exists v,
        ReceiptEngine.verify now receiptId (Some data) this = JS.Return v /\
        (Verification.verificationError v = Some true ->
         Verification.verified v = false /\
         Verification.signatureValid v = None) /\
        (forall sg,
            Receipt.signature data = Some sg ->
            (Verification.verificationError v = Some true <->
             Reach.undecodable sg \/ Reach.check_fails sg) /\
            (Verification.verificationError v <> Some true ->
             Verification.verificationError v = None /\
             Verification.signatureValid v
             = Some (Verification.verified v)))) /\
  (forall data sg this v data' sg' this',
      Receipt.signature data = Some sg ->
      ReceiptEngine.verify now receiptId (Some data) this = JS.Return v ->
      Verification.verified v = true ->
      Receipt.signature data' = Some sg' ->
      Signature.publicKey sg' = Signature.publicKey sg ->
      Base64.bytes_of_base64 (Signature.value sg')
      = Base64.bytes_of_base64 (Signature.value sg) ->
      TextEncoder_encode (Signature.signedPayload sg')
      <> TextEncoder_encode (Signature.signedPayload sg) ->
      exists v',
        ReceiptEngine.verify now receiptId (Some data') this' = JS.Return v'
        /\ Verification.verified v' = false) /\
  (forall data sg this data' sg' this',
      Receipt.signature data = Some sg ->
      Receipt.signature data' = Some sg' ->
      Signature.publicKey sg' = Signature.publicKey sg ->
      Signature.signedPayload sg' = Signature.signedPayload sg ->
      (Base64.bytes_of_base64 (Signature.value sg')
       = Base64.bytes_of_base64 (Signature.value sg) ->
       ReceiptEngine.verify now receiptId (Some data') this'
       = ReceiptEngine.verify now receiptId (Some data) this) /\
      ((exists error,
           Base64.bytes_of_base64 (Signature.value sg') = JS.Throw error) ->
       exists v',
         ReceiptEngine.verify now receiptId (Some data') this' = JS.Return v'
         /\ Verification.verified v' = false
         /\ Verification.verificationError v' = Some true)) /\
  (forall this e options r this' sg,
      Reach.reachable this ->
      ReceiptEngine.create e options this = (JS.Return r, this') ->
      Receipt.signature r = Some sg ->
      exists kp,
        ReceiptEngine._keyPair this' = Some kp /\
        forall data' sg' engine v',
          Receipt.signature data' = Some sg' ->
          Signature.publicKey sg' = Signature.publicKey sg ->
          ReceiptEngine.verify now receiptId (Some data') engine
          = JS.Return v' ->
          Verification.verified v' = true ->
          exists sigBytes nonce,
            Base64.bytes_of_base64 (Signature.value sg')
            = JS.Return sigBytes /\
            subtle_sign (ReceiptEngine.privateKey kp) nonce
              (TextEncoder_encode (Signature.signedPayload sg'))
            = JS.Return sigBytes) /\
  ((forall key sig sig' bytes,
       subtle_verify key sig bytes = JS.Return true ->
       subtle_verify key sig' bytes = JS.Return true -> sig' = sig) ->
   forall data sg this v data' sg' this',
     Receipt.signature data = Some sg ->
     ReceiptEngine.verify now receiptId (Some data) this = JS.Return v ->
     Verification.verified v = true ->
     Receipt.signature data' = Some sg' ->
     Signature.publicKey sg' = Signature.publicKey sg ->
     Signature.signedPayload sg' = Signature.signedPayload sg ->
     Base64.bytes_of_base64 (Signature.value sg')
     <> Base64.bytes_of_base64 (Signature.value sg) ->
     exists v',
       ReceiptEngine.verify now receiptId (Some data') this' = JS.Return v'
       /\ Verification.verified v' = false).
Proof.
  split; [ | split; [ | split; [ | split ] ] ].
  - intros data this.
    destruct (Receipt.signature data) as [ sg | ] eqn:es.
    + destruct (verify_result now receiptId data sg this es)
        as (v & ev & _ & flagged & failed & plain).
      exists v. split; [ exact ev | ]. split; [ exact failed | ].
      intros sg' [= <-]. now split.
    + unfold ReceiptEngine.verify.
      change (Some data ≫= Receipt.signature) with (Receipt.signature data).
      rewrite es. eexists. split; [ reflexivity | ].
      split; [ discriminate | ]. intros sg' bad. discriminate bad.
  - intros data sg this v data' sg' this' es ev passed es' same_key
      same_value changed.
    destruct (verify_result now receiptId data sg this es)
      as (v0 & ev0 & genuine & _).
    rewrite ev in ev0. injection ev0 as <-.
    destruct (verify_result now receiptId data' sg' this' es')
      as (v' & ev' & genuine' & _).
    exists v'. split; [ exact ev' | ].
    destruct (Verification.verified v') eqn:passed'; [ | reflexivity ].
    destruct (changed_payload_fails data sg data' sg'
                (proj1 genuine passed) es es' same_key same_value changed
                (proj1 genuine' eq_refl)).
  - intros data sg this data' sg' this' es es' same_key same_payload.
    split.
    + intros same_bytes.
      exact (verify_same_bytes now receiptId data sg data' sg' this this'
               es es' same_key same_payload same_bytes).
    + intros (error & bad).
      destruct (verify_result now receiptId data' sg' this' es')
        as (v' & ev' & _ & flagged & failed & _).
      exists v'. split; [ exact ev' | ].
      assert (flag : Verification.verificationError v' = Some true).
      { apply flagged. left. right. right. eauto. }
      split; [ exact (proj1 (failed flag)) | exact flag ].
  - intros this e options r this' sg reach created es.
    destruct (passes_only_signed this e options r this' sg reach created es)
      as (_ & kp & ek & only).
    exists kp. split; [ exact ek | ].
    intros data' sg' engine v' es' same_key ev' passed'.
    destruct (verify_result now receiptId data' sg' engine es')
      as (v0 & ev0 & genuine' & _).
    rewrite ev' in ev0. injection ev0 as <-.
    exact (only data' sg' es' same_key (proj1 genuine' passed')).
  - intros unique data sg this v data' sg' this' es ev passed es' same_key
      same_payload changed.
    destruct (verify_result now receiptId data sg this es)
      as (v0 & ev0 & genuine & _).
    rewrite ev in ev0. injection ev0 as <-.
    destruct (verify_result now receiptId data' sg' this' es')
      as (v' & ev' & genuine' & _).
    exists v'. split; [ exact ev' | ].
    destruct (Verification.verified v') eqn:passed'; [ | reflexivity ].
    destruct (proj1 genuine passed)
      as (sg0 & keyData & key & sigBytes & es0 & ek & ei & eb & ok).
    destruct (proj1 genuine' eq_refl)
      as (sg1 & keyData' & key' & sigBytes' & es1 & ek' & ei' & eb' & ok').
    rewrite es in es0. injection es0 as <-.
    rewrite es' in es1. injection es1 as <-.
    rewrite same_key, ek in ek'. injection ek' as <-.
    rewrite ei in ei'. injection ei' as <-.
    rewrite same_payload in ok'.
    destruct changed. rewrite eb, eb'. f_equal.
    exact (unique _ _ _ _ ok ok').
Qed.

Lemma verify_reports_tampering_witness :
  match Sample.created with
  | (JS.Return r, this') =>
      exists v v' v'',
        ReceiptEngine.verify (host := Sample.host) (crypto := Sample.crypto)
          0%N (Receipt.receiptId r) (Some r) this' = JS.Return v /\
        Verification.verified v = true /\
        ReceiptEngine.verify (host := Sample.host) (crypto := Sample.crypto)
          0%N (Receipt.receiptId r)
          (Some (Tamper.payload "{}" r)) this' = JS.Return v' /\
        Verification.verified v' = false /\
        ReceiptEngine.verify (host := Sample.host) (crypto := Sample.crypto)
          0%N (Receipt.receiptId r)
          (Some (Tamper.value "AAAA" r)) this' = JS.Return v'' /\
        Verification.verified v'' = false
  | (JS.Throw _, _) => False
  end.
Proof.
  destruct Sample.created as [ [ r | error ] this' ] eqn:created;
    [ | vm_compute in created; discriminate created ].
  assert (reach : Reach.reachable (host := Sample.host)
                    (crypto := Sample.crypto) Sample.fresh)
    by (exists JS.Null; constructor).
  destruct (create_consistent (host := Sample.host) (crypto := Sample.crypto)
              (laws := sample_laws) _ _ _ _ _
              (reachable_consistent (host := Sample.host)
                 (crypto := Sample.crypto) (laws := sample_laws) _ reach)
              created) as (_ & facts).
  destruct (facts r eq_refl) as (_ & auth & _ & _ & sg & _ & _ & es & _).
  destruct (verify_authentic (host := Sample.host) (crypto := Sample.crypto)
              0%N (Receipt.receiptId r) r this' auth) as (v & ev & passed & _).
  pose proof (verify_reports_tampering (host := Sample.host)
                (crypto := Sample.crypto) (laws := sample_laws)
                (binding := sample_signature_laws) 0%N (Receipt.receiptId r))
    as (_ & payload & _ & _ & value).
  destruct (payload r sg this' v (Tamper.payload "{}" r)
              (Tamper.with_payload "{}" sg) this' es ev passed
              (tampered_signature _ r sg es) eq_refl eq_refl)
    as (v' & ev' & failed).
  { vm_compute in created. injection created as <- _.
    vm_compute in es. injection es as <-. vm_compute. discriminate. }
  destruct (value sample_signatures_unique r sg this' v
              (Tamper.value "AAAA" r) (Tamper.with_value "AAAA" sg) this'
              es ev passed (tampered_signature _ r sg es) eq_refl eq_refl)
    as (v'' & ev'' & failed').
  { vm_compute in created. injection created as <- _.
    vm_compute in es. injection es as <-. vm_compute. discriminate. }
  exists v, v', v''. now repeat split.
Defined.

(** C4 does not hold of every changed byte of [signature.value]. On
    every platform that keeps the contract, a receipt of [create] still
    verifies with a space put after its signature text, and, when the
    signature has 3 n + 1 octets as the 64 of P-256 have, with the digit
    before the padding replaced by the next one; so it is for the receipt
    of the sample call. *)
Lemma verify_accepts_respelled_signature :
  (forall (host : Host) (crypto : WebCrypto),
      WebCryptoLaws ->
      forall this e options r this' sg now,
        Reach.reachable this ->
        ReceiptEngine.create e options this = (JS.Return r, this') ->
        Receipt.signature r = Some sg ->
        (Signature.value sg ++ " " <> Signature.value sg /\
         exists v,
           ReceiptEngine.verify now (Receipt.receiptId r)
             (Some (Tamper.value (Signature.value sg ++ " ") r)) this'
           = JS.Return v /\
           Verification.verified v = true) /\
        (forall signatureBuffer,
            Signature.value sg = ReceiptEngine.bufferToBase64 signatureBuffer ->
            (List.length signatureBuffer mod 3 = 1)%nat ->
            Tamper.respell (Signature.value sg) <> Signature.value sg /\
            String.length (Tamper.respell (Signature.value sg))
            = String.length (Signature.value sg) /\
            exists v,
              ReceiptEngine.verify now (Receipt.receiptId r)
                (Some (Tamper.value (Tamper.respell (Signature.value sg)) r))
                this'
              = JS.Return v /\
              Verification.verified v = true)) /\
  match Sample.created_padded with
  | (JS.Return r, this') =>
      match Receipt.signature r with
      | Some sg =>
          Tamper.respell (Signature.value sg) <> Signature.value sg /\
          exists v,
            ReceiptEngine.verify (host := Sample.host)
              (crypto := Sample.crypto) 0%N (Receipt.receiptId r)
              (Some (Tamper.value (Tamper.respell (Signature.value sg)) r))
              this'
            = JS.Return v /\
            Verification.verified v = true
      | None => False
      end
  | (JS.Throw _, _) => False
  end.
Proof.
  split.
  - intros host crypto laws this e options r this' sg now reach created es.
    pose proof (reachable_consistent _ reach) as cons.
    destruct (create_consistent _ _ _ _ _ cons created) as (_ & facts).
    destruct (facts r eq_refl) as (_ & auth & _).
    destruct (verify_authentic now (Receipt.receiptId r) r this' auth)
      as (v & ev & passed & _).
    assert (respelled : forall text,
               Base64.bytes_of_base64 text
               = Base64.bytes_of_base64 (Signature.value sg) ->
               exists v,
                 ReceiptEngine.verify now (Receipt.receiptId r)
                   (Some (Tamper.value text r)) this' = JS.Return v /\
                 Verification.verified v = true).
    { intros text same. exists v. split; [ | exact passed ].
      rewrite <- ev.
      exact (verify_same_bytes now (Receipt.receiptId r) r sg
               (Tamper.value text r) (Tamper.with_value text sg) this' this'
               es (tampered_signature _ r sg es) eq_refl eq_refl same). }
    split.
    + split; [ apply spaced_differs | ].
      apply respelled, spaced_decodes.
    + intros signatureBuffer written len.
      destruct (respelled_buffer signatureBuffer len)
        as (differs & same_length & decodes).
      rewrite written.
      split; [ exact differs | ]. split; [ exact same_length | ].
      rewrite <- written. apply respelled.
      now rewrite written, decodes, bytes_of_bufferToBase64.
  - vm_compute. split; [ discriminate | ].
    eexists. split; reflexivity.
Qed.

(** C6, as the code has it. [fetchDrandRound] never throws. When the
    request fails, the answer is not a success, the body does not parse, or
    the payload lacks [round], [randomness] or [signature], it returns
    null; [create], given that the signing key loads, then still returns a
    receipt, valid and signed, whose anchor block is null, and [verify] of
    its identifier returns a result with [verified] true. An answer is no
    success when its status lies outside 200 to 299, which is what
    [response.ok] tells: an answer with a status other than 200 in that
    range and a complete payload is taken as a round. *)
Theorem anchor_fails_open `{host : Host} `{crypto : WebCrypto}
    `{laws : !WebCryptoLaws} :
  (forall fetched,
      exists drand, ReceiptEngine.fetchDrandRound fetched = JS.Return drand)
  /\
  (forall fetched,
      Reach.unavailable fetched ->
      ReceiptEngine.fetchDrandRound fetched = JS.Return None) /\
  (forall this e options kp this1 now,
      Reach.reachable this ->
      Reach.unavailable (ReceiptEngine.fetched e) ->
      ReceiptEngine.getServiceKeyPair e this = (JS.Return kp, this1) ->
      exists r this' v,
        ReceiptEngine.create e options this = (JS.Return r, this') /\
        Receipt.drand r = None /\
        Receipt.status r = "VALID" /\
        Receipt.signature r <> None /\
        ReceiptEngine.verify now (Receipt.receiptId r) None this'
        = JS.Return v /\
        Verification.verified v = true) /\
  (forall response,
      Response.conforming response ->
      (Response.status response < 200 \/ 299 < Response.status response)%N ->
      Reach.unavailable (JS.Return response) /\
      ReceiptEngine.fetchDrandRound (JS.Return response) = JS.Return None) /\
  (forall response data round randomness signature,
      Response.conforming response ->
      (200 <= Response.status response <= 299)%N ->
      Response.json response = JS.Return data ->
      JS.member data "round" = JS.Return round ->
      JS.truthy round = true ->
      JS.member data "randomness" = JS.Return randomness ->
      JS.truthy randomness = true ->
      JS.member data "signature" = JS.Return signature ->
      JS.truthy signature = true ->
      ReceiptEngine.fetchDrandRound (JS.Return response)
      = JS.Return
          (Some {| ReceiptEngine.round := round;
                   ReceiptEngine.randomness := randomness;
                   ReceiptEngine.signature := signature |})).
Proof.
  split; [ exact fetchDrandRound_returns | ].
  split; [ exact fetchDrandRound_unavailable | ].
  split.
  2:{ split.
      - intros response conforms outside.
        assert (no : Response.ok response = false).
        { rewrite conforms. unfold Response.ok_status.
          destruct outside as [ below | above ].
          - apply andb_false_intro1. apply N.leb_gt. exact below.
          - apply andb_false_intro2. apply N.leb_gt. exact above. }
        assert (down : Reach.unavailable (JS.Return response)).
        { right. exists response. split; [ reflexivity | now left ]. }
        split; [ exact down | exact (fetchDrandRound_unavailable _ down) ].
      - intros response data round randomness signature conforms
          (least & most) ej er tr en tn eg tg.
        unfold ReceiptEngine.fetchDrandRound. cbn [JS.bind].
        rewrite conforms. unfold Response.ok_status.
        rewrite (proj2 (N.leb_le _ _) least), (proj2 (N.leb_le _ _) most).
        cbn [andb negb]. rewrite ej. cbn [JS.bind].
        rewrite er. cbn [JS.bind]. rewrite tr. cbn [negb].
        rewrite en. cbn [JS.bind]. rewrite tn. cbn [negb].
        rewrite eg. cbn [JS.bind]. rewrite tg. reflexivity. }
  intros this e options kp this1 now reach down loaded.
  pose proof (reachable_consistent _ reach) as cons.
  destruct (create_returns e options this kp this1 cons loaded)
    as (r & this' & created).
  destruct (create_consistent _ _ _ _ _ cons created) as (_ & facts).
  destruct (facts r eq_refl) as (_ & _ & valid & anchor & sg & _ & _ & es & _).
  destruct (created_receipt_verifies this e options r this' this' now cons
              created (Reach.evolves_refl _)) as (v & ev & t & _).
  exists r, this', v.
  split; [ exact created | ].
  split; [ exact (anchor (fetchDrandRound_unavailable _ down)) | ].
  split; [ exact valid | ].
  split; [ rewrite es; discriminate | ].
  split; [ exact ev | exact t ].
Qed.

Lemma anchor_fails_open_witness :
  Reach.unavailable (ReceiptEngine.fetched Sample.offline) /\
  exists r this' v,
    ReceiptEngine.create (host := Sample.host) (crypto := Sample.crypto)
      Sample.offline Sample.options Sample.fresh = (JS.Return r, this') /\
    Receipt.drand r = None /\
    ReceiptEngine.verify (host := Sample.host) (crypto := Sample.crypto)
      0%N (Receipt.receiptId r) None this' = JS.Return v /\
    Verification.verified v = true.
Proof.
  assert (down : Reach.unavailable (ReceiptEngine.fetched Sample.offline))
    by (left; eexists; reflexivity).
  assert (reach : Reach.reachable (host := Sample.host)
                    (crypto := Sample.crypto) Sample.fresh)
    by (exists JS.Null; constructor).
  split; [ exact down | ].
  destruct (ReceiptEngine.getServiceKeyPair (host := Sample.host)
              (crypto := Sample.crypto) Sample.offline Sample.fresh)
    as [ [ kp | error ] this1 ] eqn:loaded.
  - destruct (proj1 (proj2 (proj2 (anchor_fails_open (host := Sample.host)
                              (crypto := Sample.crypto) (laws := sample_laws))))
                Sample.fresh Sample.offline Sample.options kp this1 0%N
                reach down loaded)
      as (r & this' & v & created & anchor & _ & _ & ev & t).
    exists r, this', v. now repeat split.
  - vm_compute in loaded. discriminate loaded.
Defined.

(** The claim as worded fails for a status such as 201: with a complete
    payload the anchor is taken, and the receipt carries it. *)
Lemma anchor_taken_at_status_201 :
  Response.conforming Sample.answer_201 /\
  Response.status Sample.answer_201 <> 200%N /\
  (exists d,
      ReceiptEngine.fetchDrandRound (JS.Return Sample.answer_201)
      = JS.Return (Some d)) /\
  match ReceiptEngine.create (host := Sample.host) (crypto := Sample.crypto)
          Sample.answered_201 Sample.options Sample.fresh with
  | (JS.Return r, _) => Receipt.drand r <> None
  | (JS.Throw _, _) => False
  end.
Proof.
  split; [ reflexivity | ]. split; [ discriminate | ].
  split; [ eexists; reflexivity | ].
  vm_compute. discriminate.
Qed.

(** ** More on the delivery score *)

Section ScoreRange.
Import JS ChittyDLVR.

(** Splits on whether a name is one of the literal keys it is compared
    with. *)
Ltac by_name :=
  repeat match goal with
         | |- context [String.eqb ?k ?name] =>
             is_var name;
             destruct (String.eqb_spec k name); [ subst name | ]
         end.

Lemma score_in_range method status :
  inherited method = false -> inherited status = false ->
  exists z, 0 <= z <= 100 /\ calculateDeliveryScore method status = int z.
Proof.
  intros im ist. exists (Spec.score method status).
  split; [ | now apply calculateDeliveryScore_spec ].
  clear im ist.
  unfold Spec.score, Spec.base, Spec.multiplier, Spec.methodBase,
    Spec.statusMultiplier.
  cbn [own]. by_name.
  all: vm_compute; split; discriminate.
Qed.

Lemma score_nan method status :
  inherited method = true \/ inherited status = true ->
  calculateDeliveryScore method status = NaN.
Proof.
  unfold calculateDeliveryScore, get.
  intros [ i | i ].
  - assert (o : own methodScores method = None).
    { unfold methodScores; cbn [own]. by_name; try discriminate i.
      reflexivity. }
    rewrite o, i. reflexivity.
  - assert (o : own statusMultipliers status = None).
    { unfold statusMultipliers; cbn [own]. by_name; try discriminate i.
      reflexivity. }
    rewrite o, i. cbn [or_else ToNumber].
    destruct (ToNumber _); reflexivity.
Qed.
End ScoreRange.

(** X1. The delivery score is a whole number from 0 to 100 for names that
    are no members of Object.prototype, and NaN exactly when the method or
    the status is such a member. *)
Theorem delivery_score_range method status :
  (JS.inherited method = false -> JS.inherited status = false ->
   exists z, 0 <= z <= 100 /\
             ChittyDLVR.calculateDeliveryScore method status = JS.int z) /\
  (ChittyDLVR.calculateDeliveryScore method status = JS.NaN <->
   JS.inherited method = true \/ JS.inherited status = true).
Proof.
  split; [ apply score_in_range | ].
  split; [ | apply score_nan ].
  intros nan.
  destruct (JS.inherited method) eqn:im; [ now left | ].
  destruct (JS.inherited status) eqn:ist; [ now right | ].
  destruct (score_in_range method status im ist) as (z & bounds & e).
  rewrite e in nan. exfalso.
  assert (small : forall n : nat, (n <= 100)%nat ->
                                  JS.int (Z.of_nat n) <> JS.NaN).
  { intros n. do 101 (destruct n as [ | n ]; [ intros _; discriminate | ]).
    lia. }
  apply (small (Z.to_nat z)); [ lia | ].
  now rewrite Z2Nat.id by lia.
Qed.

Lemma delivery_score_range_witness :
  JS.inherited "sms" = false /\ JS.inherited "OPENED" = false /\
  exists z, 0 <= z <= 100 /\
            ChittyDLVR.calculateDeliveryScore "sms" "OPENED" = JS.int z.
Proof.
  split; [ reflexivity | split; [ reflexivity | ] ].
  exact (proj1 (delivery_score_range "sms" "OPENED") eq_refl eq_refl).
Defined.

(** X2. Along the life of a delivery the score never falls: for every
    method name that is no member of Object.prototype it is 0 while
    pending, rises from SENT over DELIVERED, OPENED and ACKNOWLEDGED to
    RECEIPTED, where it is the base of the method, and is 0 again when the
    delivery FAILED or BOUNCED. *)
Theorem delivery_score_lifecycle method :
  JS.inherited method = false ->
  let score := ChittyDLVR.calculateDeliveryScore method in
  score "PENDING" = JS.int 0 /\
  SFleb (score "PENDING") (score "SENT") = true /\
  SFleb (score "SENT") (score "DELIVERED") = true /\
  SFleb (score "DELIVERED") (score "OPENED") = true /\
  SFleb (score "OPENED") (score "ACKNOWLEDGED") = true /\
  SFleb (score "ACKNOWLEDGED") (score "RECEIPTED") = true /\
  score "RECEIPTED" = JS.int (Spec.base method) /\
  SFltb (score "REFUSED") (score "DELIVERED") = true /\
  SFltb (JS.int 0) (score "REFUSED") = true /\
  score "FAILED" = JS.int 0 /\
  score "BOUNCED" = JS.int 0.
Proof.
  intros im score. subst score.
  unfold ChittyDLVR.calculateDeliveryScore, JS.get, Spec.base.
  rewrite im. clear im.
  unfold ChittyDLVR.methodScores, Spec.methodBase. cbn [JS.own].
  repeat match goal with
         | |- context [String.eqb ?k ?name] =>
             is_var name;
             destruct (String.eqb_spec k name); [ subst name | ]
         end.
  all: vm_compute; repeat split.
Qed.

Lemma delivery_score_lifecycle_witness :
  JS.inherited "portal" = false /\
  SFleb (ChittyDLVR.calculateDeliveryScore "portal" "SENT")
    (ChittyDLVR.calculateDeliveryScore "portal" "DELIVERED") = true.
Proof.
  split; [ reflexivity | ].
  exact (proj1 (proj2 (proj2 (delivery_score_lifecycle "portal" eq_refl)))).
Defined.

(** ** More on dispatch, send and bulk send *)

Section DispatchOutcomes.
Context `{host : Host}.
Import JS ChittyDLVR Edge.

Ltac by_name :=
  repeat match goal with
         | |- context [String.eqb ?k ?name] =>
             is_var name;
             destruct (String.eqb_spec k name); [ subst name | ]
         end.

(** An own handler answers with its channel, which is the method. *)
Lemma dispatch_own now method opts h :
  own DeliveryChannel.handlers method = Some h ->
  exists fields,
    DeliveryChannel.dispatch now method opts = Return (Object fields) /\
    own fields "channel" = Some (String method) /\
    own fields "dispatched" = Some (Bool true) /\
    own fields "timestamp" = Some (String (DeliveryChannel.timestamp opts)).
Proof.
  unfold DeliveryChannel.dispatch, DeliveryChannel.getHandler, get.
  unfold DeliveryChannel.handlers. cbn [own]. by_name; [ .. | discriminate ].
  all: intros _; eexists; split; [ reflexivity | ]; repeat split.
Qed.

Lemma dispatch_throws now method opts :
  (exists error, DeliveryChannel.dispatch now method opts = Throw error)
  <-> throwing method = true.
Proof.
  unfold throwing.
  destruct (own DeliveryChannel.handlers method) as [ h | ] eqn:o.
  - destruct (dispatch_own now method opts h o) as (fields & -> & _).
    assert (i : inherited method = false).
    { revert o. unfold DeliveryChannel.handlers. cbn [own].
      by_name; try reflexivity. discriminate. }
    rewrite i. split; [ intros (error & e); discriminate e | discriminate ].
  - destruct (inherited method) eqn:i.
    + unfold DeliveryChannel.dispatch, DeliveryChannel.getHandler, get.
      rewrite o, i. cbn [or_else DeliveryChannel.call andb].
      unfold DeliveryChannel.call_inherited.
      destruct (String.eqb method "constructor"); cbn [negb andb].
      { split; [ intros (error & e); discriminate e | discriminate ]. }
      destruct (String.eqb method "toString"); cbn [negb andb].
      { split; [ intros (error & e); discriminate e | discriminate ]. }
      destruct (String.eqb method "__proto__"); split; eauto.
    + rewrite (dispatch_falls_back now method opts o i).
      split; [ intros (error & e); discriminate e | discriminate ].
Qed.

Lemma send_invalid_mintId this e options :
  ~ valid_mintId (mintId options) ->
  send this e options = Throw mintId_required.
Proof.
  intros bad. unfold send.
  destruct (mintId options) as [ | | | | s | | ] eqn:em; try reflexivity.
  destruct (String.eqb_spec s "") as [ -> | ne ]; [ reflexivity | ].
  destruct bad. now exists s.
Qed.

Lemma send_valid_mintId this e options s :
  mintId options = String s -> s <> "" ->
  send this e options
  = let method := default "email" (method options) in
    let deliveryId := generateDeliveryId e in
    let timestamp := toISOString (clock_created e) in
    let* dispatch :=
      DeliveryChannel.dispatch (clock_dispatch e) method
        {| DeliveryChannel.deliveryId := deliveryId;
           DeliveryChannel.address := address options;
           DeliveryChannel.mintId := s;
           DeliveryChannel.timestamp := timestamp |} in
    Return
      {| Delivery.deliveryId := deliveryId;
         Delivery.mintId := s;
         Delivery.from := or (chittyId this) (String "anonymous");
         Delivery.to := to options;
         Delivery.method := method;
         Delivery.address := address options;
         Delivery.dispatch := dispatch;
         Delivery.status := "SENT";
         Delivery.statusHistory :=
           [ ("PENDING", timestamp, "system");
             ("SENT", toISOString (clock_history e), "system") ];
         Delivery.proof_pillar := "delivery";
         Delivery.proof_mintId := s;
         Delivery.proof_deliveryId := deliveryId;
         Delivery.proof_method := method;
         Delivery.proof_score := calculateDeliveryScore method "SENT";
         Delivery.createdAt := timestamp;
         Delivery.sentAt := toISOString (clock_sent e);
         Delivery.deliveredAt := Null;
         Delivery.receiptedAt := Null;
         Delivery.trackingUrl := "https://chitty.cc/track/" ++ deliveryId;
         Delivery.receiptUrl := "https://chitty.cc/receipt/" ++ deliveryId |}.
Proof.
  intros em ne. unfold send. rewrite em.
  cbn [truthy]. destruct (String.eqb_spec s ""); [ contradiction | ].
  reflexivity.
Qed.

Lemma send_returns_iff this e options :
  (exists d, send this e options = Return d) <->
  valid_mintId (mintId options) /\
  throwing (default "email" (method options)) = false.
Proof.
  split.
  - intros (d & sent).
    assert (ok : valid_mintId (mintId options)).
    { unfold send in sent.
      destruct (mintId options) as [ | | | | s | | ]; try discriminate sent.
      exists s. split; [ reflexivity | ].
      intros ->. discriminate sent. }
    split; [ exact ok | ].
    destruct ok as (s & em & ne).
    rewrite (send_valid_mintId this e options s em ne) in sent.
    cbv zeta in sent.
    destruct (throwing _) eqn:t; [ | reflexivity ].
    apply (dispatch_throws (clock_dispatch e)
             (default "email" (method options))
             {| DeliveryChannel.deliveryId := generateDeliveryId e;
                DeliveryChannel.address := address options;
                DeliveryChannel.mintId := s;
                DeliveryChannel.timestamp := toISOString (clock_created e) |})
      in t.
    destruct t as (error & thrown). rewrite thrown in sent.
    discriminate sent.
  - intros ((s & em & ne) & quiet).
    rewrite (send_valid_mintId this e options s em ne). cbv zeta.
    match goal with
    | |- context [DeliveryChannel.dispatch ?n ?m ?o] =>
        destruct (DeliveryChannel.dispatch n m o) as [ meta | error ] eqn:ed
    end.
    + cbn [bind]. eauto.
    + assert (t : throwing (default "email" (method options)) = true)
        by (eapply dispatch_throws; eauto).
      rewrite t in quiet. discriminate quiet.
Qed.
End DispatchOutcomes.

(** X3. What [dispatch] does with each method name. One of the seven
    channel names is answered by its own handler, with that name as
    [channel]; a name that is no member of Object.prototype is answered by
    the e-mail handler; [dispatch] throws exactly for the members of
    Object.prototype other than [constructor] and [toString]. *)
Theorem dispatch_outcomes `{host : Host} now method opts :
  (In method [ "email"; "sms"; "portal"; "api"; "physical"; "inPerson";
               "legalService" ] ->
   exists fields,
     DeliveryChannel.dispatch now method opts = JS.Return (JS.Object fields)
     /\ JS.own fields "channel" = Some (JS.String method)
     /\ JS.own fields "dispatched" = Some (JS.Bool true)) /\
  (JS.own DeliveryChannel.handlers method = None ->
   JS.inherited method = false ->
   DeliveryChannel.dispatch now method opts
   = DeliveryChannel.sendEmail now opts) /\
  ((exists error,
       DeliveryChannel.dispatch now method opts = JS.Throw error)
   <-> Edge.throwing method = true).
Proof.
  split; [ | split ].
  - intros i.
    assert (o : exists h, JS.own DeliveryChannel.handlers method = Some h).
    { cbn [In] in i.
      repeat (destruct i as [ <- | i ]; [ eexists; reflexivity | ]).
      destruct i. }
    destruct o as (h & o).
    destruct (dispatch_own now method opts h o) as (fields & e & c & d & _).
    exists fields. now repeat split.
  - apply dispatch_falls_back.
  - apply dispatch_throws.
Qed.

Lemma dispatch_outcomes_witness :
  In "sms" [ "email"; "sms"; "portal"; "api"; "physical"; "inPerson";
             "legalService" ] /\
  exists fields,
    DeliveryChannel.dispatch (host := Sample.host) 0%N "sms" Tests.sms_options
    = JS.Return (JS.Object fields) /\
    JS.own fields "channel" = Some (JS.String "sms").
Proof.
  assert (i : In "sms" [ "email"; "sms"; "portal"; "api"; "physical";
                         "inPerson"; "legalService" ]) by (cbn; tauto).
  split; [ exact i | ].
  destruct (proj1 (dispatch_outcomes (host := Sample.host) 0%N "sms"
                     Tests.sms_options) i) as (fields & e & c & _).
  exists fields. split; [ exact e | exact c ].
Defined.

(** X4. When [send] fails and what it returns. A [mintId] that is not a
    non-empty string makes it throw "mintId is required and must be a
    string", whatever the method; with a valid [mintId] it returns unless
    the method is a throwing member of Object.prototype. What it returns
    is in status SENT, with the history PENDING then SENT, the mintId, the
    recipient and the method it was given (e-mail when none was), and the
    score of that method at SENT. *)
Theorem send_outcomes `{host : Host} this e options :
  (~ Edge.valid_mintId (ChittyDLVR.mintId options) ->
   ChittyDLVR.send this e options = JS.Throw ChittyDLVR.mintId_required) /\
  ((exists d, ChittyDLVR.send this e options = JS.Return d) <->
   Edge.valid_mintId (ChittyDLVR.mintId options) /\
   Edge.throwing (default "email" (ChittyDLVR.method options)) = false) /\
  (forall d,
      ChittyDLVR.send this e options = JS.Return d ->
      Delivery.status d = "SENT" /\
      map (fun h => fst (fst h)) (Delivery.statusHistory d)
      = [ "PENDING"; "SENT" ] /\
      ChittyDLVR.mintId options = JS.String (Delivery.mintId d) /\
      Delivery.to d = ChittyDLVR.to options /\
      Delivery.method d = default "email" (ChittyDLVR.method options) /\
      Delivery.proof_score d
      = ChittyDLVR.calculateDeliveryScore (Delivery.method d) "SENT" /\
      Delivery.trackingUrl d
      = "https://chitty.cc/track/" ++ Delivery.deliveryId d).
Proof.
  split; [ apply send_invalid_mintId | ].
  split; [ apply send_returns_iff | ].
  intros d sent.
  assert (ok : Edge.valid_mintId (ChittyDLVR.mintId options)).
  { apply (send_returns_iff this e options). eauto. }
  destruct ok as (s & em & ne).
  rewrite (send_valid_mintId this e options s em ne) in sent.
  cbv zeta in sent.
  match type of sent with
  | context [DeliveryChannel.dispatch ?n ?m ?o] =>
      destruct (DeliveryChannel.dispatch n m o) as [ meta | error ]
  end; [ | discriminate sent ].
  cbn [JS.bind] in sent. injection sent as <-.
  now repeat split.
Qed.

Lemma send_outcomes_witness :
  ~ Edge.valid_mintId (ChittyDLVR.mintId Tests.no_mintId) /\
  ChittyDLVR.send (host := Sample.host) Tests.test_dlvr Tests.at_noon
    Tests.no_mintId
  = JS.Throw ChittyDLVR.mintId_required.
Proof.
  assert (bad : ~ Edge.valid_mintId (ChittyDLVR.mintId Tests.no_mintId)).
  { intros (s & e & ne). cbn in e. injection e as <-. now apply ne. }
  split; [ exact bad | ].
  exact (proj1 (send_outcomes (host := Sample.host) Tests.test_dlvr
                  Tests.at_noon Tests.no_mintId) bad).
Defined.

Section BulkOutcomes.
Context `{host : Host}.
Import JS ChittyDLVR Edge.

Lemma entry_for_failed this e mintId i r :
  mintId <> "" ->
  (exists f, Expected.entry_for this e mintId i r = Batch.Failed f)
  <-> unsendable r.
Proof.
  intros ne. unfold Expected.entry_for.
  assert (returns_iff := send_returns_iff this (sends e i)
                           (Expected.options_for mintId r)).
  cbn [Expected.options_for ChittyDLVR.mintId ChittyDLVR.method] in returns_iff.
  assert (own_valid : valid_mintId (default (String mintId) (r_mintId r))
                      <-> ~ exists v, r_mintId r = Some v /\ ~ valid_mintId v).
  { destruct (r_mintId r) as [ v | ]; cbn [default from_option id].
    - split.
      + intros ok (v' & [= <-] & bad). contradiction.
      + intros none.
        destruct v as [ | | | | s | | ];
          try (destruct none; eexists; split; [ reflexivity | ];
               intros (s' & e' & _); discriminate e').
        destruct (String.eqb_spec s "") as [ -> | ne' ].
        * destruct none. eexists. split; [ reflexivity | ].
          intros (s' & [= <-] & bad). now apply bad.
        * now exists s.
    - split.
      + intros _ (v & e' & _). discriminate e'.
      + intros _. now exists mintId. }
  unfold unsendable.
  destruct (send this (sends e i) (Expected.options_for mintId r))
    as [ d | error ] eqn:sent.
  - split; [ intros (f & e'); discriminate e' | ].
    destruct (proj1 returns_iff (ex_intro _ d eq_refl)) as (ok & quiet).
    intros [ bad | loud ].
    + now apply own_valid in ok.
    + rewrite loud in quiet. discriminate quiet.
  - split; [ intros _ | eauto ].
    destruct (throwing (default "email" (r_method r))) eqn:t;
      [ now right | left ].
    destruct (r_mintId r) as [ v | ] eqn:ev.
    + exists v. split; [ reflexivity | ]. intros ok.
      assert (some : exists d, @Throw Delivery.t error = Return d).
      { apply returns_iff. split; [ | reflexivity ].
        apply own_valid. intros (v' & [= <-] & bad). contradiction. }
      destruct some as (d & e'). discriminate e'.
    + assert (some : exists d, @Throw Delivery.t error = Return d).
      { apply returns_iff. split; [ | reflexivity ].
        apply own_valid. intros (v' & e' & _). discriminate e'. }
      destruct some as (d & e'). discriminate e'.
Qed.
End BulkOutcomes.

(** X5. What [bulkSend] rejects. An invalid [mintId] is reported first,
    with the message of [send]; then a recipients argument that is no array
    or is empty, with "recipients must be a non-empty array". It returns a
    batch exactly when the [mintId] is a non-empty string and there is at
    least one recipient. *)
Theorem bulkSend_rejects `{host : Host} this e mintId recipients :
  (~ Edge.valid_mintId mintId ->
   ChittyDLVR.bulkSend this e mintId recipients
   = JS.Throw ChittyDLVR.mintId_required) /\
  (Edge.valid_mintId mintId ->
   recipients = None \/ recipients = Some [] ->
   ChittyDLVR.bulkSend this e mintId recipients
   = JS.Throw (JS.Error "recipients must be a non-empty array")) /\
  ((exists batch,
       ChittyDLVR.bulkSend this e mintId recipients = JS.Return batch) <->
   Edge.valid_mintId mintId /\
   exists first others, recipients = Some (first :: others)).
Proof.
  assert (invalid : ~ Edge.valid_mintId mintId ->
                    ChittyDLVR.bulkSend this e mintId recipients
                    = JS.Throw ChittyDLVR.mintId_required).
  { intros bad. unfold ChittyDLVR.bulkSend.
    destruct mintId as [ | | | | s | | ]; try reflexivity.
    destruct (String.eqb_spec s "") as [ -> | ne ]; [ reflexivity | ].
    destruct bad. now exists s. }
  assert (valid : forall s, s <> "" ->
             ChittyDLVR.bulkSend this e (JS.String s) recipients
             = match recipients with
               | Some (first :: others) =>
                   match ChittyDLVR.bulkSend this e (JS.String s) recipients
                   with
                   | JS.Return batch => JS.Return batch
                   | JS.Throw _ =>
                       JS.Throw
                         (JS.Error "recipients must be a non-empty array")
                   end
               | _ => JS.Throw
                        (JS.Error "recipients must be a non-empty array")
               end /\
             forall first others, recipients = Some (first :: others) ->
               exists batch,
                 ChittyDLVR.bulkSend this e (JS.String s) recipients
                 = JS.Return batch).
  { intros s ne.
    assert (t : JS.truthy (JS.String s) = true).
    { cbn. destruct (String.eqb_spec s ""); [ contradiction | reflexivity ]. }
    unfold ChittyDLVR.bulkSend. rewrite t. cbn [negb].
    destruct recipients as [ [ | first others ] | ].
    - split; [ reflexivity | discriminate ].
    - rewrite for_of_entries. cbn [JS.bind].
      split; [ reflexivity | intros; eauto ].
    - split; [ reflexivity | discriminate ]. }
  split; [ exact invalid | ].
  split.
  - intros (s & -> & ne) [ -> | -> ]; now rewrite (proj1 (valid s ne)).
  - split.
    + intros (batch & e').
      assert (ok : Edge.valid_mintId mintId).
      { destruct mintId as [ | | | | s | | ];
          try (rewrite invalid in e';
               [ discriminate e' | intros (s' & es & _); discriminate es ]).
        destruct (String.eqb_spec s "") as [ -> | ne ].
        - rewrite invalid in e'; [ discriminate e' | ].
          intros (s' & [= <-] & bad). now apply bad.
        - now exists s. }
      split; [ exact ok | ].
      destruct ok as (s & -> & ne).
      destruct recipients as [ [ | first others ] | ]; eauto.
      * rewrite (proj1 (valid s ne)) in e'. discriminate e'.
      * rewrite (proj1 (valid s ne)) in e'. discriminate e'.
    + intros ((s & -> & ne) & first & others & er).
      exact (proj2 (valid s ne) first others er).
Qed.

Lemma bulkSend_rejects_witness :
  Edge.valid_mintId (JS.String "DM-BULK-TEST") /\
  ChittyDLVR.bulkSend (host := Sample.host) Tests.test_dlvr Tests.bulk_at_noon
    (JS.String "DM-BULK-TEST") (Some [])
  = JS.Throw (JS.Error "recipients must be a non-empty array").
Proof.
  assert (ok : Edge.valid_mintId (JS.String "DM-BULK-TEST")).
  { exists "DM-BULK-TEST". split; [ reflexivity | discriminate ]. }
  split; [ exact ok | ].
  exact (proj1 (proj2 (bulkSend_rejects (host := Sample.host) Tests.test_dlvr
                         Tests.bulk_at_noon (JS.String "DM-BULK-TEST")
                         (Some []))) ok (or_intror eq_refl)).
Defined.

(** X6. Which recipients of a batch fail. In the batch [bulkSend]
    returns the entry of a recipient is a FAILED entry exactly when the
    recipient carries an own [mintId] that is not a non-empty string or
    its method is a throwing member of Object.prototype; every other
    recipient, whatever its method name, is SENT. *)
Theorem bulkSend_failures `{host : Host} this e mintId recipients batch :
  ChittyDLVR.bulkSend this e (JS.String mintId) (Some recipients)
  = JS.Return batch ->
  forall i r,
    nth_error recipients i = Some r ->
    exists entry,
      nth_error (Batch.deliveries batch) i = Some entry /\
      (Batch.status entry = "FAILED" <-> Edge.unsendable r) /\
      (Batch.status entry = "SENT" <-> ~ Edge.unsendable r).
Proof.
  intros returned i r at_i.
  assert (ne : mintId <> "").
  { intros ->. discriminate returned. }
  revert returned. unfold ChittyDLVR.bulkSend.
  assert (t : JS.truthy (JS.String mintId) = true).
  { cbn. destruct (String.eqb_spec mintId ""); [ contradiction | reflexivity ]. }
  rewrite t. cbn [negb].
  destruct recipients as [ | first others ]; [ discriminate | ].
  rewrite for_of_entries. cbn [JS.bind app]. intros [= <-].
  cbn [Batch.deliveries].
  exists (Expected.entry_for this e mintId i r).
  split.
  { exact (entries_from_nth this e mintId (first :: others) 0 i r at_i). }
  pose proof (entry_for_failed this e mintId i r ne) as failed.
  destruct (entry_for_status this e mintId i r) as (sent_or_failed & _).
  cbv zeta in sent_or_failed.
  destruct (Expected.entry_for this e mintId i r) as [ d | f ] eqn:entry.
  - assert (sendable : ~ Edge.unsendable r).
    { intros bad. apply failed in bad. destruct bad as (f & e'). discriminate. }
    cbn [Batch.status] in *.
    destruct sent_or_failed as [ st | st ]; rewrite st.
    + split; split; try discriminate; try contradiction; auto.
    + exfalso. revert entry st. unfold Expected.entry_for.
      destruct (ChittyDLVR.send _ _ _) as [ d' | ] eqn:sent; [ | discriminate ].
      intros [= <-]. rewrite (proj1 (send_returns _ _ _ _ sent)).
      discriminate.
  - assert (bad : Edge.unsendable r) by (apply failed; eauto).
    revert entry. unfold Expected.entry_for.
    destruct (ChittyDLVR.send _ _ _); [ discriminate | ].
    intros [= <-]. cbn [Batch.status Failure.status].
    split; split; try discriminate; try contradiction; auto.
Qed.

Lemma bulkSend_failures_witness :
  exists batch entry,
    ChittyDLVR.bulkSend (host := Sample.host) Tests.test_dlvr
      Tests.bulk_at_noon (JS.String "DM-BULK-TEST") (Some Tests.recipients)
    = JS.Return batch /\
    nth_error (Batch.deliveries batch) 1 = Some entry /\
    (Batch.status entry = "FAILED" <->
     exists r, nth_error Tests.recipients 1 = Some r /\ Edge.unsendable r).
Proof.
  destruct (ChittyDLVR.bulkSend (host := Sample.host) Tests.test_dlvr
              Tests.bulk_at_noon (JS.String "DM-BULK-TEST")
              (Some Tests.recipients)) as [ batch | error ] eqn:returned.
  - destruct (bulkSend_failures (host := Sample.host) Tests.test_dlvr
                Tests.bulk_at_noon "DM-BULK-TEST" Tests.recipients batch
                returned 1%nat _ eq_refl) as (entry & at_1 & failed & _).
    exists batch, entry. split; [ reflexivity | ]. split; [ exact at_1 | ].
    rewrite failed. split.
    + intros bad. eexists. split; [ reflexivity | exact bad ].
    + intros (r & [= <-] & bad). exact bad.
  - vm_compute in returned. discriminate returned.
Defined.

(** ** More on service of process *)

(** X7. [initiate] returns a case exactly when the service type, personal
    when left out, is one of the four. The case is INITIATED with that one
    entry in its history, has no attempts and score 0, carries the
    requirements of its own type, which for every type include the
    affidavit, and allows 3 attempts for personal, 2 for substituted and 1
    for constructive service and publication. *)
Theorem initiate_outcomes e options :
  let serviceType := default "personal" (ServiceEngine.serviceType options) in
  ((exists c, ServiceEngine.initiate e options = JS.Return c) <->
   In serviceType ServiceEngine.VALID_SERVICE_TYPES) /\
  (forall c,
      ServiceEngine.initiate e options = JS.Return c ->
      ServiceCase.serviceType c = serviceType /\
      ServiceCase.status c = "INITIATED" /\
      ServiceCase.statusHistory c
      = [ ("INITIATED", ServiceEngine.timestamp options, "system") ] /\
      ServiceCase.attempts c = [] /\
      ServiceCase.proof_score c = JS.int 0 /\
      ServiceCase.proof_affidavitFiled c = false /\
      (exists r,
          ServiceCase.requirements c = JS.Val r /\
          JS.own ServiceEngine.reqs serviceType = Some r /\
          JS.member r "affidavitRequired" = JS.Return (JS.Bool true)) /\
      (exists n,
          ServiceCase.maxAttempts c = JS.Val (JS.int n) /\
          JS.own Spec.technical serviceType <> None /\
          n = (if String.eqb serviceType "personal" then 3
               else if String.eqb serviceType "substituted" then 2
                    else 1))).
Proof.
  intros serviceType. subst serviceType.
  unfold ServiceEngine.initiate.
  set (serviceType := default "personal" (ServiceEngine.serviceType options)).
  destruct (ServiceEngine.includes ServiceEngine.VALID_SERVICE_TYPES
              serviceType) eqn:valid; cbn [negb].
  - pose proof (proj1 (includes_In _ _) valid) as i.
    split.
    + split; [ intros _; exact i | intros _; eauto ].
    + intros c [= <-].
      cbn [ServiceCase.serviceType ServiceCase.status
             ServiceCase.statusHistory ServiceCase.attempts
             ServiceCase.proof_score ServiceCase.proof_affidavitFiled
             ServiceCase.requirements ServiceCase.maxAttempts].
      do 6 (split; [ reflexivity | ]).
      clear valid. cbn [In ServiceEngine.VALID_SERVICE_TYPES] in i.
      destruct i as [ <- | [ <- | [ <- | [ <- | [] ] ] ] ].
      all: split; [ eexists; repeat split | ].
      all: eexists; split; [ reflexivity | ]; split;
        [ discriminate | reflexivity ].
  - split.
    + split; [ intros (c & e'); discriminate e' | ].
      intros i. apply includes_In in i. rewrite i in valid. discriminate.
    + intros c e'. discriminate e'.
Qed.

Lemma initiate_outcomes_witness :
  exists c,
    ServiceEngine.initiate Tests.service_at_noon Tests.substituted_service
    = JS.Return c /\
    ServiceCase.status c = "INITIATED".
Proof.
  destruct (ServiceEngine.initiate Tests.service_at_noon
              Tests.substituted_service) as [ c | error ] eqn:initiated.
  - exists c. split; [ reflexivity | ].
    exact (proj1 (proj2 (proj2 (initiate_outcomes _ _) c initiated))).
  - vm_compute in initiated. discriminate initiated.
Defined.

(** X8. [recordAffidavit] throws exactly when [details] is [null], a
    TypeError from the first read of a member of [details]; it does not
    check the service type. With details given or left out it files an
    affidavit for any type: for a type that [initiate] rejects, and that is
    no member of Object.prototype, the scores come from the bases 70, 65
    and 70, and for every such type, known or not, the three scores are
    whole numbers, admissibility from 65 to 100, technical from 60 to 95
    and persuasiveness from 70 to 100. *)
Theorem recordAffidavit_any_type e options :
  let serviceType :=
    default "personal" (ServiceEngine.serviceType_ options) in
  ((exists error, ServiceEngine.recordAffidavit e options = JS.Throw error)
   <-> ServiceEngine.details_ options = JS.IsNull) /\
  (ServiceEngine.details_ options = JS.IsNull ->
   exists message,
     ServiceEngine.recordAffidavit e options
     = JS.Throw (JS.TypeError message)) /\
  (forall d,
      JS.destructured ServiceEngine.no_details (ServiceEngine.details_ options)
      = Some d ->
      exists a,
        ServiceEngine.recordAffidavit e options = JS.Return a /\
        Affidavit.status a = "FILED" /\
        Affidavit.serviceType a = serviceType /\
        (JS.inherited serviceType = false ->
         exists s t p,
           Affidavit.proof_score a = JS.Val (JS.int s) /\ 65 <= s <= 100 /\
           Affidavit.proof_technical a = JS.Val (JS.int t) /\
           60 <= t <= 95 /\
           Affidavit.proof_arguable a = JS.Val (JS.int p) /\
           70 <= p <= 100 /\
           (~ In serviceType ServiceEngine.VALID_SERVICE_TYPES ->
            s = Z.min 100
                  (70 + (Spec.bonus (ServiceEngine.notarized d) 5
                         + Spec.bonus (ServiceEngine.witnessPresent d) 3))
            /\
            t = Z.min 100 (65 + Spec.bonus (ServiceEngine.geoVerified d) 5)
            /\
            p = Z.min 100
                  (70 + (Spec.bonus (ServiceEngine.notarized d) 5
                         + Spec.bonus (ServiceEngine.witnessPresent d) 5))))).
Proof.
  intros serviceType. unfold ServiceEngine.recordAffidavit.
  split; [ | split ].
  - destruct (ServiceEngine.details_ options); cbn [JS.destructured]; split;
      try discriminate; eauto;
      intros (error & thrown); discriminate thrown.
  - intros ->. cbn [JS.destructured]. eauto.
  - intros d ->. eexists. split; [ reflexivity | ].
  cbn [Affidavit.status Affidavit.serviceType Affidavit.proof_score
         Affidavit.proof_technical Affidavit.proof_arguable].
  do 2 (split; [ reflexivity | ]).
  fold serviceType. clearbody serviceType.
  intros i.
  exists (Z.min 100 (default 70 (JS.own Spec.admissibility serviceType)
                     + (Spec.bonus (ServiceEngine.notarized d) 5
                        + Spec.bonus (ServiceEngine.witnessPresent d) 3))),
    (Z.min 100 (default 65 (JS.own Spec.technical serviceType)
                + Spec.bonus (ServiceEngine.geoVerified d) 5)),
    (Z.min 100 (default 70 (JS.own Spec.persuasive serviceType)
                + (Spec.bonus (ServiceEngine.notarized d) 5
                   + Spec.bonus (ServiceEngine.witnessPresent d) 5))).
  unfold ServiceEngine.scoreAffidavit, ServiceEngine.scoreTechnical,
    ServiceEngine.scoreArguable, ServiceEngine.bonus, Spec.bonus, JS.get.
  rewrite i. clear i.
  unfold ServiceEngine.base_affidavit, ServiceEngine.base_technical,
    ServiceEngine.base_arguable, ServiceEngine.VALID_SERVICE_TYPES,
    Spec.admissibility, Spec.technical, Spec.persuasive.
  cbn [JS.own In].
  destruct (JS.truthy (ServiceEngine.notarized d)),
    (JS.truthy (ServiceEngine.witnessPresent d)),
    (JS.truthy (ServiceEngine.geoVerified d)).
  all: repeat match goal with
         | |- context [String.eqb ?k ?name] =>
             is_var name;
             destruct (String.eqb_spec k name); [ subst name | ]
         end.
  all: split; [ vm_compute; reflexivity | ].
  all: split; [ vm_compute; split; discriminate | ].
  all: split; [ vm_compute; reflexivity | ].
  all: split; [ vm_compute; split; discriminate | ].
  all: split; [ vm_compute; reflexivity | ].
  all: split; [ vm_compute; split; discriminate | ].
  all: try (intros _; vm_compute; repeat split; reflexivity).
  all: intros outside; exfalso; apply outside; tauto.
Qed.

Lemma recordAffidavit_any_type_witness :
  (JS.inherited "telekinesis" = false /\
   exists a s,
     ServiceEngine.recordAffidavit Tests.service_at_noon
       Tests.telekinetic_affidavit = JS.Return a /\
     Affidavit.proof_score a = JS.Val (JS.int s) /\ 65 <= s <= 100) /\
  exists message,
    ServiceEngine.recordAffidavit Tests.service_at_noon
      Tests.affidavit_without_details = JS.Throw (JS.TypeError message).
Proof.
  split.
  - split; [ reflexivity | ].
    destruct (proj2 (proj2 (recordAffidavit_any_type Tests.service_at_noon
                              Tests.telekinetic_affidavit))
                Tests.witnessed_service eq_refl)
      as (a & filed & _ & _ & scores).
    destruct (scores eq_refl) as (s & _ & _ & es & bounds & _).
    exists a, s. split; [ exact filed | ]. split; [ exact es | exact bounds ].
  - exact (proj1 (proj2 (recordAffidavit_any_type Tests.service_at_noon
                           Tests.affidavit_without_details)) eq_refl).
Defined.

(** ** More on the receipt engine *)


(** X9. Decoding, the way [verify] does, what [bufferToBase64] wrote
    gives the buffer back, so two buffers with the same base64 text are the
    same buffer. *)
Theorem bufferToBase64_round_trip :
  (forall buffer,
      Base64.bytes_of_base64 (ReceiptEngine.bufferToBase64 buffer)
      = JS.Return buffer) /\
  (forall a b,
      ReceiptEngine.bufferToBase64 a = ReceiptEngine.bufferToBase64 b ->
      a = b).
Proof.
  assert (back : forall buffer,
             Base64.bytes_of_base64 (ReceiptEngine.bufferToBase64 buffer)
             = JS.Return buffer).
  { intros buffer.
    exact (bytes_of_bufferToBase64 (host := Sample.host)
             (crypto := Sample.crypto) buffer). }
  split; [ exact back | ].
  intros a b same.
  pose proof (back a) as da. rewrite same, back in da.
  now injection da.
Qed.

Lemma bufferToBase64_round_trip_witness :
  ReceiptEngine.bufferToBase64 (Sample.bytes "kp")
  = ReceiptEngine.bufferToBase64 (Sample.bytes "kp") /\
  Sample.bytes "kp" = Sample.bytes "kp".
Proof.
  split; [ reflexivity | ].
  exact (proj2 bufferToBase64_round_trip (Sample.bytes "kp")
           (Sample.bytes "kp") eq_refl).
Defined.

(** X10. [fetchDrandRound] returns a round exactly when the request was
    answered with success, the body parsed, and the payload has a truthy
    [round], [randomness] and [signature]; the round it returns holds these
    three values. *)
Theorem fetchDrandRound_round `{host : Host} `{crypto : WebCrypto} fetched d :
  ReceiptEngine.fetchDrandRound fetched = JS.Return (Some d) <->
  exists response data,
    fetched = JS.Return response /\
    Response.ok response = true /\
    Response.json response = JS.Return data /\
    JS.member data "round" = JS.Return (ReceiptEngine.round d) /\
    JS.truthy (ReceiptEngine.round d) = true /\
    JS.member data "randomness" = JS.Return (ReceiptEngine.randomness d) /\
    JS.truthy (ReceiptEngine.randomness d) = true /\
    JS.member data "signature" = JS.Return (ReceiptEngine.signature d) /\
    JS.truthy (ReceiptEngine.signature d) = true.
Proof.
  unfold ReceiptEngine.fetchDrandRound. split.
  - destruct fetched as [ response | ]; cbn [JS.bind JS.try_catch];
      [ | discriminate ].
    destruct (Response.ok response) eqn:ok; cbn [negb]; [ | discriminate ].
    destruct (Response.json response) as [ data | ] eqn:ej;
      cbn [JS.bind JS.try_catch]; [ | discriminate ].
    destruct (JS.member data "round") as [ round | ] eqn:er;
      cbn [JS.bind JS.try_catch]; [ | discriminate ].
    destruct (JS.truthy round) eqn:tr; cbn [negb]; [ | discriminate ].
    destruct (JS.member data "randomness") as [ randomness | ] eqn:en;
      cbn [JS.bind JS.try_catch]; [ | discriminate ].
    destruct (JS.truthy randomness) eqn:tn; cbn [negb]; [ | discriminate ].
    destruct (JS.member data "signature") as [ signature | ] eqn:eg;
      cbn [JS.bind JS.try_catch]; [ | discriminate ].
    destruct (JS.truthy signature) eqn:tg; cbn [negb]; [ | discriminate ].
    intros [= <-]. exists response, data. now repeat split.
  - intros (response & data & -> & ok & ej & er & tr & en & tn & eg & tg).
    cbn [JS.bind]. rewrite ok. cbn [negb]. rewrite ej. cbn [JS.bind].
    rewrite er. cbn [JS.bind]. rewrite tr. cbn [negb].
    rewrite en. cbn [JS.bind]. rewrite tn. cbn [negb].
    rewrite eg. cbn [JS.bind]. rewrite tg. cbn [negb JS.try_catch].
    now destruct d.
Qed.

(** X11. The key pair of an engine is loaded once. Once a pair is cached,
    whatever the engine does later it keeps that pair, and
    [getServiceKeyPair] returns it and leaves the engine as it is, whatever
    key is configured and whatever randomness is at hand. *)
Theorem key_pair_is_stable `{host : Host} `{crypto : WebCrypto}
    start later kp :
  ReceiptEngine._keyPair start = Some kp ->
  Reach.evolves start later ->
  ReceiptEngine._keyPair later = Some kp /\
  forall e, ReceiptEngine.getServiceKeyPair e later = (JS.Return kp, later).
Proof.
  intros ek steps.
  pose proof (evolves_keeps_key start later kp ek steps) as ek'.
  split; [ exact ek' | ].
  intros e. unfold ReceiptEngine.getServiceKeyPair. now rewrite ek'.
Qed.

Lemma key_pair_is_stable_witness :
  exists kp,
    ReceiptEngine._keyPair (crypto := Sample.crypto)
      (snd Sample.created) = Some kp /\
    ReceiptEngine.getServiceKeyPair (host := Sample.host)
      (crypto := Sample.crypto) Sample.offline (snd Sample.created)
    = (JS.Return kp, snd Sample.created).
Proof.
  destruct (ReceiptEngine._keyPair (crypto := Sample.crypto)
              (snd Sample.created))
    as [ kp | ] eqn:ek.
  - exists kp. split; [ reflexivity | ].
    exact (proj2 (key_pair_is_stable (host := Sample.host)
                    (crypto := Sample.crypto) (snd Sample.created)
                    (snd Sample.created) kp ek (Reach.evolves_refl _))
             Sample.offline).
  - vm_compute in ek. discriminate ek.
Defined.

(** X12. A configured signing key is never replaced by an ephemeral one.
    On an engine without a cached pair whose owner has a signing key
    configured, [getServiceKeyPair] returns only the imported pair; when
    the import fails it throws "Signing key import failed: ...", caches
    nothing, and [create] throws the same error and stores no receipt. *)
Theorem configured_key_is_never_ephemeral `{host : Host} `{crypto : WebCrypto}
    this e :
  ReceiptEngine._keyPair this = None ->
  JS.truthy (ReceiptEngine.signingKeyJwk this) = true ->
  (forall kp this',
      ReceiptEngine.getServiceKeyPair e this = (JS.Return kp, this') ->
      ReceiptEngine.import_signing_key (ReceiptEngine.signingKeyJwk this)
      = JS.Return kp) /\
  (forall error this',
      ReceiptEngine.getServiceKeyPair e this = (JS.Throw error, this') ->
      this' = this /\
      (exists reason,
          error = JS.Error ("Signing key import failed: " ++ reason
                              ++ ". Check SIGNING_KEY_JWK configuration.")) /\
      forall e' options,
        ReceiptEngine.create e' options this = (JS.Throw error, this)).
Proof.
  intros none configured.
  assert (load : forall e0,
             ReceiptEngine.getServiceKeyPair e0 this
             = match ReceiptEngine.import_signing_key
                       (ReceiptEngine.signingKeyJwk this) with
               | JS.Return kp => (JS.Return kp, ReceiptEngine.set_keyPair kp this)
               | JS.Throw error => (JS.Throw error, this)
               end).
  { intros e0. unfold ReceiptEngine.getServiceKeyPair.
    now rewrite none, configured. }
  split.
  - intros kp this'. rewrite load.
    destruct (ReceiptEngine.import_signing_key _); now intros [= <- <-].
  - intros error this'. rewrite load.
    destruct (ReceiptEngine.import_signing_key _) as [ kp | error' ] eqn:ei;
      intros [= <- <-].
    split; [ reflexivity | ]. split.
    + revert ei. unfold ReceiptEngine.import_signing_key.
      match goal with
      | |- JS.try_catch ?body _ = _ -> _ => destruct body as [ kp | cause ]
      end; cbn [JS.try_catch]; [ discriminate | ].
      intros [= <-]. eauto.
    + intros e' options.
      unfold ReceiptEngine.create, ReceiptEngine.and_then, ReceiptEngine.lift.
      destruct (fetchDrandRound_returns (ReceiptEngine.fetched e'))
        as (drand & ->).
      now rewrite load.
Qed.

Lemma configured_key_is_never_ephemeral_witness :
  ReceiptEngine.create (host := Sample.host) (crypto := Sample.crypto)
    Sample.afterwards Sample.options (ReceiptEngine.new (JS.Object []))
  = (JS.Throw (JS.Error ("Signing key import failed: "
                           ++ "Invalid key data"
                           ++ ". Check SIGNING_KEY_JWK configuration.")),
     ReceiptEngine.new (JS.Object [])).
Proof.
  refine (proj2 (proj2 (proj2 (configured_key_is_never_ephemeral
                   (host := Sample.host) (crypto := Sample.crypto)
                   (ReceiptEngine.new (JS.Object []))
                   Sample.offline eq_refl eq_refl) _ _ _))
            Sample.afterwards Sample.options).
  vm_compute. reflexivity.
Defined.

Section EngineInvariants.
Context `{host : Host} `{crypto : WebCrypto}.
Import JS ReceiptEngine Reach.

Lemma evolves_embeds_key start this :
  evolves start this -> embeds_key start -> embeds_key this.
Proof.
  induction 1 as [ | this e options result this' _ IH step
                   | this e result this' _ IH step ]; intros inv.
  - exact inv.
  - specialize (IH inv).
    destruct (create_step _ _ _ _ _ step) as (_ & keeps & failed & made).
    intros id r stored.
    destruct result as [ r0 | error ].
    + destruct (made r0 eq_refl)
        as (_ & grown & _ & _ & _ & _ & sg & kp & spki & es & ek & ex & ep).
      rewrite grown in stored.
      destruct (decide (Receipt.receiptId r0 = id)) as [ <- | other ].
      * rewrite lookup_insert_eq in stored. injection stored as <-.
        exists sg, kp, spki. now repeat split.
      * rewrite lookup_insert_ne in stored by exact other.
        destruct (IH id r stored) as (sg' & kp' & spki' & ek' & rest).
        exists sg', kp', spki'. split; [ exact (keeps kp' ek') | exact rest ].
    + rewrite (failed error eq_refl) in stored.
      destruct (IH id r stored) as (sg' & kp' & spki' & ek' & rest).
      exists sg', kp', spki'. split; [ exact (keeps kp' ek') | exact rest ].
  - specialize (IH inv).
    destruct (getServiceKeyPair_step _ _ _ _ step)
      as (same & _ & cached & _ & _).
    intros id r stored. rewrite same in stored.
    destruct (IH id r stored) as (sg' & kp' & spki' & ek' & rest).
    exists sg', kp', spki'.
    destruct (cached kp' ek') as (_ & ->). now split.
Qed.

Lemma new_embeds_key jwk : embeds_key (new jwk).
Proof. intros id r. cbn [_receipts new]. now rewrite lookup_empty. Qed.

(** The check ran: the flags [verify] sets beside the verdict. *)
Lemma verify_flags now receiptId receiptData this v :
  verify now receiptId receiptData this = Return v ->
  Verification.receiptId v = receiptId /\
  (Verification.signatureValid v <> None ->
   Verification.chainAnchored v = Some true /\
   Verification.witnessConfirmed v = Some true /\
   Verification.timestamp v = Some (toISOString now)).
Proof.
  unfold verify.
  destruct (_ ≫= Receipt.signature) as [ sg | ].
  - destruct (Base64.bytes_of_base64 (Signature.publicKey sg));
      cbn [bind try_catch];
      [ | intros [= <-]; split; [ reflexivity | now intros n ] ].
    destruct (importKey_spki _); cbn [bind try_catch];
      [ | intros [= <-]; split; [ reflexivity | now intros n ] ].
    destruct (Base64.bytes_of_base64 (Signature.value sg));
      cbn [bind try_catch];
      [ | intros [= <-]; split; [ reflexivity | now intros n ] ].
    destruct (subtle_verify _ _ _); cbn [bind try_catch];
      intros [= <-]; split; try reflexivity; [ now repeat split | now intros n ].
  - intros [= <-]. split; [ reflexivity | now intros n ].
Qed.

(** An identifier that is not stored: the result [verify] returns. *)
Lemma verify_not_stored now id this :
  getById id this = None ->
  verify now id None this
  = Return
      {| Verification.receiptId := id;
         Verification.verified := false;
         Verification.signatureValid := None;
         Verification.witnessConfirmed := None;
         Verification.chainAnchored := None;
         Verification.timestamp := None;
         Verification.verificationError := None;
         Verification.error :=
           Some "Receipt not found or no signature data" |}.
Proof. intros missing. unfold verify. now rewrite missing. Qed.

(** The scores [create] puts into a receipt. *)
Lemma create_legal e options this r this' :
  create e options this = (Return r, this') ->
  Receipt.status r = "VALID" /\
  Legal.score (Receipt.legal r)
  = calculateReceiptScore (default "digital" (method_ options)) /\
  Legal.technical (Receipt.legal r)
  = calculateTechnicalScore (default "digital" (method_ options)) /\
  Legal.arguable (Receipt.legal r)
  = calculateArguableScore (default "digital" (method_ options)).
Proof.
  unfold create, and_then, lift, store, ret.
  destruct (fetchDrandRound_returns (fetched e)) as (drand & ->).
  destruct (getServiceKeyPair e this) as [ [ kp | error ] this1 ];
    [ | discriminate ].
  destruct (subtle_sign _ _ _); [ | discriminate ].
  destruct (exportKey_spki _); [ | discriminate ].
  intros [= <- <-]. now repeat split.
Qed.

(** The three score tables of the receipt engine, read for a name. *)
Lemma receipt_scores_by_name method :
  inherited method = false ->
  exists s t a,
    calculateReceiptScore method = Val (int s) /\
    calculateTechnicalScore method = Val (int t) /\
    calculateArguableScore method = Val (int a) /\
    70 <= s <= 95 /\ 60 <= t <= 90 /\ 70 <= a <= 95 /\
    (own scores_receipt method = None -> s = 70 /\ t = 60 /\ a = 70).
Proof.
  intros plain.
  unfold calculateReceiptScore, calculateTechnicalScore,
    calculateArguableScore, get, scores_receipt, scores_technical,
    scores_arguable.
  cbn [own].
  repeat match goal with
         | |- context [String.eqb ?k method] =>
             destruct (String.eqb_spec k method); [ subst method | ]
         end.
  1-5: first
    [ exists 85, 90, 80; do 3 (split; [ vm_compute; reflexivity | ]);
      do 3 (split; [ lia | ]); discriminate
    | exists 90, 80, 95; do 3 (split; [ vm_compute; reflexivity | ]);
      do 3 (split; [ lia | ]); discriminate
    | exists 75, 65, 80; do 3 (split; [ vm_compute; reflexivity | ]);
      do 3 (split; [ lia | ]); discriminate
    | exists 95, 90, 95; do 3 (split; [ vm_compute; reflexivity | ]);
      do 3 (split; [ lia | ]); discriminate
    | exists 95, 85, 95; do 3 (split; [ vm_compute; reflexivity | ]);
      do 3 (split; [ lia | ]); discriminate ].
  rewrite plain. cbn [or_else]. exists 70, 60, 70.
  do 3 (split; [ reflexivity | ]). do 3 (split; [ lia | ]). now intros _.
Qed.

End EngineInvariants.

(** X13. What a call of [create] does to the engine. A call that throws
    leaves the stored receipts as they were; a call that returns stores
    the receipt under the identifier drawn from the clock and the random
    octets, replacing what was stored under it, and leaves every other
    identifier as it was; the receipt echoes the delivery, the signer, the
    method (digital when none is given) and the time stamp of its
    options. *)
Theorem create_frame `{host : Host} `{crypto : WebCrypto}
    e options this result this' :
  ReceiptEngine.create e options this = (result, this') ->
  (forall error, result = JS.Throw error ->
     forall id, ReceiptEngine.getById id this' = ReceiptEngine.getById id this) /\
  (forall r, result = JS.Return r ->
     Receipt.receiptId r = ReceiptEngine.generateReceiptId e /\
     ReceiptEngine.getById (ReceiptEngine.generateReceiptId e) this' = Some r /\
     (forall id, id <> ReceiptEngine.generateReceiptId e ->
        ReceiptEngine.getById id this' = ReceiptEngine.getById id this) /\
     Receipt.deliveryId r = ReceiptEngine.deliveryId options /\
     Receipt.signer r = ReceiptEngine.signer options /\
     Receipt.method r = default "digital" (ReceiptEngine.method_ options) /\
     Receipt.createdAt r = ReceiptEngine.timestamp options).
Proof.
  intros step.
  destruct (create_step _ _ _ _ _ step) as (_ & _ & failed & made).
  split.
  - intros error -> id. unfold ReceiptEngine.getById.
    now rewrite (failed error eq_refl).
  - intros r ->.
    destruct (made r eq_refl) as (eid & grown & ed & es & em & et & _).
    split; [ exact eid | ]. unfold ReceiptEngine.getById. rewrite grown.
    split; [ rewrite <- eid; apply lookup_insert_eq | ].
    split; [ | now repeat split ].
    intros id other. apply lookup_insert_ne. rewrite eid. congruence.
Qed.

Lemma create_frame_witness :
  match Sample.created_again with
  | (JS.Return r, this') =>
      Receipt.receiptId r = "DR-LOYW3V29-6768696A6B6C" /\
      ReceiptEngine.getById (crypto := Sample.crypto)
        "DR-LOYW3V28-616263646566" this'
      = ReceiptEngine.getById "DR-LOYW3V28-616263646566" (snd Sample.created)
  | (JS.Throw _, _) => False
  end.
Proof.
  destruct Sample.created_again as [ [ r | error ] this' ] eqn:again.
  - destruct (proj2 (create_frame (host := Sample.host)
                       (crypto := Sample.crypto) Sample.afterwards
                       Sample.options (snd Sample.created) (JS.Return r)
                       this' again) r eq_refl)
      as (eid & _ & others & _).
    split; [ exact eid | ].
    apply others. vm_compute. discriminate.
  - vm_compute in again. discriminate again.
Defined.

(** ** Calls that overlap *)

Section Overlapping.
Context `{host : Host} `{crypto : WebCrypto}.
Import JS ReceiptEngine Reach Overlap.

(** [getServiceKeyPair] by what it starts to load. *)
Lemma getServiceKeyPair_load e this :
  getServiceKeyPair e this
  = match _keyPair this with
    | Some keyPair => (Return keyPair, this)
    | None =>
        match load e this with
        | Return keyPair => (Return keyPair, set_keyPair keyPair this)
        | Throw error => (Throw error, this)
        end
    end.
Proof. reflexivity. Qed.

(** [create] is the fetch, [getServiceKeyPair] and [finish] in a row. *)
Lemma create_finishes e options this :
  create e options this
  = match fetchDrandRound (fetched e) with
    | Return drand =>
        match getServiceKeyPair e this with
        | (Return keyPair, this1) => finish e options drand keyPair this1
        | (Throw error, this1) => (Throw error, this1)
        end
    | Throw error => (Throw error, this)
    end.
Proof.
  unfold create, finish, and_then, lift.
  destruct (fetchDrandRound (fetched e)) as [ drand | error ];
    [ | reflexivity ].
  now destruct (getServiceKeyPair e this) as [ [ keyPair | error ] this1 ].
Qed.

(** What [finish] leaves of the engine and puts into the receipt. *)
Lemma finish_step e options drand keyPair this result this' :
  finish e options drand keyPair this = (result, this') ->
  _keyPair this' = _keyPair this /\
  signingKeyJwk this' = signingKeyJwk this /\
  (forall error, result = Throw error -> _receipts this' = _receipts this) /\
  (forall r, result = Return r ->
     _receipts this' = <[Receipt.receiptId r := r]> (_receipts this) /\
     exists sg spki,
       Receipt.signature r = Some sg /\
       exportKey_spki (publicKey keyPair) = Return spki /\
       Signature.publicKey sg = bufferToBase64 spki).
Proof.
  unfold finish, and_then, lift, store, ret.
  destruct (subtle_sign _ _ _) as [ sig | error ].
  2:{ intros [= <- <-]. repeat split; discriminate. }
  destruct (exportKey_spki (publicKey keyPair)) as [ spki | error ] eqn:ex.
  2:{ intros [= <- <-]. repeat split; discriminate. }
  intros [= <- <-]. cbn [_keyPair signingKeyJwk _receipts].
  split; [ reflexivity | ]. split; [ reflexivity | ].
  split; [ discriminate | ].
  intros r [= <-]. cbn [Receipt.receiptId Receipt.signature].
  split; [ reflexivity | ]. eexists. exists spki. now repeat split.
Qed.

(** A call of [create] made alone is a run of its steps. *)
Lemma create_runs e options this result this' calls :
  create e options this = (result, this') ->
  runs (this, calls) (this', calls).
Proof.
  rewrite create_finishes, getServiceKeyPair_load.
  destruct (fetchDrandRound_returns (fetched e)) as (drand & fetch).
  rewrite fetch. intros made.
  assert (begun : runs (this, calls) (this, Fetching e options :: calls))
    by (eapply runs_step; [ apply runs_refl | apply step_create ]).
  destruct (_keyPair this) as [ keyPair | ] eqn:cached.
  - eapply runs_step;
      [ eapply runs_step; [ exact begun | ] | ].
    + apply (step_resume this [] (Fetching e options) calls
               (Holding e options drand keyPair) this).
      cbn [resume]. now rewrite fetch, cached.
    + apply (step_settle this [] (Holding e options drand keyPair) calls).
      cbn [resume]. now rewrite made.
  - assert (loading : runs (this, calls)
                        (this, Loading e options drand (load e this) :: calls)).
    { eapply runs_step; [ exact begun | ].
      apply (step_resume this [] (Fetching e options) calls
               (Loading e options drand (load e this)) this).
      cbn [resume]. now rewrite fetch, cached. }
    destruct (load e this) as [ keyPair | error ].
    + eapply runs_step; [ eapply runs_step; [ exact loading | ] | ].
      * apply (step_resume this [] (Loading e options drand (Return keyPair))
                 calls (Holding e options drand keyPair)
                 (set_keyPair keyPair this)).
        reflexivity.
      * apply (step_settle (set_keyPair keyPair this) []
                 (Holding e options drand keyPair) calls).
        cbn [resume]. now rewrite made.
    + injection made as <- <-.
      eapply runs_step; [ exact loading | ].
      apply (step_settle this [] (Loading e options drand (Throw error))
               calls this).
      reflexivity.
Qed.

(** So is a call of [getServiceKeyPair]. *)
Lemma key_runs e this result this' calls :
  getServiceKeyPair e this = (result, this') ->
  runs (this, calls) (this', calls).
Proof.
  rewrite getServiceKeyPair_load.
  destruct (_keyPair this) as [ keyPair | ] eqn:cached.
  - intros [= <- <-]. apply runs_refl.
  - intros loaded.
    eapply runs_step;
      [ eapply runs_step; [ apply runs_refl | ] | ].
    + apply (step_key this calls e cached).
    + apply (step_settle this [] (KeyLoading (load e this)) calls this').
      cbn [resume]. destruct (load e this); now injection loaded as <- <-.
Qed.

Lemma runs_trans (a b c : state) : runs a b -> runs b c -> runs a c.
Proof.
  intros first second. induction second as [ | middle final _ IH last ].
  - exact first.
  - exact (runs_step a middle final IH last).
Qed.

(** Calls made one after the other are runs. *)
Lemma evolves_runs start this calls :
  evolves start this -> runs (start, calls) (this, calls).
Proof.
  induction 1 as [ | this e options result this' _ IH made
                   | this e result this' _ IH loaded ].
  - apply runs_refl.
  - exact (runs_trans _ _ _ IH (create_runs _ _ _ _ _ calls made)).
  - exact (runs_trans _ _ _ IH (key_runs _ _ _ _ calls loaded)).
Qed.

(** The receipt [finish] stores embeds the key of the pair it holds. *)
Lemma finish_embeds e options drand keyPair this :
  _keyPair this = Some keyPair ->
  embeds_key this ->
  embeds_key (snd (finish e options drand keyPair this)).
Proof.
  intros cached inv.
  destruct (finish e options drand keyPair this) as [ result this' ] eqn:done.
  destruct (finish_step _ _ _ _ _ _ _ done) as (same & _ & failed & made).
  cbn [snd]. intros id r stored.
  destruct result as [ r0 | error ].
  - destruct (made r0 eq_refl) as (grown & sg & spki & es & ex & ep).
    rewrite grown in stored.
    destruct (decide (Receipt.receiptId r0 = id)) as [ <- | other ].
    + rewrite lookup_insert_eq in stored. injection stored as <-.
      exists sg, keyPair, spki. rewrite same. now repeat split.
    + rewrite lookup_insert_ne in stored by exact other.
      destruct (inv id r stored) as (sg' & kp' & spki' & ek' & rest).
      exists sg', kp', spki'. rewrite same. now split.
  - rewrite (failed error eq_refl) in stored.
    destruct (inv id r stored) as (sg' & kp' & spki' & ek' & rest).
    exists sg', kp', spki'. rewrite same. now split.
Qed.

Lemma Forall_middle {A} (P : A -> Prop) before c after :
  Forall P (before ++ c :: after) <->
  P c /\ Forall P (before ++ after).
Proof.
  rewrite !Forall_app, Forall_cons_iff. tauto.
Qed.

Lemma Forall_replace {A} (P : A -> Prop) before c after :
  P c -> Forall P (before ++ after) -> Forall P (before ++ c :: after).
Proof. intros. now apply Forall_middle. Qed.

(** Once settled, ever settled. *)
Lemma settled_step keyPair s s' :
  settled keyPair s -> step s s' -> settled keyPair s'.
Proof.
  intros (cached & inv & kept) moved. cbn [fst snd] in *.
  destruct moved as [ this calls e options | this calls e none
                    | this before c after next this' resumed
                    | this before c after this' resumed ];
    cbn [fst snd] in *.
  - split; [ exact cached | ]. split; [ exact inv | ].
    now constructor.
  - rewrite cached in none. discriminate none.
  - apply Forall_middle in kept as (kc & kept).
    destruct c as [ e options | e options drand loaded
                  | e options drand held | loaded ];
      cbn [keeps] in kc; try contradiction.
    + cbn [resume] in resumed. rewrite cached in resumed.
      destruct (fetchDrandRound (fetched e)); [ | discriminate resumed ].
      injection resumed as <- <-.
      split; [ exact cached | ]. split; [ exact inv | ].
      now apply Forall_replace.
    + discriminate resumed.
  - apply Forall_middle in kept as (kc & kept).
    destruct c as [ e options | e options drand loaded
                  | e options drand held | loaded ];
      cbn [keeps] in kc; try contradiction.
    + cbn [resume] in resumed. rewrite cached in resumed.
      destruct (fetchDrandRound (fetched e)); [ discriminate resumed | ].
      injection resumed as <-. now repeat split.
    + subst held. cbn [resume] in resumed. injection resumed as <-.
      pose proof (finish_embeds e options drand keyPair this cached inv)
        as inv'.
      destruct (finish e options drand keyPair this) as [ result this' ] eqn:done.
      destruct (finish_step _ _ _ _ _ _ _ done) as (same & _).
      cbn [snd] in *.
      split; [ cbn [fst]; now rewrite same | ].
      split; [ exact inv' | exact kept ].
Qed.

Lemma settled_runs keyPair s s' :
  settled keyPair s -> runs s s' -> settled keyPair s'.
Proof.
  intros start. induction 1 as [ | middle final _ IH moved ].
  - exact start.
  - exact (settled_step keyPair middle final IH moved).
Qed.

Section Configured.
Variable jwk : value.
Hypothesis given : truthy jwk = true.

Lemma configured_new : configured jwk (new jwk, []).
Proof.
  split; [ reflexivity | ]. split; [ intros keyPair; discriminate | ].
  split; [ constructor | ].
  intros id r. cbn [fst new _receipts]. now rewrite lookup_empty.
Qed.

Lemma configured_load e this :
  signingKeyJwk this = jwk -> load e this = import_signing_key jwk.
Proof. intros key. unfold load. rewrite key. now rewrite given. Qed.

Lemma configured_step s s' : configured jwk s -> step s s' -> configured jwk s'.
Proof.
  intros (key & cached & calls_ok & inv) moved. cbn [fst snd] in *.
  destruct moved as [ this calls e options | this calls e none
                    | this before c after next this' resumed
                    | this before c after this' resumed ];
    unfold configured; cbn [fst snd] in *.
  - split; [ exact key | ]. split; [ exact cached | ].
    split; [ now constructor | exact inv ].
  - split; [ exact key | ]. split; [ exact cached | ].
    split; [ | exact inv ].
    constructor; [ | assumption ]. cbn [imports]. now apply configured_load.
  - apply Forall_middle in calls_ok as (ok & calls_ok).
    destruct c as [ e options | e options drand loaded
                  | e options drand held | loaded ];
      cbn [resume] in resumed.
    + destruct (fetchDrandRound (fetched e)); [ | discriminate resumed ].
      destruct (_keyPair this) as [ keyPair | ] eqn:ek;
        injection resumed as <- <-.
      * split; [ exact key | ].
        split; [ rewrite ek; exact cached | ].
        split; [ | exact inv ].
        apply Forall_replace; [ | assumption ].
        cbn [imports]. now apply cached.
      * split; [ exact key | ].
        split; [ rewrite ek; exact cached | ].
        split; [ | exact inv ].
        apply Forall_replace; [ | assumption ].
        cbn [imports]. now apply configured_load.
    + cbn [imports] in ok. subst loaded.
      destruct (import_signing_key jwk) as [ keyPair | ] eqn:imported;
        [ | discriminate resumed ].
      injection resumed as <- <-.
      split; [ exact key | ].
      split; [ intros kp [= <-]; reflexivity | ].
      split; [ apply Forall_replace; [ exact imported | exact calls_ok ]
             | exact inv ].
    + discriminate resumed.
    + destruct loaded; discriminate resumed.
  - apply Forall_middle in calls_ok as (ok & calls_ok).
    destruct c as [ e options | e options drand loaded
                  | e options drand held | loaded ];
      cbn [resume] in resumed.
    + destruct (fetchDrandRound (fetched e)).
      * destruct (_keyPair this); discriminate resumed.
      * injection resumed as <-.
        split; [ exact key | ]. split; [ exact cached | ].
        split; [ exact calls_ok | exact inv ].
    + destruct loaded; [ discriminate resumed | ].
      injection resumed as <-.
      split; [ exact key | ]. split; [ exact cached | ].
      split; [ exact calls_ok | exact inv ].
    + cbn [imports] in ok. injection resumed as <-.
      destruct (finish e options drand held this) as [ result this' ] eqn:done.
      destruct (finish_step _ _ _ _ _ _ _ done)
        as (same & same_key & failed & made).
      cbn [snd]. rewrite same, same_key.
      split; [ exact key | ]. split; [ exact cached | ].
      split; [ exact calls_ok | ].
      intros id r stored.
      destruct result as [ r0 | error ].
      * destruct (made r0 eq_refl) as (grown & sg & spki & es & ex & ep).
        rewrite grown in stored.
        destruct (decide (Receipt.receiptId r0 = id)) as [ <- | other ].
        -- rewrite lookup_insert_eq in stored. injection stored as <-.
           exists sg, held, spki. now repeat split.
        -- rewrite lookup_insert_ne in stored by exact other.
           exact (inv id r stored).
      * rewrite (failed error eq_refl) in stored. exact (inv id r stored).
    + cbn [imports] in ok. subst loaded.
      destruct (import_signing_key jwk) as [ keyPair | ] eqn:imported;
        injection resumed as <-.
      * split; [ exact key | ].
        split; [ intros kp [= <-]; reflexivity | ].
        split; [ exact calls_ok | exact inv ].
      * split; [ exact key | ]. split; [ exact cached | ].
        split; [ exact calls_ok | exact inv ].
Qed.

Lemma configured_runs s s' : configured jwk s -> runs s s' -> configured jwk s'.
Proof.
  intros start. induction 1 as [ | middle final _ IH moved ].
  - exact start.
  - exact (configured_step middle final IH moved).
Qed.

End Configured.
End Overlapping.

Section OverlappingFirstCalls.
Import JS ReceiptEngine Overlap.

Lemma runs_first `{host : Host} `{crypto : WebCrypto} (a b c : state) :
  step a b -> runs b c -> runs a c.
Proof.
  intros first rest.
  exact (runs_trans a b c (runs_step a a b (runs_refl a) first) rest).
Qed.

(** Two first calls on an engine without a configured key, the second
    begun before the first has cached its pair: each generates a pair,
    and the two receipts embed different keys. *)
Lemma overlapping_first_calls :
  exists this,
    runs (host := Sample.host) (crypto := Sample.crypto)
      (Sample.fresh, []) (this, []) /\
    exists r1 r2 sg1 sg2,
      getById (crypto := Sample.crypto) "DR-LOYW3V28-616263646566" this
      = Some r1 /\
      getById (crypto := Sample.crypto) "DR-LOYW3V29-6768696A6B6C" this
      = Some r2 /\
      Receipt.signature r1 = Some sg1 /\
      Receipt.signature r2 = Some sg2 /\
      Signature.publicKey sg1 <> Signature.publicKey sg2.
Proof.
  eexists. split.
  - eapply runs_first;
      [ apply (step_create _ _ Sample.offline Sample.options) | ].
    eapply runs_first;
      [ apply (step_create _ _ Sample.afterwards Sample.options) | ].
    eapply runs_first;
      [ eapply (step_resume _ [ _ ] _ []); vm_compute; reflexivity | ].
    eapply runs_first;
      [ eapply (step_resume _ [] _ [ _ ]); vm_compute; reflexivity | ].
    eapply runs_first;
      [ eapply (step_resume _ [ _ ] _ []); vm_compute; reflexivity | ].
    eapply runs_first;
      [ eapply (step_resume _ [] _ [ _ ]); vm_compute; reflexivity | ].
    eapply runs_first;
      [ eapply (step_settle _ [ _ ] _ []); vm_compute; reflexivity | ].
    eapply runs_first;
      [ eapply (step_settle _ [] _ []); vm_compute; reflexivity | ].
    apply runs_refl.
  - vm_compute. do 4 eexists.
    split; [ reflexivity | ]. split; [ reflexivity | ].
    split; [ reflexivity | ]. split; [ reflexivity | ]. discriminate.
Qed.

End OverlappingFirstCalls.

Section SharedKey.
Context `{host : Host} `{crypto : WebCrypto}.
Import JS ReceiptEngine Reach.

(** Receipts that embed the key of the cached pair embed one key. *)
Lemma embedded_keys_agree this id1 r1 id2 r2 :
  embeds_key this ->
  getById id1 this = Some r1 ->
  getById id2 this = Some r2 ->
  exists sg1 sg2 kp spki,
    _keyPair this = Some kp /\
    exportKey_spki (publicKey kp) = Return spki /\
    Receipt.signature r1 = Some sg1 /\
    Receipt.signature r2 = Some sg2 /\
    Signature.publicKey sg1 = bufferToBase64 spki /\
    Signature.publicKey sg2 = Signature.publicKey sg1.
Proof.
  intros inv stored1 stored2.
  destruct (inv id1 r1 stored1) as (sg1 & kp & spki & ek & ex & es1 & ep1).
  destruct (inv id2 r2 stored2) as (sg2 & kp' & spki' & ek' & ex' & es2 & ep2).
  exists sg1, sg2, kp, spki.
  rewrite ek in ek'. injection ek' as <-.
  rewrite ex in ex'. injection ex' as <-.
  repeat split; try assumption. congruence.
Qed.

End SharedKey.

(** X14. Which receipts of an engine carry one public key. When the
    calls of [create] and [getServiceKeyPair] are made one after the other,
    every stored receipt embeds the exported public key of the engine's
    cached pair, so any two embed the same key. Calls may overlap at their
    awaits, and the runs of overlapping calls contain the calls made one
    after the other. With a signing key configured, all stored receipts
    embed one key under every overlap. Without one, that holds from a
    state on in which the pair is cached and no waiting call loads or
    holds another; but two first calls that overlap generate a pair each,
    and their receipts embed different keys, as the run on the sample
    platform shows. *)
Theorem stored_receipts_share_key :
  (forall (host : Host) (crypto : WebCrypto) this id1 r1 id2 r2,
      Reach.reachable this ->
      ReceiptEngine.getById id1 this = Some r1 ->
      ReceiptEngine.getById id2 this = Some r2 ->
      exists sg1 sg2 kp spki,
        ReceiptEngine._keyPair this = Some kp /\
        exportKey_spki (ReceiptEngine.publicKey kp) = JS.Return spki /\
        Receipt.signature r1 = Some sg1 /\
        Receipt.signature r2 = Some sg2 /\
        Signature.publicKey sg1 = ReceiptEngine.bufferToBase64 spki /\
        Signature.publicKey sg2 = Signature.publicKey sg1) /\
  (forall (host : Host) (crypto : WebCrypto) start this calls,
      Reach.evolves start this ->
      Overlap.runs (start, calls) (this, calls)) /\
  (forall (host : Host) (crypto : WebCrypto) jwk this calls id1 r1 id2 r2,
      JS.truthy jwk = true ->
      Overlap.runs (ReceiptEngine.new jwk, []) (this, calls) ->
      ReceiptEngine.getById id1 this = Some r1 ->
      ReceiptEngine.getById id2 this = Some r2 ->
      exists sg1 sg2,
        Receipt.signature r1 = Some sg1 /\
        Receipt.signature r2 = Some sg2 /\
        Signature.publicKey sg2 = Signature.publicKey sg1) /\
  (forall (host : Host) (crypto : WebCrypto) keyPair s s',
      Overlap.settled keyPair s ->
      Overlap.runs s s' ->
      Overlap.settled keyPair s' /\
      forall id1 r1 id2 r2,
        ReceiptEngine.getById id1 (fst s') = Some r1 ->
        ReceiptEngine.getById id2 (fst s') = Some r2 ->
        exists sg1 sg2,
          Receipt.signature r1 = Some sg1 /\
          Receipt.signature r2 = Some sg2 /\
          Signature.publicKey sg2 = Signature.publicKey sg1) /\
  (exists this,
      Overlap.runs (host := Sample.host) (crypto := Sample.crypto)
        (Sample.fresh, []) (this, []) /\
      exists r1 r2 sg1 sg2,
        ReceiptEngine.getById (crypto := Sample.crypto)
          "DR-LOYW3V28-616263646566" this = Some r1 /\
        ReceiptEngine.getById (crypto := Sample.crypto)
          "DR-LOYW3V29-6768696A6B6C" this = Some r2 /\
        Receipt.signature r1 = Some sg1 /\
        Receipt.signature r2 = Some sg2 /\
        Signature.publicKey sg1 <> Signature.publicKey sg2).
Proof.
  split; [ | split; [ | split; [ | split ] ] ].
  - intros host crypto this id1 r1 id2 r2 (jwk & steps).
    apply embedded_keys_agree.
    exact (evolves_embeds_key _ _ steps (new_embeds_key jwk)).
  - intros host crypto start this calls steps.
    now apply evolves_runs.
  - intros host crypto jwk this calls id1 r1 id2 r2 given ran stored1 stored2.
    destruct (configured_runs jwk given _ _ (configured_new jwk) ran)
      as (_ & _ & _ & inv).
    destruct (inv id1 r1 stored1) as (sg1 & kp & spki & ei & ex & es1 & ep1).
    destruct (inv id2 r2 stored2)
      as (sg2 & kp' & spki' & ei' & ex' & es2 & ep2).
    rewrite ei in ei'. injection ei' as <-.
    rewrite ex in ex'. injection ex' as <-.
    exists sg1, sg2. repeat split; try assumption. congruence.
  - intros host crypto keyPair s s' start ran.
    pose proof (settled_runs keyPair s s' start ran) as (cached & inv & kept).
    split; [ now repeat split | ].
    intros id1 r1 id2 r2 stored1 stored2.
    destruct (embedded_keys_agree _ id1 r1 id2 r2 inv stored1 stored2)
      as (sg1 & sg2 & _ & _ & _ & _ & es1 & es2 & _ & same).
    exists sg1, sg2. now repeat split.
  - exact overlapping_first_calls.
Qed.

Lemma stored_receipts_share_key_witness :
  exists r1 r2 sg1 sg2,
    ReceiptEngine.getById (crypto := Sample.crypto)
      "DR-LOYW3V28-616263646566" (snd Sample.created_again) = Some r1 /\
    ReceiptEngine.getById (crypto := Sample.crypto)
      "DR-LOYW3V29-6768696A6B6C" (snd Sample.created_again) = Some r2 /\
    Receipt.signature r1 = Some sg1 /\
    Receipt.signature r2 = Some sg2 /\
    Signature.publicKey sg2 = Signature.publicKey sg1.
Proof.
  assert (reach : Reach.reachable (host := Sample.host)
                    (crypto := Sample.crypto) (snd Sample.created_again)).
  { exists JS.Null.
    apply (Reach.evolves_create _ (snd Sample.created) Sample.afterwards
             Sample.options (fst Sample.created_again)).
    - apply (Reach.evolves_create _ Sample.fresh Sample.offline
               Sample.options (fst Sample.created)).
      + apply Reach.evolves_refl.
      + unfold Sample.created. now destruct (ReceiptEngine.create _ _ _).
    - unfold Sample.created_again. now destruct (ReceiptEngine.create _ _ _). }
  destruct (ReceiptEngine.getById (crypto := Sample.crypto)
              "DR-LOYW3V28-616263646566" (snd Sample.created_again))
    as [ r1 | ] eqn:stored1; [ | vm_compute in stored1; discriminate stored1 ].
  destruct (ReceiptEngine.getById (crypto := Sample.crypto)
              "DR-LOYW3V29-6768696A6B6C" (snd Sample.created_again))
    as [ r2 | ] eqn:stored2; [ | vm_compute in stored2; discriminate stored2 ].
  destruct (proj1 stored_receipts_share_key Sample.host Sample.crypto
              (snd Sample.created_again)
              "DR-LOYW3V28-616263646566" r1 "DR-LOYW3V29-6768696A6B6C" r2
              reach stored1 stored2)
    as (sg1 & sg2 & _ & _ & _ & _ & es1 & es2 & _ & same).
  exists r1, r2, sg1, sg2. now repeat split.
Defined.

(** X15. On an engine that arose from the constructor, [verify] of an
    identifier without receipt data returns, echoes the identifier, and
    reports [verified] true exactly when a receipt is stored under the
    identifier; for an identifier that is not stored the result carries
    the error "Receipt not found or no signature data" and no
    [verificationError] flag. *)
Theorem verify_by_id_iff_stored `{host : Host} `{crypto : WebCrypto}
    `{laws : !WebCryptoLaws} this now id :
  Reach.reachable this ->
  exists v,
    ReceiptEngine.verify now id None this = JS.Return v /\
    Verification.receiptId v = id /\
    (Verification.verified v = true <->
     is_Some (ReceiptEngine.getById id this)) /\
    (ReceiptEngine.getById id this = None ->
     Verification.error v = Some "Receipt not found or no signature data" /\
     Verification.verificationError v = None /\
     Verification.signatureValid v = None).
Proof.
  intros reach.
  destruct (reachable_consistent _ reach) as (_ & receipts).
  destruct (ReceiptEngine.getById id this) as [ r | ] eqn:stored.
  - destruct (receipts id r stored) as (_ & auth).
    destruct (verify_authentic now id r this auth) as (v & ev & t & _).
    exists v. rewrite (verify_stored _ _ _ _ stored).
    split; [ exact ev | ].
    split; [ exact (proj1 (verify_flags _ _ _ _ _ ev)) | ].
    split; [ split; eauto | discriminate ].
  - rewrite (verify_not_stored now id this stored).
    eexists. split; [ reflexivity | ]. split; [ reflexivity | ].
    split; [ | now intros _ ].
    split; [ discriminate | intros (r & found); discriminate found ].
Qed.

Lemma verify_by_id_iff_stored_witness :
  exists v,
    ReceiptEngine.verify (host := Sample.host) (crypto := Sample.crypto)
      0%N "DR-LOYW3V28-616263646566" None (snd Sample.created)
    = JS.Return v /\
    Verification.verified v = true.
Proof.
  assert (reach : Reach.reachable (host := Sample.host)
                    (crypto := Sample.crypto) (snd Sample.created)).
  { exists JS.Null.
    apply (Reach.evolves_create _ Sample.fresh Sample.offline
             Sample.options (fst Sample.created)).
    - apply Reach.evolves_refl.
    - unfold Sample.created. now destruct (ReceiptEngine.create _ _ _). }
  destruct (verify_by_id_iff_stored (host := Sample.host)
              (crypto := Sample.crypto) (laws := sample_laws)
              (snd Sample.created) 0%N "DR-LOYW3V28-616263646566" reach)
    as (v & ev & _ & iff & _).
  exists v. split; [ exact ev | ].
  apply iff. vm_compute. eauto.
Defined.

(** X16. [verify] reports the anchor and the witness as confirmed whenever
    the signature check ran, whatever the receipt holds: a receipt created
    while the beacon was unavailable has no anchor block, and [verify] of
    its identifier still returns [chainAnchored] true and
    [witnessConfirmed] true. *)
Theorem verify_confirms_anchor_without_round `{host : Host} `{crypto : WebCrypto}
    `{laws : !WebCryptoLaws} this e options r this' now :
  Reach.reachable this ->
  Reach.unavailable (ReceiptEngine.fetched e) ->
  ReceiptEngine.create e options this = (JS.Return r, this') ->
  Receipt.drand r = None /\
  exists v,
    ReceiptEngine.verify now (Receipt.receiptId r) None this' = JS.Return v /\
    Verification.chainAnchored v = Some true /\
    Verification.witnessConfirmed v = Some true.
Proof.
  intros reach down created.
  pose proof (reachable_consistent _ reach) as cons.
  destruct (create_consistent _ _ _ _ _ cons created) as (_ & facts).
  destruct (facts r eq_refl) as (_ & _ & _ & anchor & _).
  split; [ exact (anchor (fetchDrandRound_unavailable _ down)) | ].
  destruct (created_receipt_verifies this e options r this' this' now cons
              created (Reach.evolves_refl _)) as (v & ev & _ & sv).
  exists v. split; [ exact ev | ].
  destruct (proj2 (verify_flags _ _ _ _ _ ev)) as (anchored & confirmed & _).
  { rewrite sv. discriminate. }
  now split.
Qed.

Lemma verify_confirms_anchor_without_round_witness :
  match Sample.created with
  | (JS.Return r, this') =>
      Receipt.drand r = None /\
      exists v,
        ReceiptEngine.verify (host := Sample.host) (crypto := Sample.crypto)
          0%N (Receipt.receiptId r) None this' = JS.Return v /\
        Verification.chainAnchored v = Some true
  | (JS.Throw _, _) => False
  end.
Proof.
  destruct Sample.created as [ [ r | error ] this' ] eqn:created.
  - destruct (verify_confirms_anchor_without_round (host := Sample.host)
                (crypto := Sample.crypto) (laws := sample_laws)
                Sample.fresh Sample.offline Sample.options r this' 0%N)
      as (anchor & v & ev & anchored & _).
    + exists JS.Null. constructor.
    + left. eexists. reflexivity.
    + exact created.
    + split; [ exact anchor | ]. exists v. now split.
  - vm_compute in created. discriminate created.
Defined.

(** X17. [createPhysicalReceipt] returns a record and stores nothing: the
    engine is left as it is, the record bears the identifier drawn from
    the clock and the random octets and the fixed scores 75, 70 and 80
    (a signed receipt of method [physical] has technical score 65), and
    unless a signed receipt is stored under that identifier, [verify]
    of it reports that the receipt was not found. *)
Theorem physical_receipt_is_not_stored `{host : Host} `{crypto : WebCrypto}
    e options this :
  exists p,
    ReceiptEngine.createPhysicalReceipt e options this = (JS.Return p, this) /\
    PhysicalReceipt.receiptId p = ReceiptEngine.generateReceiptId e /\
    PhysicalReceipt.deliveryId p = ReceiptEngine.p_deliveryId options /\
    Legal.score (PhysicalReceipt.legal p) = JS.Val (JS.int 75) /\
    Legal.technical (PhysicalReceipt.legal p) = JS.Val (JS.int 70) /\
    Legal.arguable (PhysicalReceipt.legal p) = JS.Val (JS.int 80) /\
    ReceiptEngine.calculateTechnicalScore "physical" = JS.Val (JS.int 65) /\
    forall now,
      ReceiptEngine.getById (PhysicalReceipt.receiptId p) this = None ->
      exists v,
        ReceiptEngine.verify now (PhysicalReceipt.receiptId p) None this
        = JS.Return v /\
        Verification.verified v = false /\
        Verification.error v = Some "Receipt not found or no signature data".
Proof.
  eexists. split; [ reflexivity | ].
  cbn [PhysicalReceipt.receiptId PhysicalReceipt.deliveryId
       PhysicalReceipt.legal Legal.score Legal.technical Legal.arguable].
  do 5 (split; [ reflexivity | ]).
  split; [ vm_compute; reflexivity | ].
  intros now missing. rewrite (verify_not_stored now _ this missing).
  eexists. now repeat split.
Qed.

(** X18. [receipt] of the orchestrator hands [create] the delivery and the
    signer it was given, the clock reading as time stamp, and the method
    [options.method || 'digital']: a missing or empty method makes a
    digital receipt, scored 85, 90 and 80. A receipt it returns is the one
    stored under the identifier drawn for the call. *)
Theorem receipt_defaults_to_digital `{host : Host} `{crypto : WebCrypto}
    e now deliveryId options this r this' :
  ChittyDLVR.receipt e now deliveryId options this = (JS.Return r, this') ->
  Receipt.deliveryId r = deliveryId /\
  Receipt.signer r = ChittyDLVR.signer options /\
  Receipt.createdAt r = JS.String (toISOString now) /\
  ReceiptEngine.getById (ReceiptEngine.generateReceiptId e) this' = Some r /\
  (forall m, ChittyDLVR.receipt_method options = Some m -> m <> "" ->
             Receipt.method r = m) /\
  (ChittyDLVR.receipt_method options = None \/
   ChittyDLVR.receipt_method options = Some "" ->
   Receipt.method r = "digital" /\
   Legal.score (Receipt.legal r) = JS.Val (JS.int 85) /\
   Legal.technical (Receipt.legal r) = JS.Val (JS.int 90) /\
   Legal.arguable (Receipt.legal r) = JS.Val (JS.int 80)).
Proof.
  unfold ChittyDLVR.receipt. intros created.
  destruct (create_step _ _ _ _ _ created) as (_ & _ & _ & made).
  destruct (made r eq_refl) as (eid & grown & ed & es & em & et & _).
  destruct (create_legal _ _ _ _ _ created) as (_ & score & technical & arguable).
  cbn [ReceiptEngine.deliveryId ReceiptEngine.signer ReceiptEngine.method_
       ReceiptEngine.timestamp] in *.
  split; [ exact ed | ]. split; [ exact es | ]. split; [ exact et | ].
  split.
  { unfold ReceiptEngine.getById. rewrite grown, <- eid.
    apply lookup_insert_eq. }
  split.
  - intros m given filled. rewrite given in em.
    destruct (String.eqb_spec m ""); [ contradiction | exact em ].
  - intros missing.
    assert (digital : match ChittyDLVR.receipt_method options with
                      | Some m => if String.eqb m "" then Some "digital"
                                  else Some m
                      | None => Some "digital"
                      end = Some "digital")
      by (destruct missing as [ -> | -> ]; reflexivity).
    rewrite digital in em, score, technical, arguable.
    split; [ exact em | ].
    rewrite score, technical, arguable. now repeat split.
Qed.

Lemma receipt_defaults_to_digital_witness :
  match ChittyDLVR.receipt (host := Sample.host) (crypto := Sample.crypto)
          Sample.offline 0%N (JS.String "DD-TEST-123")
          {| ChittyDLVR.signer := JS.String "recipient-id";
             ChittyDLVR.receipt_method := None |} Sample.fresh with
  | (JS.Return r, _) =>
      Receipt.method r = "digital" /\
      Legal.score (Receipt.legal r) = JS.Val (JS.int 85)
  | (JS.Throw _, _) => False
  end.
Proof.
  destruct (ChittyDLVR.receipt _ _ _ _ _) as [ [ r | error ] this' ] eqn:made.
  - destruct (receipt_defaults_to_digital (host := Sample.host)
                (crypto := Sample.crypto) Sample.offline 0%N
                (JS.String "DD-TEST-123")
                {| ChittyDLVR.signer := JS.String "recipient-id";
                   ChittyDLVR.receipt_method := None |}
                Sample.fresh r this' made)
      as (_ & _ & _ & _ & _ & digital).
    destruct (digital (or_introl eq_refl)) as (em & score & _).
    now split.
  - vm_compute in made. discriminate made.
Defined.

(** X19. The legal scores of a receipt are numbers within fixed bounds
    unless the method names a member of Object.prototype. For any other
    method [create] returns a receipt whose score lies in 70..95, technical
    score in 60..90 and arguable score in 70..95, a method outside the
    tables getting 70, 60 and 70; for a method such as [constructor] the
    three scores are the inherited object, not a number. *)
Theorem receipt_scores_bounded `{host : Host} `{crypto : WebCrypto}
    e options this r this' :
  ReceiptEngine.create e options this = (JS.Return r, this') ->
  (JS.inherited (Receipt.method r) = false ->
   exists s t a,
     Legal.score (Receipt.legal r) = JS.Val (JS.int s) /\
     Legal.technical (Receipt.legal r) = JS.Val (JS.int t) /\
     Legal.arguable (Receipt.legal r) = JS.Val (JS.int a) /\
     70 <= s <= 95 /\ 60 <= t <= 90 /\ 70 <= a <= 95 /\
     (JS.own ReceiptEngine.scores_receipt (Receipt.method r) = None ->
      s = 70 /\ t = 60 /\ a = 70)) /\
  (JS.inherited (Receipt.method r) = true ->
   Legal.score (Receipt.legal r) = JS.Proto (Receipt.method r) /\
   Legal.technical (Receipt.legal r) = JS.Proto (Receipt.method r) /\
   Legal.arguable (Receipt.legal r) = JS.Proto (Receipt.method r)).
Proof.
  intros created.
  destruct (create_step _ _ _ _ _ created) as (_ & _ & _ & made).
  destruct (made r eq_refl) as (_ & _ & _ & _ & em & _).
  destruct (create_legal _ _ _ _ _ created) as (_ & -> & -> & ->).
  rewrite <- em. split.
  - exact (receipt_scores_by_name (Receipt.method r)).
  - intros proto.
    unfold ReceiptEngine.calculateReceiptScore,
      ReceiptEngine.calculateTechnicalScore,
      ReceiptEngine.calculateArguableScore, JS.get.
    assert (none : forall table : list (string * JS.number),
               (forall k x, In (k, x) table -> JS.inherited k = false) ->
               JS.own table (Receipt.method r) = None).
    { induction table as [ | [ k x ] rest IH ]; intros plain;
        [ reflexivity | ].
      cbn [JS.own]. destruct (String.eqb_spec k (Receipt.method r)) as [ same | _ ].
      - rewrite <- same, (plain k x (or_introl eq_refl)) in proto.
        discriminate.
      - apply IH. intros k' x' inside. apply (plain k' x'). now right. }
    assert (plain : forall table : list (string * JS.number),
               forallb (fun kx => negb (JS.inherited (fst kx))) table = true ->
               forall k x, In (k, x) table -> JS.inherited k = false).
    { intros table checked k x inside.
      rewrite forallb_forall in checked.
      specialize (checked (k, x) inside). now apply negb_true_iff in checked. }
    rewrite (none _ (plain ReceiptEngine.scores_receipt eq_refl)),
      (none _ (plain ReceiptEngine.scores_technical eq_refl)),
      (none _ (plain ReceiptEngine.scores_arguable eq_refl)), proto.
    now repeat split.
Qed.

Lemma receipt_scores_bounded_witness :
  match ReceiptEngine.create (host := Sample.host) (crypto := Sample.crypto)
          Sample.offline
          {| ReceiptEngine.deliveryId := JS.String "DD-TEST-123";
             ReceiptEngine.signer := JS.String "recipient-id";
             ReceiptEngine.method_ := Some "constructor";
             ReceiptEngine.timestamp := JS.String "2026-01-01T00:00:00.000Z" |}
          Sample.fresh with
  | (JS.Return r, _) =>
      Legal.score (Receipt.legal r) = JS.Proto "constructor"
  | (JS.Throw _, _) => False
  end.
Proof.
  destruct (ReceiptEngine.create _ _ _) as [ [ r | error ] this' ] eqn:made.
  - destruct (proj2 (receipt_scores_bounded (host := Sample.host)
                (crypto := Sample.crypto) Sample.offline
                {| ReceiptEngine.deliveryId := JS.String "DD-TEST-123";
                   ReceiptEngine.signer := JS.String "recipient-id";
                   ReceiptEngine.method_ := Some "constructor";
                   ReceiptEngine.timestamp :=
                     JS.String "2026-01-01T00:00:00.000Z" |}
                Sample.fresh r this' made)) as (score & _).
    + vm_compute in made. injection made as <- _. reflexivity.
    + rewrite score. vm_compute in made. injection made as <- _. reflexivity.
  - vm_compute in made. discriminate made.
Defined.

Lemma physical_receipt_is_not_stored_witness :
  exists p v,
    ReceiptEngine.createPhysicalReceipt (crypto := Sample.crypto)
      Sample.offline
      {| ReceiptEngine.p_deliveryId := JS.String "DD-TEST-123";
         ReceiptEngine.p_carrier := JS.String "USPS";
         ReceiptEngine.p_trackingNumber := JS.String "9400";
         ReceiptEngine.p_signedBy := JS.String "J. Doe";
         ReceiptEngine.p_timestamp := JS.String "2026-01-01T00:00:00.000Z" |}
      Sample.fresh = (JS.Return p, Sample.fresh) /\
    ReceiptEngine.verify (host := Sample.host) (crypto := Sample.crypto)
      0%N (PhysicalReceipt.receiptId p) None Sample.fresh = JS.Return v /\
    Verification.verified v = false.
Proof.
  destruct (physical_receipt_is_not_stored (host := Sample.host)
              (crypto := Sample.crypto) Sample.offline
              {| ReceiptEngine.p_deliveryId := JS.String "DD-TEST-123";
                 ReceiptEngine.p_carrier := JS.String "USPS";
                 ReceiptEngine.p_trackingNumber := JS.String "9400";
                 ReceiptEngine.p_signedBy := JS.String "J. Doe";
                 ReceiptEngine.p_timestamp :=
                   JS.String "2026-01-01T00:00:00.000Z" |}
              Sample.fresh)
    as (p & made & _ & _ & _ & _ & _ & _ & missing).
  destruct (missing 0%N) as (v & ev & refused & _).
  { apply lookup_empty. }
  exists p, v. now repeat split.
Defined.

(** ** Initialization *)

(** X20. [initialize] returns exactly when the orchestrator is initialized
    already, has no API key, or has a string of at least 16 characters as
    API key; otherwise it throws "Invalid API key format" and leaves the
    orchestrator uninitialized. What it returns is initialized, keeps the
    key, and a second call returns the same. *)
Theorem initialize_outcomes this :
  (forall this',
      ChittyDLVR.initialize this = JS.Return this' ->
      ChittyDLVR.initialized this' = true /\
      ChittyDLVR.apiKey this' = ChittyDLVR.apiKey this /\
      ChittyDLVR.initialize this' = JS.Return this') /\
  (forall error,
      ChittyDLVR.initialize this = JS.Throw error ->
      error = JS.Error "Invalid API key format" /\
      ChittyDLVR.initialized this = false) /\
  ((exists this', ChittyDLVR.initialize this = JS.Return this') <->
   ChittyDLVR.initialized this = true \/
   JS.truthy (ChittyDLVR.apiKey this) = false \/
   exists key, ChittyDLVR.apiKey this = JS.String key /\
               (16 <= String.length key)%nat).
Proof.
  destruct this as [ key [ | ] ]; unfold ChittyDLVR.initialize;
    cbn [ChittyDLVR.initialized ChittyDLVR.apiKey].
  - split; [ intros this' [= <-]; now repeat split | ].
    split; [ discriminate | ]. split; eauto.
  - unfold ChittyDLVR.validateApiKey. cbn [ChittyDLVR.apiKey].
    destruct (JS.truthy key) eqn:filled; cbn [negb JS.bind].
    + destruct key as [ | | b | x | text | items | fields ];
        try discriminate filled; cbn [JS.bind].
      1-2,4-5:
        (split; [ discriminate | ];
         split; [ intros error [= <-]; now split | ];
         split; [ intros (this' & returned); discriminate returned | ];
         intros [ initialized | [ falsy | (text & found & _) ] ];
         discriminate).
      destruct (Nat.ltb_spec (String.length text) 16) as [ short | long ];
        cbn [JS.bind].
      * split; [ discriminate | ].
        split; [ intros error [= <-]; now split | ].
        split; [ intros (this' & returned); discriminate returned | ].
        intros [ initialized | [ falsy | (text' & [= <-] & long) ] ];
          try discriminate. lia.
      * split; [ intros this' [= <-]; now repeat split | ].
        split; [ discriminate | ].
        split; [ intros _ | eauto ]. right. right. eauto.
    + split; [ intros this' [= <-]; now repeat split | ].
      split; [ discriminate | ]. split; eauto.
Qed.

Lemma initialize_outcomes_witness :
  exists this',
    ChittyDLVR.initialize
      (ChittyDLVR.constructed (JS.String "test-key-minimum-16ch"))
    = JS.Return this' /\
    ChittyDLVR.initialized this' = true /\
    ChittyDLVR.initialize this' = JS.Return this'.
Proof.
  destruct (proj2 (proj2 (proj2 (initialize_outcomes
              (ChittyDLVR.constructed (JS.String "test-key-minimum-16ch"))))))
    as (this' & returned).
  { right. right. exists "test-key-minimum-16ch". split; [ reflexivity | ].
    vm_compute. lia. }
  exists this'. split; [ exact returned | ].
  destruct (proj1 (initialize_outcomes
              (ChittyDLVR.constructed (JS.String "test-key-minimum-16ch")))
              this' returned) as (done & _ & again).
  now split.
Defined.

(** ** The worker *)

Section WorkerFacts.
Import JS Worker.

Lemma allowed_origin o :
  existsb (String.eqb o) ALLOWED_ORIGINS = true <-> In o ALLOWED_ORIGINS.
Proof.
  rewrite existsb_exists. split.
  - intros (x & inside & same). apply String.eqb_eq in same. now subst x.
  - intros inside. exists o. split; [ exact inside | apply String.eqb_refl ].
Qed.

Lemma getCorsOrigin_allowed origin : In (getCorsOrigin origin) ALLOWED_ORIGINS.
Proof.
  unfold getCorsOrigin. destruct origin as [ o | ]; [ | now left ].
  destruct (truthy (String o)); cbn [andb]; [ | now left ].
  destruct (existsb (String.eqb o) ALLOWED_ORIGINS) eqn:allowed;
    [ | now left ].
  now apply allowed_origin.
Qed.

(** The loop of [authenticate] leaves 0 exactly when no index differs. *)
Lemma fold_mismatch tokenHash keyHash indices start :
  fold_left
    (fun mismatch i =>
       N.lor mismatch (N.lxor (octet_at tokenHash i) (octet_at keyHash i)))
    indices start = 0%N <->
  start = 0%N /\
  forall i, In i indices -> octet_at tokenHash i = octet_at keyHash i.
Proof.
  revert start. induction indices as [ | i rest IH ]; intros start;
    cbn [fold_left].
  - split; [ intros ->; split; [ reflexivity | contradiction ] | tauto ].
  - rewrite IH, N.lor_eq_0_iff, N.lxor_eq_0_iff. split.
    + intros ((zero & same) & others). split; [ exact zero | ].
      intros j [ <- | inside ]; [ exact same | exact (others j inside) ].
    + intros (zero & all). split; [ split; [ exact zero | ] | ].
      * apply all. now left.
      * intros j inside. apply all. now right.
Qed.

Lemma mismatch_of_zero tokenHash keyHash :
  mismatch_of tokenHash keyHash = 0%N <->
  forall i, (i < List.length tokenHash)%nat ->
            octet_at tokenHash i = octet_at keyHash i.
Proof.
  unfold mismatch_of. rewrite fold_mismatch. split.
  - intros (_ & all) i below. apply all, in_seq. lia.
  - intros all. split; [ reflexivity | ].
    intros i inside. apply all. apply in_seq in inside. lia.
Qed.

Lemma octets_equal (x y : list byte) :
  List.length x = List.length y ->
  (forall i, (i < List.length x)%nat -> octet_at x i = octet_at y i) ->
  x = y.
Proof.
  revert y. induction x as [ | a x IH ]; intros [ | b y ] len same;
    try discriminate len; [ reflexivity | ].
  f_equal.
  - specialize (same 0%nat (Nat.lt_0_succ _)). cbn in same.
    pose proof (f_equal Byte.of_N same) as eq.
    rewrite !Byte.of_to_N in eq. now injection eq.
  - apply IH; [ now injection len | ].
    intros i below. apply (same (S i)). cbn [List.length]. lia.
Qed.

Lemma substring_bearer token : substring_from 7 ("Bearer " ++ token) = token.
Proof. reflexivity. Qed.

Lemma prefix_append p s :
  String.prefix p s = true -> exists rest, s = p ++ rest.
Proof.
  revert s. induction p as [ | c p IH ]; intros s.
  - intros _. now exists s.
  - destruct s as [ | d s ]; cbn [String.prefix]; [ discriminate | ].
    destruct (Ascii.ascii_dec c d) as [ <- | _ ]; [ | discriminate ].
    intros matched. destruct (IH s matched) as (rest & ->). now exists rest.
Qed.

Lemma prefix_of_append p rest : String.prefix p (p ++ rest) = true.
Proof.
  induction p as [ | c p IH ]; [ now destruct rest | ].
  change (String.String c p ++ rest) with (String.String c (p ++ rest)).
  cbn [String.prefix]. now destruct (Ascii.ascii_dec c c).
Qed.

End WorkerFacts.

(** X21. The origin a response allows is always one of the four allowed
    origins: the origin of the request when that is one of them, and the
    first of the list otherwise, whatever the request sends. *)
Theorem cors_origin_is_allowed origin :
  In (Worker.getCorsOrigin origin) Worker.ALLOWED_ORIGINS /\
  (forall data status,
      In (Http.allowOrigin (Worker.jsonResponse data status origin))
         Worker.ALLOWED_ORIGINS) /\
  (forall o, origin = Some o ->
             (Worker.getCorsOrigin origin = o <->
              In o Worker.ALLOWED_ORIGINS)) /\
  (Worker.getCorsOrigin origin <> "https://dlvr.chitty.cc" ->
   origin = Some (Worker.getCorsOrigin origin)).
Proof.
  split; [ apply getCorsOrigin_allowed | ].
  split; [ intros data status; apply getCorsOrigin_allowed | ].
  split.
  - intros o ->. split.
    + intros <-. apply (getCorsOrigin_allowed (Some o)).
    + intros inside. unfold Worker.getCorsOrigin.
      rewrite (proj2 (allowed_origin o) inside).
      destruct inside as [ <- | [ <- | [ <- | [ <- | [] ] ] ] ]; reflexivity.
  - unfold Worker.getCorsOrigin. destruct origin as [ o | ];
      [ | intros other; now destruct other ].
    destruct (_ && _); [ reflexivity | intros other; now destruct other ].
Qed.

Lemma cors_origin_is_allowed_witness :
  Worker.getCorsOrigin (Some "https://portal.chitty.cc")
  = "https://portal.chitty.cc" /\
  Worker.getCorsOrigin (Some "https://evil.example") = "https://dlvr.chitty.cc".
Proof.
  split.
  - apply (proj1 (proj2 (proj2 (cors_origin_is_allowed
             (Some "https://portal.chitty.cc")))) _ eq_refl).
    cbn. tauto.
  - destruct (String.eqb_spec
                (Worker.getCorsOrigin (Some "https://evil.example"))
                "https://dlvr.chitty.cc") as [ same | other ];
      [ exact same | ].
    pose proof (proj2 (proj2 (proj2 (cors_origin_is_allowed
                  (Some "https://evil.example")))) other) as echoed.
    vm_compute in echoed. discriminate echoed.
Defined.

(** X22. [authenticate] accepts a request exactly when its Authorization
    header is "Bearer " followed by a token that is not empty, the service
    token is configured, and the digests of the two agree at every index
    of the token's digest; with digests of one length, as SHA-256 gives,
    that is when the digests are equal. The configured token itself is
    accepted, and an accepted request is given the configured identity, or
    "authenticated" when none is configured. *)
Theorem authenticate_accepts `{host : Host} `{digest : Digest}
    authHeader CHITTY_AUTH_SERVICE_TOKEN CHITTY_ID :
  (forall message message',
      List.length (SHA256 message) = List.length (SHA256 message')) ->
  (Worker.valid
     (Worker.authenticate authHeader CHITTY_AUTH_SERVICE_TOKEN CHITTY_ID)
   = true <->
   exists token validKey,
     authHeader = Some ("Bearer " ++ token) /\ token <> "" /\
     CHITTY_AUTH_SERVICE_TOKEN = Some validKey /\ validKey <> "" /\
     SHA256 (TextEncoder_encode token)
     = SHA256 (TextEncoder_encode validKey)) /\
  (forall validKey,
      validKey <> "" ->
      Worker.authenticate (Some ("Bearer " ++ validKey)) (Some validKey)
        CHITTY_ID
      = {| Worker.valid := true;
           Worker.chittyId :=
             Some match CHITTY_ID with
                  | Some "" | None => "authenticated"
                  | Some id => id
                  end |}) /\
  (Worker.valid
     (Worker.authenticate authHeader CHITTY_AUTH_SERVICE_TOKEN CHITTY_ID)
   = false ->
   Worker.authenticate authHeader CHITTY_AUTH_SERVICE_TOKEN CHITTY_ID
   = Worker.rejected).
Proof.
  intros fixed.
  assert (agree : forall token validKey,
             Worker.mismatch_of (SHA256 (TextEncoder_encode token))
               (SHA256 (TextEncoder_encode validKey)) = 0%N <->
             SHA256 (TextEncoder_encode token)
             = SHA256 (TextEncoder_encode validKey)).
  { intros token validKey. rewrite mismatch_of_zero. split.
    - apply octets_equal, fixed.
    - now intros ->. }
  split; [ | split ].
  - unfold Worker.authenticate. split.
    + destruct authHeader as [ header | ]; [ | discriminate ].
      destruct (String.prefix "Bearer " header) eqn:bearer; cbn [negb];
        [ | discriminate ].
      destruct (prefix_append _ _ bearer) as (token & ->).
      rewrite substring_bearer.
      destruct (String.eqb_spec token "") as [ | filled ]; [ discriminate | ].
      destruct CHITTY_AUTH_SERVICE_TOKEN as [ [ | c validKey ] | ];
        try discriminate.
      destruct (N.eqb_spec
                  (Worker.mismatch_of (SHA256 (TextEncoder_encode token))
                     (SHA256 (TextEncoder_encode (String.String c validKey))))
                  0) as [ zero | ]; cbn [negb]; [ | discriminate ].
      intros _. exists token, (String.String c validKey).
      split; [ reflexivity | ]. split; [ exact filled | ].
      split; [ reflexivity | ]. split; [ discriminate | ].
      now apply agree.
    + intros (token & validKey & -> & filled & -> & configured & same).
      rewrite prefix_of_append. cbn [negb]. rewrite substring_bearer.
      destruct (String.eqb_spec token ""); [ contradiction | ].
      destruct validKey as [ | c validKey ]; [ contradiction | ].
      rewrite (proj2 (agree token (String.String c validKey)) same).
      reflexivity.
  - intros validKey configured. unfold Worker.authenticate.
    rewrite prefix_of_append. cbn [negb]. rewrite substring_bearer.
    destruct (String.eqb_spec validKey ""); [ contradiction | ].
    destruct validKey as [ | c validKey ]; [ contradiction | ].
    rewrite (proj2 (agree _ _) eq_refl). cbn [N.eqb negb].
    now destruct CHITTY_ID as [ [ | d id ] | ].
  - unfold Worker.authenticate.
    destruct authHeader as [ header | ]; [ | reflexivity ].
    destruct (negb _); [ reflexivity | ].
    destruct (String.eqb _ _); [ reflexivity | ].
    destruct CHITTY_AUTH_SERVICE_TOKEN as [ [ | c validKey ] | ];
      try reflexivity.
    destruct (negb _); [ reflexivity | discriminate ].
Qed.

Lemma authenticate_accepts_witness :
  Worker.authenticate (host := Sample.host) (digest := SampleDigest.digest)
    (Some "Bearer service-token") (Some "service-token") None
  = {| Worker.valid := true; Worker.chittyId := Some "authenticated" |}.
Proof.
  refine (proj1 (proj2 (authenticate_accepts (host := Sample.host)
                   (digest := SampleDigest.digest)
                   (Some "Bearer service-token") (Some "service-token") None
                   _)) "service-token" _).
  - intros message message'. cbn [SHA256 SampleDigest.digest].
    rewrite !length_firstn, !length_app, !repeat_length. lia.
  - discriminate.
Defined.

(** ** Identifiers and the public routes *)

Section Identifiers.
Import JS Ident.

Lemma all_chars_app p a b :
  all_chars p (a ++ b) = all_chars p a && all_chars p b.
Proof.
  induction a as [ | c a IH ]; [ reflexivity | ].
  change (String.String c a ++ b) with (String.String c (a ++ b)).
  cbn [all_chars]. now rewrite IH, andb_assoc.
Qed.

Lemma toUpperCase_app a b :
  toUpperCase (a ++ b) = toUpperCase a ++ toUpperCase b.
Proof.
  induction a as [ | c a IH ]; [ reflexivity | ].
  change (String.String c a ++ b) with (String.String c (a ++ b)).
  cbn [toUpperCase]. rewrite IH. reflexivity.
Qed.

Lemma numeral_id_char d : all_chars id_char (toUpperCase (numeral d)) = true.
Proof.
  unfold numeral. cbn [toUpperCase all_chars]. rewrite andb_true_r.
  assert (every : forallb (fun c => id_char (upper c))
                    ("0"%char :: numerals) = true) by (vm_compute; reflexivity).
  rewrite forallb_forall in every. apply every.
  destruct (nth_in_or_default (N.to_nat d) numerals "0"%char) as [ inside | -> ];
    [ now right | now left ].
Qed.

Lemma to_radix_id_char fuel radix n :
  all_chars id_char (toUpperCase (to_radix fuel radix n)) = true.
Proof.
  revert n. induction fuel as [ | fuel IH ]; intros n; cbn [to_radix].
  - apply numeral_id_char.
  - destruct (n <? radix)%N; [ apply numeral_id_char | ].
    now rewrite toUpperCase_app, all_chars_app, IH, numeral_id_char.
Qed.

Lemma hex_id_char bytes : all_chars id_char (toUpperCase (hex bytes)) = true.
Proof.
  unfold hex.
  assert (octet : forall b, all_chars id_char (toUpperCase (hex_octet b)) = true).
  { intros b. unfold hex_octet.
    now rewrite toUpperCase_app, all_chars_app, !numeral_id_char. }
  induction bytes as [ | b [ | b' rest ] IH ]; [ reflexivity | apply octet | ].
  change (String.concat "" (map hex_octet (b :: b' :: rest)))
    with (hex_octet b ++ "" ++ String.concat "" (map hex_octet (b' :: rest))).
  change ("" ++ ?s) with s.
  now rewrite toUpperCase_app, all_chars_app, octet, IH.
Qed.

(** An identifier as every generator builds it. *)
Lemma identifier_well_formed tag clock random :
  all_chars id_char (toUpperCase tag) = true ->
  all_chars id_char
    (toUpperCase (tag ++ toString_radix 36 clock ++ "-" ++ hex random)) = true.
Proof.
  intros tagged. unfold toString_radix.
  rewrite !toUpperCase_app, !all_chars_app, tagged, to_radix_id_char,
    hex_id_char.
  reflexivity.
Qed.

Lemma prefix_nil s : String.prefix "" s = true.
Proof. now destruct s. Qed.

Lemma split_plain s : all_chars id_char s = true -> Worker.split s = [ s ].
Proof.
  induction s as [ | c s IH ]; [ reflexivity | ].
  cbn [all_chars Worker.split]. intros ok.
  apply andb_true_iff in ok as (plain & rest).
  destruct (Ascii.eqb_spec c "/") as [ -> | _ ];
    [ vm_compute in plain; discriminate plain | ].
  now rewrite (IH rest).
Qed.

Lemma split_nonempty s : Worker.split s <> [].
Proof.
  destruct s as [ | c s ]; cbn [Worker.split]; [ discriminate | ].
  destruct (Ascii.eqb c "/"); [ discriminate | ].
  destruct (Worker.split s); discriminate.
Qed.

Lemma last_split_cons c s :
  Worker.split s = [ ] \/
  (exists first, Worker.split s = [ first ] /\
     Worker.last_segment (String.String c s)
     = if Ascii.eqb c "/" then first else String.String c first) \/
  ((2 <= List.length (Worker.split s))%nat /\
   (2 <= List.length (Worker.split (String.String c s)))%nat /\
   Worker.last_segment (String.String c s) = Worker.last_segment s).
Proof.
  unfold Worker.last_segment. cbn [Worker.split].
  destruct (Worker.split s) as [ | first [ | second others ] ];
    [ now left | right; left | right; right ].
  - exists first. split; [ reflexivity | ].
    now destruct (Ascii.eqb c "/").
  - destruct (Ascii.eqb c "/"); cbn [List.length]; repeat split; lia.
Qed.

(** The last segment of a path that ends in a slash and a text. *)
Lemma last_segment_append a s :
  (2 <= List.length (Worker.split (a ++ String.String "/" s)))%nat /\
  Worker.last_segment (a ++ String.String "/" s) = Worker.last_segment s.
Proof.
  induction a as [ | c a (long & IH) ].
  - change ("" ++ String.String "/" s) with (String.String "/" s).
    unfold Worker.last_segment. cbn [Worker.split Ascii.eqb Bool.eqb].
    pose proof (split_nonempty s) as some.
    destruct (Worker.split s) as [ | first others ]; [ contradiction | ].
    cbn [List.length]. split; [ lia | reflexivity ].
  - change (String.String c a ++ String.String "/" s)
      with (String.String c (a ++ String.String "/" s)).
    destruct (last_split_cons c (a ++ String.String "/" s))
      as [ none | [ (first & one & _) | (_ & long' & same) ] ].
    + now destruct (split_nonempty _ none).
    + rewrite one in long. cbn in long. lia.
    + split; [ exact long' | now rewrite same ].
Qed.

Lemma last_segment_plain a s :
  all_chars id_char s = true ->
  Worker.last_segment (a ++ String.String "/" s) = s.
Proof.
  intros plain. rewrite (proj2 (last_segment_append a s)).
  unfold Worker.last_segment. now rewrite (split_plain s plain).
Qed.

End Identifiers.

(** An identifier with a tag of capitals and a hyphen. *)
Lemma identifier_shape tag clock random :
  Ident.all_chars Ident.id_char (JS.toUpperCase tag) = true ->
  JS.toUpperCase tag = tag ->
  Ident.well_formed tag
    (JS.toUpperCase
       (tag ++ JS.toString_radix 36 clock ++ "-" ++ JS.hex random)).
Proof.
  intros tagged fixed. split.
  - rewrite toUpperCase_app, fixed. apply prefix_of_append.
  - now apply identifier_well_formed.
Qed.

(** The public path of a receipt ends in its identifier. *)
Lemma receipt_path e :
  String.prefix "DR-" (ReceiptEngine.generateReceiptId e) = true /\
  Worker.last_segment ("/verify/receipt/" ++ ReceiptEngine.generateReceiptId e)
  = ReceiptEngine.generateReceiptId e.
Proof.
  destruct (identifier_shape "DR-" (ReceiptEngine.clock e)
              (ReceiptEngine.random e) eq_refl eq_refl) as (format & plain).
  split; [ exact format | ].
  exact (last_segment_plain "/verify/receipt" _ plain).
Qed.

(** X23. Every generated identifier is its tag ([DR-] for receipts, [DD-]
    for deliveries, [DB-] for batches, [DS-] for services, [DA-] for
    affidavits) followed by digits, upper-case letters and hyphens only.
    So the identifiers pass the format checks of the worker, and the last
    segment of the public path of a receipt or a delivery is the
    identifier itself. *)
Theorem generated_identifiers_are_well_formed :
  (forall e, Ident.well_formed "DR-" (ReceiptEngine.generateReceiptId e)) /\
  (forall e, Ident.well_formed "DD-" (ChittyDLVR.generateDeliveryId e)) /\
  (forall e, Ident.well_formed "DB-" (ChittyDLVR.generateBulkId e)) /\
  (forall e, Ident.well_formed "DS-" (ServiceEngine.generateServiceId e)) /\
  (forall e, Ident.well_formed "DA-" (ServiceEngine.generateAffidavitId e)) /\
  (forall e,
      Worker.last_segment
        ("/verify/receipt/" ++ ReceiptEngine.generateReceiptId e)
      = ReceiptEngine.generateReceiptId e) /\
  (forall e,
      Worker.last_segment ("/track/" ++ ChittyDLVR.generateDeliveryId e)
      = ChittyDLVR.generateDeliveryId e).
Proof.
  do 5 (split; [ intros e; apply identifier_shape; reflexivity | ]).
  split.
  - intros e. apply receipt_path.
  - intros e.
    apply (last_segment_plain "/track"),
      (identifier_shape "DD-" (ChittyDLVR.clock_id e) (ChittyDLVR.random e));
      reflexivity.
Qed.

Section PublicRoutes.
Context `{host : Host} `{crypto : WebCrypto}.
Import JS ReceiptEngine.

Lemma verify_returns now id data this :
  exists v, verify now id data this = Return v.
Proof.
  unfold verify.
  destruct (_ ≫= Receipt.signature) as [ sg | ]; [ | eauto ].
  destruct (Base64.bytes_of_base64 (Signature.publicKey sg));
    cbn [bind try_catch]; [ | eauto ].
  destruct (importKey_spki _); cbn [bind try_catch]; [ | eauto ].
  destruct (Base64.bytes_of_base64 (Signature.value sg));
    cbn [bind try_catch]; [ | eauto ].
  destruct (subtle_verify _ _ _); cbn [bind try_catch]; eauto.
Qed.

(** Handing [verify] the stored receipt is handing it none. *)
Lemma verify_looked_up now id this :
  verify now id (getById id this) this = verify now id None this.
Proof.
  destruct (getById id this) as [ r | ] eqn:stored; [ | reflexivity ].
  symmetry. now apply verify_stored.
Qed.

(** The route of a receipt whose identifier has the format. *)
Lemma receipt_route now path origin receipts v :
  String.prefix "/verify/receipt/" path = true ->
  String.prefix "DR-" (Worker.last_segment path) = true ->
  verify now (Worker.last_segment path) None receipts = Return v ->
  Worker.handlePublicRoute now path origin receipts
  = Return (Worker.jsonResponse (Http.Verified v) 200 origin).
Proof.
  intros route format verified. unfold Worker.handlePublicRoute.
  rewrite route, format. cbn [negb].
  now rewrite verify_looked_up, verified.
Qed.

End PublicRoutes.

(** X24. [handlePublicRoute] always answers, and never with status 500:
    the status is 200, 400 or 404, the allowed origin is one of the list,
    and 404 is the answer exactly for a path that begins with neither
    [/verify/receipt/] nor [/track/]. A verification is sent with status
    200, for the last segment of the path, which then begins with [DR-];
    a tracked delivery is sent with status 200 and is always reported as
    PENDING. *)
Theorem public_route_answers `{host : Host} `{crypto : WebCrypto}
    now path origin receipts :
  exists response,
    Worker.handlePublicRoute now path origin receipts = JS.Return response /\
    In (Http.allowOrigin response) Worker.ALLOWED_ORIGINS /\
    (Http.status response = 200 \/ Http.status response = 400
     \/ Http.status response = 404)%N /\
    (Http.status response = 404%N <->
     String.prefix "/verify/receipt/" path = false /\
     String.prefix "/track/" path = false) /\
    (Http.status response = 400%N <->
     String.prefix "/verify/receipt/" path = true /\
     String.prefix "DR-" (Worker.last_segment path) = false \/
     String.prefix "/verify/receipt/" path = false /\
     String.prefix "/track/" path = true /\
     String.prefix "DD-" (Worker.last_segment path) = false) /\
    (forall v,
        Http.data response = Http.Verified v ->
        Http.status response = 200%N /\
        Verification.receiptId v = Worker.last_segment path /\
        String.prefix "DR-" (Worker.last_segment path) = true) /\
    (forall s,
        Http.data response = Http.Tracked s ->
        Http.status response = 200%N /\
        DeliveryStatus.deliveryId s = Worker.last_segment path /\
        DeliveryStatus.status s = "PENDING").
Proof.
  unfold Worker.handlePublicRoute.
  destruct (String.prefix "/verify/receipt/" path) eqn:receipt.
  - destruct (String.prefix "DR-" (Worker.last_segment path)) eqn:format;
      cbn [negb JS.bind JS.try_catch].
    + destruct (verify_returns now (Worker.last_segment path)
                  (ReceiptEngine.getById (Worker.last_segment path) receipts)
                  receipts) as (v & ev).
      rewrite ev. cbn [JS.bind JS.try_catch]. eexists.
      split; [ reflexivity | ].
      split; [ apply getCorsOrigin_allowed | ].
      cbn [Worker.jsonResponse Http.status Http.data].
      split; [ now left | ].
      split; [ split; [ discriminate | intros (no & _); discriminate no ] | ].
      split.
      { split; [ discriminate | ].
        intros [ (_ & no) | (no & _) ]; discriminate no. }
      split; [ | discriminate ].
      intros v' [= <-]. split; [ reflexivity | ].
      split; [ exact (proj1 (verify_flags _ _ _ _ _ ev)) | reflexivity ].
    + eexists. split; [ reflexivity | ].
      split; [ apply getCorsOrigin_allowed | ].
      cbn [Worker.jsonResponse Http.status Http.data].
      split; [ right; now left | ].
      split; [ split; [ discriminate | intros (no & _); discriminate no ] | ].
      split; [ split; [ intros _; now left | reflexivity ] | ].
      split; discriminate.
  - destruct (String.prefix "/track/" path) eqn:track.
    + destruct (String.prefix "DD-" (Worker.last_segment path)) eqn:format;
        cbn [negb JS.bind JS.try_catch ChittyDLVR.status].
      * eexists. split; [ reflexivity | ].
        split; [ apply getCorsOrigin_allowed | ].
        cbn [Worker.jsonResponse Http.status Http.data].
        split; [ now left | ].
        split; [ split; [ discriminate | intros (_ & no); discriminate no ] | ].
        split.
        { split; [ discriminate | ].
          intros [ (no & _) | (_ & _ & no) ]; discriminate no. }
        split; [ discriminate | ].
        intros s [= <-]. now repeat split.
      * eexists. split; [ reflexivity | ].
        split; [ apply getCorsOrigin_allowed | ].
        cbn [Worker.jsonResponse Http.status Http.data].
        split; [ right; now left | ].
        split; [ split; [ discriminate | intros (_ & no); discriminate no ] | ].
        split; [ split; [ intros _; right; now repeat split | reflexivity ] | ].
        split; discriminate.
    + cbn [JS.try_catch]. eexists. split; [ reflexivity | ].
      split; [ apply getCorsOrigin_allowed | ].
      cbn [Worker.jsonResponse Http.status Http.data].
      split; [ right; now right | ].
      split; [ split; [ now intros _ | reflexivity ] | ].
      split.
      { split; [ discriminate | ].
        intros [ (no & _) | (_ & no & _) ]; discriminate no. }
      split; discriminate.
Qed.

(** X25. On a receipt engine just constructed, as the one of the
    orchestrator the worker builds for each request, the public route of a
    receipt answers 400 for an identifier without [DR-] and otherwise 200
    with a verification that has [verified] false and the error
    "Receipt not found or no signature data". *)
Theorem public_route_on_new_engine `{host : Host} `{crypto : WebCrypto}
    signingKeyJwk now path origin :
  String.prefix "/verify/receipt/" path = true ->
  (String.prefix "DR-" (Worker.last_segment path) = false /\
   Worker.handlePublicRoute now path origin (ReceiptEngine.new signingKeyJwk)
   = JS.Return
       (Worker.jsonResponse (Http.Failed "Invalid receipt ID format") 400
          origin)) \/
  (String.prefix "DR-" (Worker.last_segment path) = true /\
   exists v,
     Worker.handlePublicRoute now path origin (ReceiptEngine.new signingKeyJwk)
     = JS.Return (Worker.jsonResponse (Http.Verified v) 200 origin) /\
     Verification.verified v = false /\
     Verification.verificationError v = None /\
     Verification.error v = Some "Receipt not found or no signature data").
Proof.
  intros route.
  destruct (String.prefix "DR-" (Worker.last_segment path)) eqn:format.
  - right. split; [ reflexivity | ]. eexists. split.
    + apply (receipt_route now path origin _ _ route format).
      apply verify_not_stored. apply lookup_empty.
    + now repeat split.
  - left. split; [ reflexivity | ]. unfold Worker.handlePublicRoute.
    now rewrite route, format.
Qed.

Lemma public_route_on_new_engine_witness :
  exists v,
    Worker.handlePublicRoute (host := Sample.host) (crypto := Sample.crypto)
      0%N "/verify/receipt/DR-LOYW3V28-616263646566" None
      (ReceiptEngine.new JS.Null)
    = JS.Return (Worker.jsonResponse (Http.Verified v) 200 None) /\
    Verification.verified v = false.
Proof.
  destruct (public_route_on_new_engine (host := Sample.host)
              (crypto := Sample.crypto) JS.Null 0%N
              "/verify/receipt/DR-LOYW3V28-616263646566" None eq_refl)
    as [ (bad & _) | (_ & v & answered & refused & _) ].
  - vm_compute in bad. discriminate bad.
  - exists v. now split.
Defined.

(** X26. On the engine that created it, and as long as that engine lives,
    a receipt verifies through the public route: the path
    [/verify/receipt/] followed by the identifier of a receipt [create]
    returned is answered 200 with a verification for that identifier that
    has [verified] true. *)
Theorem public_route_verifies_created `{host : Host} `{crypto : WebCrypto}
    `{laws : !WebCryptoLaws} this e options r this' later now origin :
  Reach.reachable this ->
  ReceiptEngine.create e options this = (JS.Return r, this') ->
  Reach.evolves this' later ->
  exists v,
    Worker.handlePublicRoute now ("/verify/receipt/" ++ Receipt.receiptId r)
      origin later
    = JS.Return (Worker.jsonResponse (Http.Verified v) 200 origin) /\
    Verification.receiptId v = Receipt.receiptId r /\
    Verification.verified v = true.
Proof.
  intros reach created steps.
  pose proof (reachable_consistent _ reach) as cons.
  destruct (created_receipt_verifies this e options r this' later now cons
              created steps) as (v & ev & t & _).
  destruct (create_step _ _ _ _ _ created) as (_ & _ & _ & made).
  destruct (made r eq_refl) as (eid & _).
  destruct (receipt_path e) as (format & last).
  exists v. split; [ | split; [ | exact t ] ].
  - apply receipt_route.
    + apply (prefix_of_append "/verify/receipt/").
    + rewrite eid, last. exact format.
    + rewrite eid, last, <- eid. exact ev.
  - exact (proj1 (verify_flags _ _ _ _ _ ev)).
Qed.

Lemma public_route_verifies_created_witness :
  match Sample.created with
  | (JS.Return r, this') =>
      exists v,
        Worker.handlePublicRoute (host := Sample.host)
          (crypto := Sample.crypto) 0%N
          ("/verify/receipt/" ++ Receipt.receiptId r) None this'
        = JS.Return (Worker.jsonResponse (Http.Verified v) 200 None) /\
        Verification.verified v = true
  | (JS.Throw _, _) => False
  end.
Proof.
  destruct Sample.created as [ [ r | error ] this' ] eqn:created.
  - destruct (public_route_verifies_created (host := Sample.host)
                (crypto := Sample.crypto) (laws := sample_laws)
                Sample.fresh Sample.offline Sample.options r this' this'
                0%N None) as (v & answered & _ & t).
    + exists JS.Null. constructor.
    + exact created.
    + apply Reach.evolves_refl.
    + exists v. now split.
  - vm_compute in created. discriminate created.
Defined.

(** ** The badge *)

Section Escaping.
Import PublicReceipt.

Lemma append_assoc (a b c : string) : (a ++ b) ++ c = a ++ (b ++ c).
Proof.
  induction a as [ | d a IH ]; [ reflexivity | ].
  change (String.String d ((a ++ b) ++ c) = String.String d (a ++ (b ++ c))).
  now rewrite IH.
Qed.

Lemma length_append (a b : string) :
  String.length (a ++ b) = (String.length a + String.length b)%nat.
Proof.
  induction a as [ | d a IH ]; [ reflexivity | ].
  change (String.String d a ++ b) with (String.String d (a ++ b)).
  cbn [String.length]. now rewrite IH.
Qed.

Lemma replace_all_app c by_ a b :
  replace_all c by_ (a ++ b) = replace_all c by_ a ++ replace_all c by_ b.
Proof.
  induction a as [ | d a IH ]; [ reflexivity | ].
  change (String.String d a ++ b) with (String.String d (a ++ b)).
  cbn [replace_all]. rewrite IH.
  destruct (Ascii.eqb d c); [ | reflexivity ].
  now rewrite append_assoc.
Qed.

Lemma escapeHtml_app a b : escapeHtml (a ++ b) = escapeHtml a ++ escapeHtml b.
Proof. unfold escapeHtml. now rewrite !replace_all_app. Qed.

Lemma escapeHtml_cons c s :
  escapeHtml (String.String c s) = entity c ++ escapeHtml s.
Proof.
  change (String.String c s) with (String.String c "" ++ s).
  apply escapeHtml_app.
Qed.

Lemma occurrences_app c a b :
  occurrences c (a ++ b) = (occurrences c a + occurrences c b)%nat.
Proof.
  induction a as [ | d a IH ]; [ reflexivity | ].
  change (String.String d a ++ b) with (String.String d (a ++ b)).
  cbn [occurrences]. rewrite IH. now destruct (Ascii.eqb d c).
Qed.

(** No entity holds a character that opens or closes markup. *)
Lemma entity_is_inert c :
  occurrences "<" (entity c) = 0%nat /\
  occurrences ">" (entity c) = 0%nat /\
  occurrences dq (entity c) = 0%nat /\
  occurrences "'" (entity c) = 0%nat /\
  (1 <= String.length (entity c))%nat.
Proof.
  destruct c as [ [ | ] [ | ] [ | ] [ | ] [ | ] [ | ] [ | ] [ | ] ];
    vm_compute; repeat split; lia.
Qed.

Lemma entity_plain c :
  c <> "&"%char -> c <> "<"%char -> c <> ">"%char -> c <> dq ->
  c <> "'"%char -> entity c = String.String c "".
Proof.
  intros a l g q p. unfold entity, escapeHtml. cbn [replace_all].
  destruct (Ascii.eqb_spec c "&"); [ contradiction | ]. cbn [replace_all].
  destruct (Ascii.eqb_spec c "<"); [ contradiction | ]. cbn [replace_all].
  destruct (Ascii.eqb_spec c ">"); [ contradiction | ]. cbn [replace_all].
  destruct (Ascii.eqb_spec c dq); [ contradiction | ]. cbn [replace_all].
  destruct (Ascii.eqb_spec c "'"); [ contradiction | reflexivity ].
Qed.

Lemma escapeHtml_inert s :
  occurrences "<" (escapeHtml s) = 0%nat /\
  occurrences ">" (escapeHtml s) = 0%nat /\
  occurrences dq (escapeHtml s) = 0%nat /\
  occurrences "'" (escapeHtml s) = 0%nat.
Proof.
  induction s as [ | c s (l & g & q & p) ]; [ now repeat split | ].
  rewrite escapeHtml_cons, !occurrences_app, l, g, q, p.
  destruct (entity_is_inert c) as (-> & -> & -> & -> & _). now repeat split.
Qed.

End Escaping.

(** X27. [escapeHtml] rewrites a text character by character: the result
    for a text is the result for its parts put together, so the five
    replacements in a row act as one pass that never escapes the
    ampersand of an entity it wrote. The result holds no [<], [>], double
    quote or apostrophe, is at least as long as the text, and a text
    without the five characters is left as it is. *)
Theorem escapeHtml_neutralises s :
  (forall a b, s = a ++ b ->
     PublicReceipt.escapeHtml s
     = PublicReceipt.escapeHtml a ++ PublicReceipt.escapeHtml b) /\
  PublicReceipt.occurrences "<" (PublicReceipt.escapeHtml s) = 0%nat /\
  PublicReceipt.occurrences ">" (PublicReceipt.escapeHtml s) = 0%nat /\
  PublicReceipt.occurrences PublicReceipt.dq (PublicReceipt.escapeHtml s)
  = 0%nat /\
  PublicReceipt.occurrences "'" (PublicReceipt.escapeHtml s) = 0%nat /\
  (String.length s <= String.length (PublicReceipt.escapeHtml s))%nat /\
  (PublicReceipt.occurrences "&" s = 0%nat ->
   PublicReceipt.occurrences "<" s = 0%nat ->
   PublicReceipt.occurrences ">" s = 0%nat ->
   PublicReceipt.occurrences PublicReceipt.dq s = 0%nat ->
   PublicReceipt.occurrences "'" s = 0%nat ->
   PublicReceipt.escapeHtml s = s).
Proof.
  split; [ intros a b ->; apply escapeHtml_app | ].
  destruct (escapeHtml_inert s) as (l & g & q & p).
  do 4 (split; [ assumption | ]). clear l g q p. split.
  - induction s as [ | c s IH ]; [ reflexivity | ].
    rewrite escapeHtml_cons, length_append.
    destruct (entity_is_inert c) as (_ & _ & _ & _ & long).
    cbn [String.length]. lia.
  - induction s as [ | c s IH ]; [ reflexivity | ].
    cbn [PublicReceipt.occurrences]. rewrite escapeHtml_cons.
    destruct (Ascii.eqb_spec c "&"); [ discriminate | ].
    destruct (Ascii.eqb_spec c "<"); [ discriminate | ].
    destruct (Ascii.eqb_spec c ">"); [ discriminate | ].
    destruct (Ascii.eqb_spec c PublicReceipt.dq); [ discriminate | ].
    destruct (Ascii.eqb_spec c "'"); [ discriminate | ].
    intros a l g q p. rewrite (IH a l g q p), entity_plain by assumption.
    reflexivity.
Qed.

Lemma escapeHtml_neutralises_witness :
  PublicReceipt.escapeHtml "DR-LOYW3V28-616263646566"
  = "DR-LOYW3V28-616263646566" /\
  PublicReceipt.escapeHtml "<b>&"
  = PublicReceipt.escapeHtml "<b>" ++ PublicReceipt.escapeHtml "&".
Proof.
  split.
  - apply (proj2 (proj2 (proj2 (proj2 (proj2 (proj2
             (escapeHtml_neutralises "DR-LOYW3V28-616263646566")))))));
      reflexivity.
  - apply (proj1 (escapeHtml_neutralises "<b>&") "<b>" "&"). reflexivity.
Defined.

(** X28. The markup of a badge is one element whatever the identifier,
    the size and the theme are: it holds exactly eight double quotes, the
    ones around its four attribute values, two [<], two [>] and no
    apostrophe, so no value can close its attribute or open a tag. *)
Theorem badge_markup_is_closed `{uri : Uri} receiptId options :
  let html := PublicReceipt.html (PublicReceipt.getBadge receiptId options) in
  PublicReceipt.occurrences PublicReceipt.dq html = 8%nat /\
  PublicReceipt.occurrences "<" html = 2%nat /\
  PublicReceipt.occurrences ">" html = 2%nat /\
  PublicReceipt.occurrences "'" html = 0%nat.
Proof.
  cbn zeta. unfold PublicReceipt.getBadge, PublicReceipt.quoted.
  cbn [PublicReceipt.html].
  destruct (escapeHtml_inert receiptId) as (l1 & g1 & q1 & p1).
  destruct (escapeHtml_inert (default "medium" (PublicReceipt.size options)))
    as (l2 & g2 & q2 & p2).
  destruct (escapeHtml_inert (default "light" (PublicReceipt.theme options)))
    as (l3 & g3 & q3 & p3).
  assert (cons : forall c d s,
             PublicReceipt.occurrences c (String.String d s)
             = ((if Ascii.eqb d c then 1 else 0)
                + PublicReceipt.occurrences c s)%nat).
  { intros c d s. cbn [PublicReceipt.occurrences].
    now destruct (Ascii.eqb d c). }
  repeat split;
    rewrite ?occurrences_app, ?cons, ?occurrences_app, ?cons,
      ?occurrences_app, ?cons, ?l1, ?g1, ?q1, ?p1, ?l2, ?g2, ?q2, ?p2,
      ?l3, ?g3, ?q3, ?p3;
    reflexivity.
Qed.

Lemma fetchDrandRound_round_witness :
  ReceiptEngine.fetchDrandRound
    (JS.Return
       {| Response.ok := true;
          Response.status := 200%N;
          Response.statusText := "OK";
          Response.json :=
            JS.Return
              (JS.Object [ ("round", JS.Number (JS.int 7));
                           ("randomness", JS.String "ab");
                           ("signature", JS.String "cd") ]) |})
  = JS.Return
      (Some {| ReceiptEngine.round := JS.Number (JS.int 7);
               ReceiptEngine.randomness := JS.String "ab";
               ReceiptEngine.signature := JS.String "cd" |}).
Proof.
  apply (proj2 (fetchDrandRound_round (host := Sample.host)
                  (crypto := Sample.crypto) _ _)).
  eexists. eexists. split; [ reflexivity | ].
  now repeat split.
Defined.

Lemma public_route_answers_witness :
  exists response,
    Worker.handlePublicRoute (host := Sample.host) (crypto := Sample.crypto)
      0%N "/track/DD-LOYW3V28-6162636465666768" (Some "https://chitty.cc")
      Sample.fresh
    = JS.Return response /\
    Http.status response = 200%N /\
    Http.allowOrigin response = "https://chitty.cc".
Proof.
  destruct (public_route_answers (host := Sample.host)
              (crypto := Sample.crypto) 0%N
              "/track/DD-LOYW3V28-6162636465666768" (Some "https://chitty.cc")
              Sample.fresh)
    as (response & answered & _ & _ & _ & _ & _ & tracked).
  exists response. split; [ exact answered | ].
  vm_compute in answered. injection answered as <-.
  split; [ | reflexivity ].
  exact (proj1 (tracked _ eq_refl)).
Defined.

Lemma generated_identifiers_are_well_formed_witness :
  ReceiptEngine.generateReceiptId Sample.offline = "DR-LOYW3V28-616263646566"
  /\ Ident.well_formed "DR-" (ReceiptEngine.generateReceiptId Sample.offline).
Proof.
  split; [ reflexivity | ].
  exact (proj1 generated_identifiers_are_well_formed Sample.offline).
Defined.

Lemma badge_markup_is_closed_witness :
  PublicReceipt.occurrences PublicReceipt.dq
    (PublicReceipt.html
       (PublicReceipt.getBadge (uri := {| encodeURIComponent := id |})
          "DR-1<script>'x'"
          {| PublicReceipt.size := None; PublicReceipt.theme := None |}))
  = 8%nat.
Proof.
  exact (proj1 (badge_markup_is_closed (uri := {| encodeURIComponent := id |})
                  "DR-1<script>'x'"
                  {| PublicReceipt.size := None;
                     PublicReceipt.theme := None |})).
Defined.
